(** * Font checks of the Adobe Fonts and [name] profiles

    A shallow embedding of the checks of
    [Lib/fontbakery/profiles/adobefonts.py] and
    [Lib/fontbakery/profiles/name.py], and the properties of their
    verdicts.

    A check is a Python generator: it yields [(status, message)] pairs and
    either runs to its end or is cut short by an exception.  It is embedded
    as a value of [Gen unit]: the list of results yielded so far, and how
    the body ended.  Python [str] values are lists of code points, integers
    are [Z], [set] values of integers are [gset Z], and a [dict] whose
    iteration order the code relies on is an association list. *)

From Stdlib Require Import ZArith List String Ascii Lia Bool.
From stdpp Require Import base gmap sets list strings sorting pretty.

Open Scope Z_scope.

(** ** Python values *)

(** A Python [str]: the sequence of its code points. *)
Abbreviation pystr := (list N).

(** A literal of the source, as a [pystr] (one code point per character). *)
Definition u (s : string) : pystr :=
  map N_of_ascii (list_ascii_of_string s).

(** The exceptions the modelled code can raise. *)
Inductive exn :=
| KeyError
| UnicodeDecodeError
| AttributeError
| ValueError
| IndexError
| ZeroDivisionError.

(** The value of an expression: a result, or a raised exception. *)
Inductive outcome (A : Type) :=
| Ok (a : A)
| Raise (e : exn).
Arguments Ok {A} a.
Arguments Raise {A} e.

#[global] Instance outcome_ret : MRet outcome := fun _ a => Ok a.
#[global] Instance outcome_bind : MBind outcome := fun _ _ f m =>
  match m with
  | Ok a => f a
  | Raise e => Raise e
  end.

(** ** Statuses and messages (fontbakery.status, fontbakery.message) *)

Inductive Status := PASS | FAIL | WARN | ERROR | SKIP | INFO.

#[global] Instance Status_eq_dec : EqDecision Status.
Proof. solve_decision. Defined.

(** One row of the table of [family_naming_recommendations]. *)
Record BadEntry := {
  field : string;
  value : pystr;
  rec : string
}.

(** The text of a message is kept as the pieces of its f-string: the
    literal parts and the interpolated values, unformatted. *)
Inductive Fragment :=
| Lit (s : string)                 (* literal text *)
| DQ                               (* a double quote character *)
| FInt (n : Z)                     (* {n} *)
| FHex04 (n : Z)                   (* {n:04X} *)
| FStr (s : pystr)                 (* {s} *)
| FRepr (s : pystr)                (* {s!r} *)
| FInts (l : list Z)               (* {l}, a list of integers *)
| FStrs (l : list pystr)           (* {l}, a list of strings *)
| FKey (k : Z * Z * Z * Z)         (* {k}, a tuple of four integers *)
| FPercent (num den : Z)           (* {100.0 * (float(num) / den):.2f} *)
| FTable (rows : list BadEntry).   (* the markdown table of bad entries *)

(** What a check yields next to the status: [Message(code, text)], or a
    bare string. *)
Inductive MessageT :=
| Message (code : string) (text : list Fragment)
| Plain (text : string).

Definition CheckResult : Type := Status * MessageT.

(** The message code of a result, when it has one. *)
Definition code_of (r : CheckResult) : option string :=
  match snd r with
  | Message c _ => Some c
  | Plain _ => None
  end.

(** ** Generators *)

(** The run of a generator body: what it yielded, and how it ended. *)
Record Gen (A : Type) := MkGen {
  yielded : list CheckResult;
  completion : outcome A
}.
Arguments MkGen {A} _ _.
Arguments yielded {A} _.
Arguments completion {A} _.

#[global] Instance Gen_ret : MRet Gen := fun _ a => MkGen [] (Ok a).
#[global] Instance Gen_bind : MBind Gen := fun _ _ f m =>
  match completion m with
  | Ok a => MkGen (yielded m ++ yielded (f a)) (completion (f a))
  | Raise e => MkGen (yielded m) (Raise e)
  end.

(** [yield status, message] *)
Definition yield (r : CheckResult) : Gen unit := MkGen [r] (Ok tt).

(** An expression evaluated inside a generator body. *)
Definition lift {A} (o : outcome A) : Gen A := MkGen [] o.

(** The exception that ended the run, if one did. *)
Definition raised {A} (g : Gen A) : option exn :=
  match completion g with
  | Ok _ => None
  | Raise e => Some e
  end.

(** [for x in xs: body], the local variables the body assigns threaded
    through as [s]. *)
Fixpoint for_ {A S} (xs : list A) (body : A -> S -> Gen S) (s : S) : Gen S :=
  match xs with
  | [] => mret s
  | x :: xs' => s' ← body x s; for_ xs' body s'
  end.

(** The same loop in code that is not a generator. *)
Fixpoint for_o {A S} (xs : list A) (body : A -> S -> outcome S) (s : S)
  : outcome S :=
  match xs with
  | [] => mret s
  | x :: xs' => s' ← body x s; for_o xs' body s'
  end.

(** [sorted(s)] for a set of integers. *)
Definition sorted (s : gset Z) : list Z := merge_sort Z.le (elements s).

(** [d[k]] on a dict: the value, or KeyError. *)
Fixpoint dict_get {K V} `{EqDecision K} (d : list (K * V)) (k : K)
  : outcome V :=
  match d with
  | [] => Raise KeyError
  | (k', v) :: d' => if decide (k' = k) then Ok v else dict_get d' k
  end.

(** ** Fonts (fontTools.ttLib)

    The parsed font is the input of every check.  It is an object of the
    font-parsing library; the model keeps the tables and fields the checks
    read.  A table that the font does not have is [None]. *)

(** A record of the 'name' table.  [decoded] is what [toUnicode()] gives
    for the record's bytes: the string, or [None] when the bytes are not
    valid in the record's encoding. *)
Record NameRecord := {
  nameID : Z;
  platformID : Z;
  platEncID : Z;
  langID : Z;
  decoded : option pystr
}.

(** [rec.toUnicode()] *)
Definition toUnicode (r : NameRecord) : outcome pystr :=
  match decoded r with
  | Some s => Ok s
  | None => Raise UnicodeDecodeError
  end.

Record NameTable := { names : list NameRecord }.
Record HeadTable := { unitsPerEm : Z }.
Record Glyph := { isComposite : bool; numberOfContours : Z }.
Record GlyfTable := { glyphs : list (pystr * Glyph) }.
Record HheaTable := { advanceWidthMax : Z }.
Record HmtxTable := { metrics : list (pystr * (Z * Z)) }.
Record Panose := { bFamilyType : Z; bProportion : Z; bSpacing : Z }.
Record OS2Table := { panose : Panose }.
Record PostTable := { isFixedPitch : Z }.
(** A charstring is kept as its [bytecode]. *)
Record TopDict := { CharStrings : list (pystr * list Z) }.
Record CFFTable := { topDictIndex : list TopDict }.

Record TTFont := {
  name_table : option NameTable;
  head_table : option HeadTable;
  glyf_table : option GlyfTable;
  hhea_table : option HheaTable;
  hmtx_table : option HmtxTable;
  OS2_table : option OS2Table;
  post_table : option PostTable;
  CFF_table : option CFFTable;
  CFF2_table : option CFFTable;
  (** the result of [getBestCmap()]: [None] when the font has no Unicode
      cmap subtable *)
  bestCmap : option (list (Z * pystr))
}.

(** [ttFont[tag]]: the table, or KeyError. *)
Definition getitem {T} (table : option T) : outcome T :=
  match table with
  | Some t => Ok t
  | None => Raise KeyError
  end.

(** [tag in ttFont] *)
Definition contains {T} (table : option T) : bool :=
  match table with
  | Some _ => true
  | None => false
  end.

(** [name_table.getName(nameID, platformID, platEncID, langID)]: the first
    record with these four ids, or [None]. *)
Definition getName (t : NameTable) (nid plat enc lang : Z)
  : option NameRecord :=
  List.find (fun r => (nameID r =? nid) && (platformID r =? plat)
                      && (platEncID r =? enc) && (langID r =? lang))
            (names t).

(** ** adobefonts.py *)

(** The body of the loop of [consistent_upm]:
    [upm_set.add(ttFont["head"].unitsPerEm)]. *)
Definition add_upm (ttFont : TTFont) (upm_set : gset Z) : Gen (gset Z) :=
  head ← lift (getitem (head_table ttFont));
  mret (upm_set ∪ {[unitsPerEm head]}).

(** com.adobe.fonts/check/family/consistent_upm *)
Definition com_adobe_fonts_check_family_consistent_upm
    (ttFonts : list TTFont) : Gen unit :=
  upm_set ← for_ ttFonts add_upm ∅;
  if decide (1 < size upm_set)%nat then
    yield (FAIL, Message "inconsistent-upem"
                   [Lit "Fonts have different units per em: ";
                    FInts (sorted upm_set); Lit "."])
  else
    yield (PASS, Plain "Fonts have consistent units per em.").

(** [chr(i)]: ValueError outside the range of code points. *)
Definition chr (i : Z) : outcome Z :=
  if (0 <=? i) && (i <=? 0x10FFFF) then Ok i else Raise ValueError.

(** [l[0]] on a list. *)
Definition index0 {A} (l : list A) : outcome A :=
  match l with
  | [] => Raise IndexError
  | x :: _ => Ok x
  end.

(** [len(x)] as an integer. *)
Definition len {A} (l : list A) : Z := Z.of_nat (length l).

Definition _quick_and_dirty_glyph_is_empty (font : TTFont) (glyph_name : pystr)
  : outcome bool :=
  if contains (glyf_table font) then
    glyf ← getitem (glyf_table font);
    glyph ← dict_get (glyphs glyf) glyph_name;
    if negb (isComposite glyph) then
      if numberOfContours glyph =? 0 then Ok true else Ok false
    else Ok false
  else
    top_dict ← (if contains (CFF2_table font) then
                  cff ← getitem (CFF2_table font); index0 (topDictIndex cff)
                else
                  cff ← getitem (CFF_table font); index0 (topDictIndex cff));
    let char_strings := CharStrings top_dict in
    char_string ← dict_get char_strings glyph_name;
    if len char_string <=? 1 then Ok true else Ok false.

Definition letter_categories : list string :=
  ["Ll"; "Lm"; "Lo"; "Lt"; "Lu"]%string.

(** Hangul filler chars (category='Lo') *)
Definition invisible_letters : gset Z :=
  {[ 0x115F; 0x1160; 0x3164; 0xFFA0 ]}.

Section FindEmptyLetters.

(** [unicodedata.category] of the standard library, and the two sets of
    code points of fontbakery.constants, which is not among the
    sources. *)
Variable unicodedata_category : Z -> string.
Variable ALL_HANGUL_SYLLABLES_CODEPOINTS : gset Z.
Variable MODERN_HANGUL_SYLLABLES_CODEPOINTS : gset Z.

Definition blank_ok_set : gset Z :=
  ALL_HANGUL_SYLLABLES_CODEPOINTS ∖ MODERN_HANGUL_SYLLABLES_CODEPOINTS.

Definition empty_letter (unicode_val : Z) (glyph_name : pystr) : CheckResult :=
  (FAIL, Message "empty-letter"
           [Lit "U+"; FHex04 unicode_val; Lit " should be visible, ";
            Lit "but its glyph ("; FRepr glyph_name; Lit ") is empty."]).

Definition empty_hangul_letter (num_blank_hangul_glyphs : Z) : CheckResult :=
  (WARN, Message "empty-hangul-letter"
           [Lit "Found "; FInt num_blank_hangul_glyphs;
            Lit " empty hangul glyph(s)."]).

(** The body of the loop over [cmap.items()]; the state is
    [(num_blank_hangul_glyphs, passed)]. *)
Definition find_empty_letters_body (ttFont : TTFont)
    (item : Z * pystr) (st : Z * bool) : Gen (Z * bool) :=
  let '(unicode_val, glyph_name) := item in
  let '(num_blank_hangul_glyphs, passed) := st in
  category ← lift (c ← chr unicode_val; mret (unicodedata_category c));
  glyph_is_empty ← lift (_quick_and_dirty_glyph_is_empty ttFont glyph_name);
  if glyph_is_empty && bool_decide (unicode_val ∈ blank_ok_set) then
    mret (num_blank_hangul_glyphs + 1, false)
  else if glyph_is_empty
          && bool_decide (category ∈ letter_categories)
          && negb (bool_decide (unicode_val ∈ invisible_letters)) then
    _ ← yield (empty_letter unicode_val glyph_name);
    mret (num_blank_hangul_glyphs, false)
  else mret (num_blank_hangul_glyphs, passed).

(** com.adobe.fonts/check/find_empty_letters *)
Definition com_adobe_fonts_check_find_empty_letters (ttFont : TTFont)
  : Gen unit :=
  let cmap := bestCmap ttFont in
  items ← lift (match cmap with
                | Some d => Ok d
                | None => Raise AttributeError
                end);
  st ← for_ items (find_empty_letters_body ttFont) (0, true);
  let '(num_blank_hangul_glyphs, passed) := (st : Z * bool) in
  if passed then
    yield (PASS, Plain "No empty glyphs for letters found.")
  else if negb (num_blank_hangul_glyphs =? 0) then
    yield (empty_hangul_letter num_blank_hangul_glyphs)
  else mret tt.

End FindEmptyLetters.

(** [c.isspace()] for one code point: the white space of Python's [str]. *)
Definition isspace (c : N) : bool :=
  ((0x09 <=? c) && (c <=? 0x0D) || (0x1C <=? c) && (c <=? 0x20)
   || (c =? 0x85) || (c =? 0xA0) || (c =? 0x1680)
   || (0x2000 <=? c) && (c <=? 0x200A)
   || (c =? 0x2028) || (c =? 0x2029) || (c =? 0x202F) || (c =? 0x205F)
   || (c =? 0x3000))%N.

Fixpoint lstrip (s : pystr) : pystr :=
  match s with
  | [] => []
  | c :: s' => if isspace c then lstrip s' else s
  end.

Definition rstrip (s : pystr) : pystr := rev (lstrip (rev s)).

(** [s.strip()] *)
Definition strip (s : pystr) : pystr := lstrip (rstrip s).

(** Modelled from the spec: the condition [has_name_table] of
    fontbakery.profiles.shared_conditions, which is not among the sources;
    the framework computes it from the font before the check runs. *)
Definition has_name_table (ttFont : TTFont) : bool :=
  contains (name_table ttFont).

(** The five results of [nameid_1_win_english]. *)
Definition name_table_not_found : CheckResult :=
  (FAIL, Message "name-table-not-found" [Lit "Font has no 'name' table."]).
Definition nameid_1_not_found : CheckResult :=
  (FAIL, Message "nameid-1-not-found"
           [Lit "Windows nameID 1 US-English record not found."]).
Definition nameid_1_decoding_error : CheckResult :=
  (ERROR, Message "nameid-1-decoding-error"
            [Lit "Windows nameID 1 US-English record could not be decoded."]).
Definition nameid_1_empty : CheckResult :=
  (FAIL, Message "nameid-1-empty"
           [Lit "Windows nameID 1 US-English record is empty."]).
Definition nameid_1_good : CheckResult :=
  (PASS, Plain "Font contains a good Windows nameID 1 US-English record.").

(** com.adobe.fonts/check/nameid_1_win_english.  The function returns its
    one result instead of yielding it. *)
Definition com_adobe_fonts_check_nameid_1_win_english
    (ttFont : TTFont) (has_name_table : bool) : outcome CheckResult :=
  if negb has_name_table then Ok name_table_not_found
  else
    name ← getitem (name_table ttFont);
    let nameid_1 := getName name 1 3 1 0x409 in
    match nameid_1 with
    | None => Ok nameid_1_not_found
    | Some nameid_1 =>
        match toUnicode nameid_1 with
        | Raise UnicodeDecodeError => Ok nameid_1_decoding_error
        | Raise e => Raise e
        | Ok nameid_1_unistr =>
            if bool_decide (strip nameid_1_unistr = []) then Ok nameid_1_empty
            else Ok nameid_1_good
        end
    end.

(** ** Constants (fontbakery.constants) *)

(** Modelled from the spec: fontbakery.constants is not among the sources.
    The name identifiers are those of the 'name' table as the glossary and
    the comments of name.py give them: 1 is the Family Name, 4 the Full
    Name, 6 the PostScript Name, and the family name can also come from
    nameIDs 16 and 21. *)
Module NameID.
Definition FONT_FAMILY_NAME : Z := 1.
Definition FONT_SUBFAMILY_NAME : Z := 2.
Definition FULL_FONT_NAME : Z := 4.
Definition POSTSCRIPT_NAME : Z := 6.
Definition TYPOGRAPHIC_FAMILY_NAME : Z := 16.
Definition TYPOGRAPHIC_SUBFAMILY_NAME : Z := 17.
Definition WWS_FAMILY_NAME : Z := 21.
End NameID.

(** Modelled from the spec: the platform, encoding and language of
    fontbakery.constants that [max_4_fonts_per_family_name] asks for, with
    the values adobefonts.py documents: platformID 3 (Windows), encodingID 1
    (Unicode), languageID 0x409 (US-English). *)
Module PlatformID.
Definition WINDOWS : Z := 3.
End PlatformID.
Module WindowsEncodingID.
Definition UNICODE_BMP : Z := 1.
End WindowsEncodingID.
Module WindowsLanguageID.
Definition ENGLISH_USA : Z := 0x409.
End WindowsLanguageID.

(** Modelled from the spec: the values of fontbakery.constants that the
    rationale of the monospace check documents: a proportion of 9 and a
    spacing of 3 mean monospaced, and [isFixedPitch] is 0 for a
    proportionally spaced font. *)
Module PANOSE_Proportion.
Definition MONOSPACED : Z := 9.
End PANOSE_Proportion.
Module PANOSE_Spacing.
Definition MONOSPACED : Z := 3.
End PANOSE_Spacing.
Module IsFixedWidth.
Definition NOT_MONOSPACED : Z := 0.
End IsFixedWidth.

(** ** name.py *)

(** The body of the loop of [empty_records]; the state is [failed]. *)
Definition empty_record (name_record : NameRecord) : CheckResult :=
  let name_key := (platformID name_record, platEncID name_record,
                   langID name_record, nameID name_record) in
  (FAIL, Message "empty-record"
           [DQ; Lit "name"; DQ; Lit " table record with key=";
            FKey name_key; Lit " is"; Lit " empty and should be removed."]).

Definition empty_records_body (name_record : NameRecord) (failed : bool)
  : Gen bool :=
  name_string ← lift (s ← toUnicode name_record; mret (strip s));
  if len name_string =? 0 then
    _ ← yield (empty_record name_record); mret true
  else mret failed.

(** com.adobe.fonts/check/name/empty_records *)
Definition com_adobe_fonts_check_name_empty_records (ttFont : TTFont)
  : Gen unit :=
  name ← lift (getitem (name_table ttFont));
  failed ← for_ (names name) empty_records_body false;
  if negb failed then
    yield (PASS, Plain "No empty name table records found.")
  else mret tt.

(** The condition [glyph_metrics_stats], computed by the framework. *)
Record GlyphMetricsStats := {
  seems_monospaced : bool;
  most_common_width : Z;
  width_max : Z
}.

(** [key in ttFont] for a table tag given as a string. *)
Definition in_font (ttFont : TTFont) (key : string) : bool :=
  if String.eqb key "name" then contains (name_table ttFont)
  else if String.eqb key "head" then contains (head_table ttFont)
  else if String.eqb key "glyf" then contains (glyf_table ttFont)
  else if String.eqb key "hhea" then contains (hhea_table ttFont)
  else if String.eqb key "hmtx" then contains (hmtx_table ttFont)
  else if String.eqb key "OS/2" then contains (OS2_table ttFont)
  else if String.eqb key "post" then contains (post_table ttFont)
  else if String.eqb key "CFF " then contains (CFF_table ttFont)
  else if String.eqb key "CFF2" then contains (CFF2_table ttFont)
  else false.

(** [float(n) / d > 0] for a count [n] and a length [d]: the division
    raises on a zero [d], and the quotient of a count by a positive length
    is positive exactly when the count is. *)
Definition outliers_ratio_positive (n d : Z) : outcome bool :=
  if d =? 0 then Raise ZeroDivisionError else Ok (0 <? n).

Section Monospace.

(** The family types of fontbakery.constants.PANOSE_Family_Type, which is
    not among the sources. *)
Variable LATIN_TEXT LATIN_HAND_WRITTEN LATIN_SYMBOL : Z.

Definition PANOSE_is_monospaced (panose : Panose) : bool :=
  if bFamilyType panose =? LATIN_TEXT then
    bProportion panose =? PANOSE_Proportion.MONOSPACED
  else if bool_decide (bFamilyType panose ∈ [LATIN_HAND_WRITTEN; LATIN_SYMBOL]) then
    bSpacing panose =? PANOSE_Spacing.MONOSPACED
  else false.

Definition PANOSE_expected (family_type : Z) : list Fragment :=
  if family_type =? LATIN_TEXT then
    [Lit "Please set PANOSE Proportion to ";
     FInt PANOSE_Proportion.MONOSPACED; Lit " (monospaced)"]
  else if bool_decide (family_type ∈ [LATIN_HAND_WRITTEN; LATIN_SYMBOL]) then
    [Lit "Please set PANOSE Spacing to ";
     FInt PANOSE_Spacing.MONOSPACED; Lit " (monospaced)"]
  else if family_type =? LATIN_SYMBOL then
    [Lit "PANOSE Family Type is set to 4 (latin symbol).";
     Lit " Please set it instead to "; FInt LATIN_TEXT; Lit " (latin text), ";
     FInt LATIN_HAND_WRITTEN; Lit " (latin hand written)";
     Lit " or "; FInt LATIN_SYMBOL; Lit " (latin symbol)"]
  else
    [Lit "Note: Family Type is set to "; FInt family_type;
     Lit ", which does not seem right."].

Definition required : list string :=
  ["glyf"; "hhea"; "hmtx"; "OS/2"; "post"]%string.

Definition lacks (key : string) : CheckResult :=
  (FAIL, Message ("lacks-" +:+ key)
           [Lit "Font file lacks a '"; Lit key; Lit "' table."]).

(** The list comprehension of the glyphs with an unusual advance width. *)
Definition unusually_spaced (ttFont : TTFont) (most_common_width : Z)
    (glyph_names : list pystr) : outcome (list pystr) :=
  for_o glyph_names (fun g acc =>
    if bool_decide (g ∈ [u ".notdef"; u ".null"; u "NULL"]) then mret acc
    else
      hmtx ← getitem (hmtx_table ttFont);
      m ← dict_get (metrics hmtx) g;
      if negb (fst m =? 0) then
        hmtx' ← getitem (hmtx_table ttFont);
        m' ← dict_get (metrics hmtx') g;
        if negb (fst m' =? most_common_width) then mret (acc ++ [g])
        else mret acc
      else mret acc) [].

(** com.google.fonts/check/monospace *)
Definition com_google_fonts_check_monospace (ttFont : TTFont)
    (glyph_metrics_stats : GlyphMetricsStats) : Gen unit :=
  let seems_monospaced := seems_monospaced glyph_metrics_stats in
  let most_common_width := most_common_width glyph_metrics_stats in
  let width_max := width_max glyph_metrics_stats in
  (* Check for missing tables before indexing them *)
  missing_tables ← for_ required (fun key (missing_tables : bool) =>
      if negb (in_font ttFont key) then
        _ ← yield (lacks key); mret true
      else mret missing_tables) false;
  if (missing_tables : bool) then mret tt
  else
    hhea ← lift (getitem (hhea_table ttFont));
    failed ← (if negb (advanceWidthMax hhea =? width_max) then
                _ ← yield (FAIL, Message "bad-advanceWidthMax"
                             [Lit "Value of hhea.advanceWidthMax";
                              Lit " should be set to "; FInt width_max;
                              Lit " but got "; FInt (advanceWidthMax hhea);
                              Lit " instead."]);
                mret true
              else mret false);
    if seems_monospaced then
      post ← lift (getitem (post_table ttFont));
      failed ← (if isFixedPitch post =? IsFixedWidth.NOT_MONOSPACED then
                  _ ← yield (FAIL, Message "mono-bad-post-isFixedPitch"
                        [Lit "On monospaced fonts, the value of post.isFixedPitch";
                         Lit " must be set to a non-zero value";
                         Lit " (meaning 'fixed width monospaced'),";
                         Lit " but got "; FInt (isFixedPitch post);
                         Lit " instead."]);
                  mret true
                else mret (failed : bool));
      os2 ← lift (getitem (OS2_table ttFont));
      failed ← (if negb (PANOSE_is_monospaced (panose os2)) then
                  let family_type := bFamilyType (panose os2) in
                  _ ← yield (FAIL, Message "mono-bad-panose"
                        (Lit "The PANOSE numbers are incorrect for a monospaced font. "
                         :: PANOSE_expected family_type));
                  mret true
                else mret (failed : bool));
      glyf ← lift (getitem (glyf_table ttFont));
      let num_glyphs := len (glyphs glyf) in
      unusually_spaced_glyphs ←
        lift (unusually_spaced ttFont most_common_width (map fst (glyphs glyf)));
      positive ← lift (outliers_ratio_positive
                         (len unusually_spaced_glyphs) num_glyphs);
      failed ← (if (positive : bool) then
                  _ ← yield (WARN, Message "mono-outliers"
                        [Lit "Font is monospaced but ";
                         FInt (len unusually_spaced_glyphs); Lit " glyphs (";
                         FPercent (len unusually_spaced_glyphs) num_glyphs;
                         Lit "%) have a different width.";
                         Lit " You should check the widths of: ";
                         FStrs unusually_spaced_glyphs]);
                  mret true
                else mret (failed : bool));
      if negb failed then
        yield (PASS, Message "mono-good"
                 [Lit "Font is monospaced and all related metadata look good."])
      else mret tt
    else
      post ← lift (getitem (post_table ttFont));
      failed ← (if negb (isFixedPitch post =? IsFixedWidth.NOT_MONOSPACED) then
                  _ ← yield (FAIL, Message "bad-post-isFixedPitch"
                        [Lit "On non-monospaced fonts,";
                         Lit " the post.isFixedPitch value must be set to ";
                         FInt IsFixedWidth.NOT_MONOSPACED;
                         Lit " (not monospaced), but got ";
                         FInt (isFixedPitch post); Lit " instead."]);
                  mret true
                else mret (failed : bool));
      os2 ← lift (getitem (OS2_table ttFont));
      failed ← (if bProportion (panose os2) =? PANOSE_Proportion.MONOSPACED then
                  _ ← yield (FAIL, Message "bad-panose"
                        [Lit "On non-monospaced fonts,";
                         Lit " the OS/2.panose.bProportion value can be set to";
                         Lit " any value except 9 (proportion: monospaced)";
                         Lit " which is the bad value we got in this font."]);
                  mret true
                else mret (failed : bool));
      if negb failed then
        yield (PASS, Message "good"
                 [Lit "Font is not monospaced and all related metadata look good."])
      else mret tt.

End Monospace.

(** [s.startswith(prefix)] *)
Fixpoint startswith (s prefix : pystr) : bool :=
  match prefix, s with
  | [], _ => true
  | _ :: _, [] => false
  | p :: prefix', c :: s' => (c =? p)%N && startswith s' prefix'
  end.

(** [o.toUnicode()] where [o] is the result of [getName]. *)
Definition call_toUnicode (o : option NameRecord) : outcome pystr :=
  match o with
  | Some r => toUnicode r
  | None => Raise AttributeError
  end.

Definition decode_error_msg_prefix (plat_id enc_id lang_id : Z)
  : list Fragment :=
  [Lit "On the 'name' table, the name record";
   Lit " for platformID "; FInt plat_id; Lit ",";
   Lit " encodingID "; FInt enc_id; Lit ",";
   Lit " languageID "; FInt lang_id; Lit "("; FHex04 lang_id; Lit "),"].

Definition cannot_decode (plat_id enc_id lang_id name_id : Z) : CheckResult :=
  (FAIL, Message ("cannot-decode-nameid-" +:+ pretty name_id)
           (decode_error_msg_prefix plat_id enc_id lang_id
            ++ [Lit " and nameID "; FInt name_id;
                Lit " failed to be decoded."])).

Definition mismatch_font_names (full_name family_name : pystr)
    (plat_id enc_id lang_id family_name_id : Z) : CheckResult :=
  (FAIL, Message "mismatch-font-names"
           [Lit "On the 'name' table, the full font name "; FRepr full_name;
            Lit " does not begin with the font family name ";
            FRepr family_name;
            Lit " in platformID "; FInt plat_id; Lit ",";
            Lit " encodingID "; FInt enc_id; Lit ",";
            Lit " languageID "; FInt lang_id; Lit "("; FHex04 lang_id;
            Lit "),"; Lit " and nameID "; FInt family_name_id; Lit "."]).

Definition missing_font_names : CheckResult :=
  (FAIL, Message "missing-font-names"
           [Lit "The font's 'name' table lacks a pair of records with";
            Lit " nameID "; FInt NameID.FULL_FONT_NAME; Lit " (Full name),";
            Lit " and at least one of";
            Lit " nameID "; FInt NameID.FONT_FAMILY_NAME;
            Lit " (Font Family name), ";
            FInt NameID.TYPOGRAPHIC_FAMILY_NAME;
            Lit " (Typographic Family name),";
            Lit " or "; FInt NameID.WWS_FAMILY_NAME;
            Lit " (WWS Family name)."]).

Definition family_name_ids : list Z :=
  [NameID.FONT_FAMILY_NAME; NameID.TYPOGRAPHIC_FAMILY_NAME;
   NameID.WWS_FAMILY_NAME].

(** The body of the innermost loop, over the family name ids; the state is
    [(names_compared, passed)]. *)
Definition compare_names (name_table : NameTable) (plat_id enc_id lang_id : Z)
    (family_name_id : Z) (st : bool * bool) : Gen (bool * bool) :=
  let '(names_compared, passed) := st in
  let full_name_id := NameID.FULL_FONT_NAME in
  match getName name_table family_name_id plat_id enc_id lang_id with
  | None =>
      (* The family_name_id wasn't found. Move on to the next *)
      mret (names_compared, passed)
  | Some _ =>
      let names_compared := true in
      match call_toUnicode
              (getName name_table family_name_id plat_id enc_id lang_id) with
      | Raise UnicodeDecodeError =>
          _ ← yield (cannot_decode plat_id enc_id lang_id family_name_id);
          mret (names_compared, false)
      | Raise e => lift (Raise e)
      | Ok family_name =>
          match call_toUnicode
                  (getName name_table full_name_id plat_id enc_id lang_id) with
          | Raise UnicodeDecodeError =>
              _ ← yield (cannot_decode plat_id enc_id lang_id full_name_id);
              mret (names_compared, false)
          | Raise e => lift (Raise e)
          | Ok full_name =>
              if negb (startswith full_name family_name) then
                _ ← yield (mismatch_font_names full_name family_name
                             plat_id enc_id lang_id family_name_id);
                mret (names_compared, false)
              else mret (names_compared, passed)
          end
      end
  end.

(** The body of the loop over the language ids. *)
Definition compare_at (name_table : NameTable) (plat_id enc_id lang_id : Z)
    (st : bool * bool) : Gen (bool * bool) :=
  match getName name_table NameID.FULL_FONT_NAME plat_id enc_id lang_id with
  | None =>
      (* The full_name_id wasn't found. No point in going further *)
      mret st
  | Some _ =>
      for_ family_name_ids (compare_names name_table plat_id enc_id lang_id) st
  end.

(** com.google.fonts/check/name/match_familyname_fullfont *)
Definition com_google_fonts_check_name_match_familyname_fullfont
    (ttFont : TTFont) : Gen unit :=
  name_table ← lift (getitem (name_table ttFont));
  let platform_ids : gset Z := list_to_set (map platformID (names name_table)) in
  let encoding_ids : gset Z := list_to_set (map platEncID (names name_table)) in
  let language_ids : gset Z := list_to_set (map langID (names name_table)) in
  st ← for_ (sorted platform_ids) (fun plat_id =>
         for_ (sorted encoding_ids) (fun enc_id =>
           for_ (sorted language_ids) (fun lang_id =>
             compare_at name_table plat_id enc_id lang_id)))
       (false, true);
  let '(names_compared, passed) := (st : bool * bool) in
  if negb names_compared then yield missing_font_names
  else if passed then
    yield (PASS, Plain "Full font name begins with the font family name.")
  else mret tt.

(** [bad_psname.search(string)] for the pattern [[^A-Za-z0-9-]]: some
    character is outside the class. *)
Definition psname_char (c : N) : bool :=
  ((65 <=? c) && (c <=? 90) || (97 <=? c) && (c <=? 122)
   || (48 <=? c) && (c <=? 57) || (c =? 45))%N.

Definition bad_psname_search (s : pystr) : bool :=
  existsb (fun c => negb (psname_char c)) s.

(** [string.count('-')] *)
Definition count_hyphens (s : pystr) : Z :=
  len (filter (fun c => c = 45%N) s).

(** [Counter(l)]: a dict from each element of the list to the number of its
    occurrences, in the order of first occurrence. *)
Fixpoint counter_add (c : list (pystr * Z)) (x : pystr) : list (pystr * Z) :=
  match c with
  | [] => [(x, 1)]
  | (k, n) :: c' =>
      if decide (k = x) then (k, n + 1) :: c' else (k, n) :: counter_add c' x
  end.

Definition Counter (l : list pystr) : list (pystr * Z) :=
  fold_left counter_add l [].

Definition too_many (family_name : pystr) (count : Z) : CheckResult :=
  (FAIL, Message "too-many"
           [Lit "Family '"; FStr family_name; Lit "' has "; FInt count;
            Lit " fonts"; Lit " (should be 4 or fewer)."]).

(** The report of the bad entries. *)
Definition bad_entries_report (rows : list BadEntry) : CheckResult :=
  (INFO, Message "bad-entries"
           [Lit "Font does not follow ";
            Lit "some family naming recommendations:"; FTable rows]).

(** The two entries of [family_naming_recommendations] for a PostScript
    name. *)
Definition psname_chars_entry (string : pystr) : BadEntry :=
  {| field := "PostScript Name"; value := string;
     rec := "May contain only a-zA-Z0-9 characters and an hyphen." |}.

Definition psname_hyphens_entry (string : pystr) : BadEntry :=
  {| field := "Postscript Name"; value := string;
     rec := "May contain not more than a single hyphen" |}.

(** The body of its first loop, over the PostScript names. *)
Definition psname_step (string : pystr) (bad_entries : list BadEntry)
  : outcome (list BadEntry) :=
  let bad_entries :=
    if bad_psname_search string
    then bad_entries ++ [psname_chars_entry string]
    else bad_entries in
  if 1 <? count_hyphens string
  then mret (bad_entries ++ [psname_hyphens_entry string])
  else mret bad_entries.

Section NameEntryStrings.

(** [get_name_entry_strings] of fontbakery.utils, which is not among the
    sources: the checks are stated for any such function.  The last three
    arguments are optional. *)
Variable get_name_entry_strings :
  TTFont -> Z -> option Z -> option Z -> option Z -> outcome (list pystr).

(** The iteration order of a Python [set] is not specified: [set_order l]
    is the order in which [set(l)] is iterated. *)
Variable set_order : list pystr -> list pystr.

(** One loop of [family_naming_recommendations] over the strings of a
    name id, appending to [bad_entries]. *)
Definition too_long (ttFont : TTFont) (name_id : Z) (limit : nat)
    (field_name rec_text : string) (bad_entries : list BadEntry)
  : outcome (list BadEntry) :=
  strings ← get_name_entry_strings ttFont name_id None None None;
  for_o strings (fun string bad_entries =>
    if (limit <=? length string)%nat then
      mret (bad_entries ++ [{| field := field_name; value := string;
                               rec := rec_text |}])
    else mret bad_entries) bad_entries.

Definition collect_bad_entries (ttFont : TTFont) : outcome (list BadEntry) :=
  let bad_entries := [] in
  strings ← get_name_entry_strings ttFont NameID.POSTSCRIPT_NAME None None None;
  bad_entries ← for_o strings psname_step bad_entries;
bad_entries ← too_long ttFont NameID.FULL_FONT_NAME 64
                  "Full Font Name" "exceeds max length (63)" bad_entries;
  bad_entries ← too_long ttFont NameID.POSTSCRIPT_NAME 64
                  "PostScript Name" "exceeds max length (63)" bad_entries;
  bad_entries ← too_long ttFont NameID.FONT_FAMILY_NAME 32
                  "Family Name" "exceeds max length (31)" bad_entries;
  bad_entries ← too_long ttFont NameID.FONT_SUBFAMILY_NAME 32
                  "Style Name" "exceeds max length (31)" bad_entries;
  bad_entries ← too_long ttFont NameID.TYPOGRAPHIC_FAMILY_NAME 32
                  "OT Family Name" "exceeds max length (31)" bad_entries;
  too_long ttFont NameID.TYPOGRAPHIC_SUBFAMILY_NAME 32
    "OT Style Name" "exceeds max length (31)" bad_entries.

(** com.google.fonts/check/family_naming_recommendations *)
Definition com_google_fonts_check_family_naming_recommendations
    (ttFont : TTFont) : Gen unit :=
  bad_entries ← lift (collect_bad_entries ttFont);
  if 0 <? len bad_entries then yield (bad_entries_report bad_entries)
  else
    yield (PASS, Plain "Font follows the family naming recommendations.").

(** The first loop of [max_4_fonts_per_family_name]. *)
Definition collect_family_names (ttFonts : list TTFont)
  : outcome (list pystr) :=
  for_o ttFonts (fun ttFont family_names =>
    names_list ← get_name_entry_strings ttFont NameID.FONT_FAMILY_NAME
                   (Some PlatformID.WINDOWS)
                   (Some WindowsEncodingID.UNICODE_BMP)
                   (Some WindowsLanguageID.ENGLISH_USA);
    (* names_list may contain multiple entries.
       We use set() below to remove the duplicates and only store
       the unique family name(s) used for a given font *)
    let names_set := set_order names_list in
    mret (family_names ++ names_set)) [].

(** com.adobe.fonts/check/family/max_4_fonts_per_family_name *)
Definition com_adobe_fonts_check_family_max_4_fonts_per_family_name
    (ttFonts : list TTFont) : Gen unit :=
  family_names ← lift (collect_family_names ttFonts);
  let counter := Counter family_names in
  passed ← for_ counter (fun item (passed : bool) =>
      let '(family_name, count) := (item : pystr * Z) in
      if 4 <? count then
        _ ← yield (too_many family_name count); mret false
      else mret passed) true;
  if (passed : bool) then
    yield (PASS, Plain "There were no more than 4 fonts per family name.")
  else mret tt.

End NameEntryStrings.

(** Modelled from the spec: [get_name_entry_strings] of fontbakery.utils,
    which is not among the sources.  It gives the strings of the records of
    the 'name' table that have the name id asked for and, for each of
    platform, encoding and language that is given, that id too; a font
    without the table or a record that cannot be decoded raises. *)
Definition name_entry_matches (name_id : Z) (plat enc lang : option Z)
    (r : NameRecord) : bool :=
  (nameID r =? name_id)
  && match plat with Some p => platformID r =? p | None => true end
  && match enc with Some e => platEncID r =? e | None => true end
  && match lang with Some l => langID r =? l | None => true end.

Definition get_name_entry_strings_model (ttFont : TTFont) (name_id : Z)
    (plat enc lang : option Z) : outcome (list pystr) :=
  name ← getitem (name_table ttFont);
  for_o (List.filter (name_entry_matches name_id plat enc lang) (names name))
        (fun entry strings => s ← toUnicode entry; mret (strings ++ [s])) [].

(** ** name.py, the checks on the PostScript name and the description *)

(** [a <= b] on strings: the order of [sorted] on a set of strings, by code
    points. *)
Fixpoint str_leb (a b : pystr) : bool :=
  match a, b with
  | [], _ => true
  | _ :: _, [] => false
  | x :: a', y :: b' => (x <? y)%N || ((x =? y)%N && str_leb a' b')
  end.

Definition str_le (a b : pystr) : Prop := str_leb a b = true.

#[global] Instance str_le_dec (a b : pystr) : Decision (str_le a b).
Proof. unfold str_le. apply _. Defined.

(** [sorted(s)] for a set of strings. *)
Definition sorted_strs (s : gset pystr) : list pystr :=
  merge_sort str_le (elements s).

(** [needle in s] for strings: [needle] starts at some position of [s]. *)
Fixpoint substring_in (needle s : pystr) : bool :=
  startswith s needle
  || match s with
     | [] => false
     | _ :: s' => substring_in needle s'
     end.

Section NoCopyrightOnDescription.

(** [name.string.decode(name.getEncoding())] of the font library, and
    [NameID.DESCRIPTION] of fontbakery.constants, which is not among the
    sources. *)
Variable string_decode : NameRecord -> outcome pystr.
Variable DESCRIPTION : Z.

(** The body of the loop of [no_copyright_on_description]; the state is
    [failed]. *)
Definition copyright_step (name : NameRecord) (failed : bool) : outcome bool :=
  s ← string_decode name;
  if substring_in (u "opyright") s && (nameID name =? DESCRIPTION)
  then mret true else mret failed.

Definition copyright_on_description : CheckResult :=
  (FAIL, Message "copyright-on-description"
           [Lit "Some namerecords with"; Lit " ID="; FInt DESCRIPTION;
            Lit " (NameID.DESCRIPTION)";
            Lit " containing copyright info should be removed";
            Lit " (perhaps these were added by a longstanding";
            Lit " FontLab Studio 5.x bug that copied";
            Lit " copyright notices to them.)"]).

(** com.google.fonts/check/name/no_copyright_on_description *)
Definition com_google_fonts_check_name_no_copyright_on_description
    (ttFont : TTFont) : Gen unit :=
  name ← lift (getitem (name_table ttFont));
  failed ← lift (for_o (names name) copyright_step false);
  if (failed : bool) then yield copyright_on_description
  else
    yield (PASS, Plain "Description strings in the name table do not contain any copyright string.").

End NoCopyrightOnDescription.

Definition ps_cff_name_mismatch (postscript_name cff_name : pystr) : CheckResult :=
  (FAIL, Message "ps-cff-name-mismatch"
           [Lit "Name table PostScript name '"; FStr postscript_name;
            Lit "' "; Lit "does not match CFF table FontName '";
            FStr cff_name; Lit "'."]).

Section PostscriptVsCff.

(** [cff.fontNames] of a 'CFF ' table, a field of the font library's
    object that the record of the table does not keep. *)
Variable fontNames : CFFTable -> list pystr.

(** The body of the loop of [postscript_vs_cff]; the state is [passed]. *)
Definition postscript_vs_cff_body (cff_name : pystr) (entry : NameRecord)
    (passed : bool) : Gen bool :=
  if nameID entry =? NameID.POSTSCRIPT_NAME then
    postscript_name ← lift (toUnicode entry);
    if negb (bool_decide (postscript_name = cff_name)) then
      _ ← yield (ps_cff_name_mismatch postscript_name cff_name);
      mret false
    else mret passed
  else mret passed.

(** com.adobe.fonts/check/name/postscript_vs_cff *)
Definition com_adobe_fonts_check_name_postscript_vs_cff (ttFont : TTFont)
  : Gen unit :=
  cff ← lift (getitem (CFF_table ttFont));
  let cff_names := fontNames cff in
  if negb (len cff_names =? 1) then
    yield (FAIL, Message "cff-name-error"
                   [Lit "Unexpected number of font names in CFF table."])
  else
    cff_name ← lift (index0 cff_names);
    name ← lift (getitem (name_table ttFont));
    passed ← for_ (names name) (postscript_vs_cff_body cff_name) true;
    if (passed : bool) then
      yield (PASS, Plain "Name table PostScript name matches CFF table FontName.")
    else mret tt.

End PostscriptVsCff.

(** The body of the loop of [postscript_name_consistency]; the state is
    the set [postscript_names]. *)
Definition add_postscript_name (entry : NameRecord)
    (postscript_names : gset pystr) : Gen (gset pystr) :=
  if nameID entry =? NameID.POSTSCRIPT_NAME then
    postscript_name ← lift (toUnicode entry);
    mret (postscript_names ∪ {[postscript_name]})
  else mret postscript_names.

Definition inconsistency (postscript_names : gset pystr) : CheckResult :=
  (FAIL, Message "inconsistency"
           [Lit "Entries in the "; DQ; Lit "name"; DQ; Lit " table for ID 6";
            Lit " (PostScript name) are not consistent.";
            Lit " Names found: "; FStrs (sorted_strs postscript_names);
            Lit "."]).

(** A double quote character, as a string. *)
Definition dquote : string :=
  String (Ascii.Ascii false true false false false true false false)
         EmptyString.

Definition postscript_names_consistent : CheckResult :=
  (PASS, Plain ("Entries in the " +:+ dquote +:+ "name" +:+ dquote
                +:+ " table for ID 6 (PostScript name) are consistent.")).

(** com.adobe.fonts/check/name/postscript_name_consistency *)
Definition com_adobe_fonts_check_name_postscript_name_consistency
    (ttFont : TTFont) : Gen unit :=
  name ← lift (getitem (name_table ttFont));
  postscript_names ← for_ (names name) add_postscript_name ∅;
  if decide (1 < size postscript_names)%nat then
    yield (inconsistency postscript_names)
  else
    yield postscript_names_consistent.

(** ** adobefonts.py, the checks of the profile *)

(** The set of explicit checks that are invoked with the 'check-adobefonts'
    subcommand. *)
Definition SET_EXPLICIT_CHECKS : gset string :=
  list_to_set [
   "com.adobe.fonts/check/family/consistent_upm";
   "com.adobe.fonts/check/find_empty_letters";
   "com.adobe.fonts/check/nameid_1_win_english";
   "com.adobe.fonts/check/cff_call_depth";
   "com.adobe.fonts/check/cff2_call_depth";
   "com.adobe.fonts/check/cff_deprecated_operators";
   "com.google.fonts/check/family/equal_unicode_encodings";
   "com.google.fonts/check/all_glyphs_have_codepoints";
   "com.fontwerk/check/weight_class_fvar";
   "com.fontwerk/check/inconsistencies_between_fvar_stat";
   "com.google.fonts/check/varfont/regular_wght_coord";
   "com.google.fonts/check/varfont/regular_wdth_coord";
   "com.google.fonts/check/varfont/regular_slnt_coord";
   "com.google.fonts/check/varfont/regular_ital_coord";
   "com.google.fonts/check/varfont/regular_opsz_coord";
   "com.google.fonts/check/varfont/bold_wght_coord";
   "com.google.fonts/check/varfont/wght_valid_range";
   "com.google.fonts/check/varfont/wdth_valid_range";
   "com.google.fonts/check/varfont/slnt_range";
   "com.adobe.fonts/check/varfont/valid_axis_nameid";
   "com.adobe.fonts/check/varfont/valid_subfamily_nameid";
   "com.adobe.fonts/check/varfont/valid_postscript_nameid";
   "com.adobe.fonts/check/varfont/valid_default_instance_nameids";
   "com.adobe.fonts/check/varfont/same_size_instance_records";
   "com.adobe.fonts/check/varfont/distinct_instance_records";
   "com.google.fonts/check/glyf_unused_data";
   "com.google.fonts/check/points_out_of_bounds";
   "com.google.fonts/check/glyf_non_transformed_duplicate_components";
   "com.google.fonts/check/aat";
   "com.google.fonts/check/fvar_name_entries";
   "com.google.fonts/check/varfont_duplicate_instance_names";
   "com.google.fonts/check/gpos_kerning_info";
   "com.google.fonts/check/family/equal_font_versions";
   "com.google.fonts/check/unitsperem";
   "com.google.fonts/check/font_version";
   "com.google.fonts/check/linegaps";
   "com.google.fonts/check/maxadvancewidth";
   "com.google.fonts/check/whitespace_widths";
   "com.google.fonts/check/kern_table";
   "com.google.fonts/check/layout_valid_feature_tags";
   "com.google.fonts/check/layout_valid_script_tags";
   "com.google.fonts/check/layout_valid_language_tags";
   "com.google.fonts/check/loca/maxp_num_glyphs";
   "com.adobe.fonts/check/name/empty_records";
   "com.google.fonts/check/monospace";
   "com.google.fonts/check/name/match_familyname_fullfont";
   "com.google.fonts/check/family_naming_recommendations";
   "com.adobe.fonts/check/name/postscript_vs_cff";
   "com.adobe.fonts/check/name/postscript_name_consistency";
   "com.adobe.fonts/check/family/max_4_fonts_per_family_name";
   "com.google.fonts/check/cmap/unexpected_subtables";
   "com.google.fonts/check/cmap/format_12";
   "com.google.fonts/check/family/panose_proportion";
   "com.google.fonts/check/family/panose_familytype";
   "com.adobe.fonts/check/fsselection_matches_macstyle";
   "com.adobe.fonts/check/family/bold_italic_unique_for_nameid1";
   "com.google.fonts/check/code_pages";
   "com.google.fonts/check/family/underline_thickness";
   "com.google.fonts/check/post_table_version";
   "com.google.fonts/check/varfont/stat_axis_record_for_each_axis";
   "com.adobe.fonts/check/stat_has_axis_value_tables";
   "com.google.fonts/check/ots";
   "com.google.fonts/check/name/trailing_spaces";
   "com.google.fonts/check/family/win_ascent_and_descent";
   "com.google.fonts/check/os2_metrics_match_hhea";
   "com.google.fonts/check/fontbakery_version";
   "com.google.fonts/check/ttx-roundtrip";
   "com.google.fonts/check/family/single_directory";
   "com.google.fonts/check/mandatory_glyphs";
   "com.google.fonts/check/whitespace_glyphs";
   "com.google.fonts/check/required_tables";
   "com.google.fonts/check/unwanted_tables";
   "com.google.fonts/check/valid_glyphnames";
   "com.google.fonts/check/unique_glyphnames";
   "com.google.fonts/check/family/vertical_metrics";
   "com.google.fonts/check/STAT_strings";
   "com.google.fonts/check/rupee";
   "com.google.fonts/check/transformed_components";
   "com.google.fonts/check/gpos7";
   "com.adobe.fonts/check/freetype_rasterizer";
   "com.adobe.fonts/check/sfnt_version"
  ]%string.

Definition CHECKS_IN_THIS_FILE : list string :=
  ["com.adobe.fonts/check/family/consistent_upm";
   "com.adobe.fonts/check/find_empty_letters";
   "com.adobe.fonts/check/nameid_1_win_english"]%string.

Definition OVERRIDDEN_CHECKS : list string :=
  ["com.google.fonts/check/whitespace_glyphs";
   "com.google.fonts/check/valid_glyphnames";
   "com.google.fonts/check/family/win_ascent_and_descent";
   "com.google.fonts/check/os2_metrics_match_hhea";
   "com.adobe.fonts/check/freetype_rasterizer";
   "com.google.fonts/check/fontbakery_version"]%string.

Section Profile.

(** The lists of checks of the profiles that are imported, which are not
    among the sources. *)
Variable UNIVERSAL_PROFILE_CHECKS : list string.
Variable FONTWERK_PROFILE_CHECKS : list string.
Variable GOOGLEFONTS_PROFILE_CHECKS : list string.
Variable NOTOFONTS_PROFILE_CHECKS : list string.

(** The order in which a set of check ids is iterated, which Python does
    not specify. *)
Variable set_iter : gset string -> list string.

Definition SET_IMPORTED_CHECKS : gset string :=
  list_to_set (UNIVERSAL_PROFILE_CHECKS ++ FONTWERK_PROFILE_CHECKS
               ++ GOOGLEFONTS_PROFILE_CHECKS ++ NOTOFONTS_PROFILE_CHECKS).

(** [ADOBEFONTS_PROFILE_CHECKS] as the two list comprehensions build it,
    before the overrides are added. *)
Definition ADOBEFONTS_PROFILE_CHECKS : list string :=
  filter (fun c => c ∈ SET_EXPLICIT_CHECKS) CHECKS_IN_THIS_FILE
  ++ filter (fun c => c ∈ SET_EXPLICIT_CHECKS) (set_iter SET_IMPORTED_CHECKS).

(** The [filter_func] given to [profile.auto_register]: whether the check
    with this id is registered. *)
Definition filter_func (checkid : string) : bool :=
  negb (bool_decide (checkid ∈ SET_IMPORTED_CHECKS ∖ SET_EXPLICIT_CHECKS)).

End Profile.

(** ** Fonts and records of the examples *)

Definition no_tables : TTFont :=
  {| name_table := None; head_table := None; glyf_table := None;
     hhea_table := None; hmtx_table := None; OS2_table := None;
     post_table := None; CFF_table := None; CFF2_table := None;
     bestCmap := None |}.

Definition font_with_upm (upm : Z) : TTFont :=
  {| name_table := None; head_table := Some {| unitsPerEm := upm |};
     glyf_table := None; hhea_table := None; hmtx_table := None;
     OS2_table := None; post_table := None; CFF_table := None;
     CFF2_table := None; bestCmap := None |}.

Definition font_with_names (l : list NameRecord) : TTFont :=
  {| name_table := Some {| names := l |}; head_table := None;
     glyf_table := None; hhea_table := None; hmtx_table := None;
     OS2_table := None; post_table := None; CFF_table := None;
     CFF2_table := None; bestCmap := None |}.

(** A Windows, Unicode BMP, US-English record. *)
Definition win_english (name_id : Z) (s : option pystr) : NameRecord :=
  {| nameID := name_id; platformID := 3; platEncID := 1; langID := 0x409;
     decoded := s |}.

(** A Windows, Unicode BMP, German record. *)
Definition win_german (name_id : Z) (s : option pystr) : NameRecord :=
  {| nameID := name_id; platformID := 3; platEncID := 1; langID := 0x407;
     decoded := s |}.

(** ** Notions of the properties *)

(** [head.unitsPerEm] of a font, when it has a 'head' table. *)
Definition upm_of (ttFont : TTFont) : option Z :=
  unitsPerEm <$> head_table ttFont.

(** The result of [nameid_1_win_english] as the specification words it:
    no 'name' table, no Windows/Unicode/US-English nameID 1 record, a record
    that cannot be decoded, an empty decoded string, and PASS otherwise. *)
Definition nameid_1_win_english_spec (ttFont : TTFont) : CheckResult :=
  match name_table ttFont with
  | None => name_table_not_found
  | Some t =>
      match getName t 1 3 1 0x409 with
      | None => nameid_1_not_found
      | Some r =>
          match decoded r with
          | None => nameid_1_decoding_error
          | Some s => if bool_decide (s = []) then nameid_1_empty
                      else nameid_1_good
          end
      end
  end.

(** A record is the Windows, Unicode, US-English Family Name record. *)
Definition is_win_english_nameid_1 (r : NameRecord) : Prop :=
  nameID r = 1 /\ platformID r = 3 /\ platEncID r = 1 /\ langID r = 0x409.

(** A string of white space only (the empty string is one). *)
Definition blank (s : pystr) : Prop := Forall (fun c => isspace c = true) s.

(** What a round of a loop over the state [(names_compared, passed)] does:
    the results it yields, whether a comparison was made, and whether all
    went well. *)
Definition summary : Type := list CheckResult * (bool * bool).

Definition sm_concat (l : list summary) : summary :=
  (flat_map fst l, (existsb (fun s => fst (snd s)) l,
                    forallb (fun s => snd (snd s)) l)).

(** A loop body that does what the summary says, from any state. *)
Definition has_summary (body : bool * bool -> Gen (bool * bool)) (sm : summary)
  : Prop :=
  forall st, body st = MkGen (fst sm) (Ok (fst st || fst (snd sm),
                                           snd st && snd (snd sm))).

(** The comparison of the Full Name with the family name [fid] at one
    combination of platform, encoding and language. *)
Definition comparison (t : NameTable) (p e l fid : Z) : summary :=
  match getName t NameID.FULL_FONT_NAME p e l, getName t fid p e l with
  | Some rf, Some rm =>
      match decoded rm, decoded rf with
      | None, _ => ([cannot_decode p e l fid], (true, false))
      | Some _, None =>
          ([cannot_decode p e l NameID.FULL_FONT_NAME], (true, false))
      | Some fam, Some full =>
          if startswith full fam then ([], (true, true))
          else ([mismatch_font_names full fam p e l fid], (true, false))
      end
  | _, _ => ([], (false, true))
  end.

(** The comparisons of the whole 'name' table, in the order of the loops. *)
Definition comparisons (t : NameTable) : summary :=
  sm_concat (map (fun p =>
    sm_concat (map (fun e =>
      sm_concat (map (fun l =>
        sm_concat (map (comparison t p e l) family_name_ids))
        (sorted (list_to_set (map langID (names t))))))
      (sorted (list_to_set (map platEncID (names t))))))
    (sorted (list_to_set (map platformID (names t))))).

(** What the check yields after its loops. *)
Definition match_familyname_tail (sm : summary) : list CheckResult :=
  if negb (fst (snd sm)) then [missing_font_names]
  else if snd (snd sm) then
    [(PASS, Plain "Full font name begins with the font family name.")]
  else [].

(** Every comparison between a Full Name record and a family name record
    that both exist and decode succeeds. *)
Definition every_comparison_succeeds (t : NameTable) : Prop :=
  forall p e l fid rf rm full fam,
    fid ∈ family_name_ids ->
    getName t NameID.FULL_FONT_NAME p e l = Some rf ->
    getName t fid p e l = Some rm ->
    decoded rf = Some full -> decoded rm = Some fam ->
    fam `prefix_of` full.

(** Full Name "ExampleSans Bold", Family Name "ExampleSans". *)
Definition example_sans_bold : TTFont :=
  font_with_names [win_english 4 (Some (u "ExampleSans Bold"));
                   win_english 1 (Some (u "ExampleSans"))].

(** Full Name "Bold ExampleSans", Family Name "ExampleSans". *)
Definition bold_example_sans : TTFont :=
  font_with_names [win_english 4 (Some (u "Bold ExampleSans"));
                   win_english 1 (Some (u "ExampleSans"))].

(** The first font with two German records added, of which the Family
    Name cannot be decoded. *)
Definition undecodable_german_family : TTFont :=
  font_with_names [win_english 4 (Some (u "ExampleSans Bold"));
                   win_english 1 (Some (u "ExampleSans"));
                   win_german 4 (Some (u "ExampleSans Bold"));
                   win_german 1 None].

(** The glyph of a cmap entry is empty, as far as
    [_quick_and_dirty_glyph_is_empty] can tell. *)
Definition glyph_is_empty (ttFont : TTFont) (glyph_name : pystr) : bool :=
  match _quick_and_dirty_glyph_is_empty ttFont glyph_name with
  | Ok b => b
  | Raise _ => false
  end.

(** The loop of [find_empty_letters] can inspect a cmap entry: its key is
    a code point, and its glyph is in the outline table that is read. *)
Definition inspectable (ttFont : TTFont) (item : Z * pystr) : Prop :=
  0 <= fst item <= 0x10FFFF
  /\ exists b, _quick_and_dirty_glyph_is_empty ttFont (snd item) = Ok b.

(** A cmap entry with an empty glyph and a code point of the blank-glyph
    set of Hangul syllables. *)
Definition blank_hangul (ALL MODERN : gset Z) (ttFont : TTFont)
    (item : Z * pystr) : bool :=
  glyph_is_empty ttFont (snd item)
  && bool_decide (fst item ∈ blank_ok_set ALL MODERN).

(** A cmap entry with an empty glyph and a code point that is a letter, not
    one of the four fillers and not in the blank-glyph set. *)
Definition empty_letter_entry (category : Z -> string) (ALL MODERN : gset Z)
    (ttFont : TTFont) (item : Z * pystr) : bool :=
  glyph_is_empty ttFont (snd item)
  && bool_decide (category (fst item) ∈ letter_categories)
  && negb (bool_decide (fst item ∈ invisible_letters))
  && negb (bool_decide (fst item ∈ blank_ok_set ALL MODERN)).

(** A font with a 'glyf' table of three empty glyphs and one with a
    contour, mapped from a letter, a filler, a Hangul syllable and a
    letter. *)
Definition empty_letters_font : TTFont :=
  {| name_table := None; head_table := None;
     glyf_table := Some {| glyphs :=
       [(u "a", {| isComposite := false; numberOfContours := 0 |});
        (u "filler", {| isComposite := false; numberOfContours := 0 |});
        (u "uniAC02", {| isComposite := false; numberOfContours := 0 |});
        (u "b", {| isComposite := false; numberOfContours := 1 |})] |};
     hhea_table := None; hmtx_table := None; OS2_table := None;
     post_table := None; CFF_table := None; CFF2_table := None;
     bestCmap := Some [(0x61, u "a"); (0x3164, u "filler");
                       (0xAC02, u "uniAC02"); (0x62, u "b")] |}.

(** A table of general categories for the example: the ASCII letters and
    digits as in Unicode, every other code point an 'other letter'. *)
Definition example_category (c : Z) : string :=
  if (48 <=? c) && (c <=? 57) then "Nd"%string
  else if (65 <=? c) && (c <=? 90) then "Lu"%string
  else if (97 <=? c) && (c <=? 122) then "Ll"%string
  else "Lo"%string.

(** The type of [get_name_entry_strings]. *)
Definition name_entry_strings : Type :=
  TTFont -> Z -> option Z -> option Z -> option Z -> outcome (list pystr).

(** The family names [max_4_fonts_per_family_name] reads from a font: the
    strings of its Windows, Unicode BMP, US-English nameID 1 records. *)
Definition family_names_of (get : name_entry_strings) (ttFont : TTFont)
  : list pystr :=
  match get ttFont NameID.FONT_FAMILY_NAME (Some PlatformID.WINDOWS)
            (Some WindowsEncodingID.UNICODE_BMP)
            (Some WindowsLanguageID.ENGLISH_USA) with
  | Ok l => l
  | Raise _ => []
  end.

(** The number of fonts of the list that carry the family name. *)
Definition fonts_sharing (get : name_entry_strings) (ttFonts : list TTFont)
    (family_name : pystr) : Z :=
  len (filter (fun f => family_name ∈ family_names_of get f) ttFonts).

(** [l.count(x)] *)
Definition count (x : pystr) (l : list pystr) : Z :=
  len (filter (fun y => y = x) l).

(** [c[k]] on a [Counter]: the count of [k], 0 when it is not a key. *)
Fixpoint counter_get (c : list (pystr * Z)) (k : pystr) : Z :=
  match c with
  | [] => 0
  | (k', n) :: c' => if decide (k' = k) then n else counter_get c' k
  end.

(** A font of the family "Example". *)
Definition example_family_font : TTFont :=
  font_with_names [win_english 1 (Some (u "Example"));
                   win_english 2 (Some (u "Regular"))].

(** A font with five records of the same family name. *)
Definition five_duplicates_font : TTFont :=
  font_with_names [win_english 1 (Some (u "Example"));
                   win_english 1 (Some (u "Example"));
                   win_english 1 (Some (u "Example"));
                   win_english 1 (Some (u "Example"));
                   win_english 1 (Some (u "Example"))].

(** [get_name_entry_strings] gives the family names of every font of the
    list. *)
Definition names_readable (get : name_entry_strings) (ttFonts : list TTFont)
  : Prop :=
  forall f, f ∈ ttFonts ->
    exists l, get f NameID.FONT_FAMILY_NAME (Some PlatformID.WINDOWS)
                (Some WindowsEncodingID.UNICODE_BMP)
                (Some WindowsLanguageID.ENGLISH_USA) = Ok l.

(** A character that a PostScript name may contain: A-Z, a-z, 0-9 or the
    hyphen. *)
Definition ps_allowed (c : N) : Prop :=
  (65 <= c <= 90 \/ 97 <= c <= 122 \/ 48 <= c <= 57 \/ c = 45)%N.

(** The strings [family_naming_recommendations] reads, by name id. *)
Record NameStrings := {
  postscript_names : list pystr;
  full_names : list pystr;
  family_names : list pystr;
  subfamily_names : list pystr;
  typographic_family_names : list pystr;
  typographic_subfamily_names : list pystr
}.

(** [get_name_entry_strings] gives these strings for the font. *)
Definition reads (get : name_entry_strings) (ttFont : TTFont)
    (ns : NameStrings) : Prop :=
  get ttFont NameID.POSTSCRIPT_NAME None None None = Ok (postscript_names ns)
  /\ get ttFont NameID.FULL_FONT_NAME None None None = Ok (full_names ns)
  /\ get ttFont NameID.FONT_FAMILY_NAME None None None = Ok (family_names ns)
  /\ get ttFont NameID.FONT_SUBFAMILY_NAME None None None
     = Ok (subfamily_names ns)
  /\ get ttFont NameID.TYPOGRAPHIC_FAMILY_NAME None None None
     = Ok (typographic_family_names ns)
  /\ get ttFont NameID.TYPOGRAPHIC_SUBFAMILY_NAME None None None
     = Ok (typographic_subfamily_names ns).

(** The string is a name entry that violates a recommendation. *)
Definition violates (ns : NameStrings) (s : pystr) : Prop :=
  (s ∈ postscript_names ns
   /\ ((exists c, c ∈ s /\ ~ ps_allowed c) \/ 1 < count_hyphens s
       \/ (63 < length s)%nat))
  \/ (s ∈ full_names ns /\ (63 < length s)%nat)
  \/ ((s ∈ family_names ns \/ s ∈ subfamily_names ns
       \/ s ∈ typographic_family_names ns
       \/ s ∈ typographic_subfamily_names ns)
      /\ (31 < length s)%nat).

(** A font whose PostScript name has a space. *)
Definition spaced_psname_font : TTFont :=
  font_with_names [win_english 6 (Some (u "Example Sans"))].

(** The entries of one PostScript name. *)
Definition psname_entries (string : pystr) : list BadEntry :=
  (if bad_psname_search string then [psname_chars_entry string] else [])
  ++ (if 1 <? count_hyphens string then [psname_hyphens_entry string] else []).

(** A record that decodes to an empty string or to white space. *)
Definition is_empty_record (r : NameRecord) : bool :=
  match decoded r with
  | Some s => len (strip s) =? 0
  | None => false
  end.

(** A record of the PostScript name (nameID 6). *)
Definition is_postscript_name (r : NameRecord) : Prop :=
  nameID r = NameID.POSTSCRIPT_NAME.

(** The decoded PostScript names of a 'name' table. *)
Definition postscript_names_of (t : NameTable) : list pystr :=
  omap decoded (filter is_postscript_name (names t)).

(** A font with three records, of which two are blank. *)
Definition blank_records_font : TTFont :=
  font_with_names [win_english 1 (Some (u "Example"));
                   win_english 2 (Some []);
                   win_english 4 (Some (u "  "))].

(** A font with a blank record before a record that cannot be decoded. *)
Definition blank_then_undecodable_font : TTFont :=
  font_with_names [win_english 2 (Some []); win_english 4 None;
                   win_english 6 (Some [])].

(** A font with two PostScript names that differ, and an undecodable
    record of another name id. *)
Definition two_psnames_font : TTFont :=
  font_with_names [win_english 6 (Some (u "Example-Bold"));
                   win_english 1 None;
                   win_german 6 (Some (u "Example-Black"))].

(** A CFF font whose PostScript names are those of [two_psnames_font]. *)
Definition cff_two_psnames_font : TTFont :=
  {| name_table := name_table two_psnames_font; head_table := None;
     glyf_table := None; hhea_table := None; hmtx_table := None;
     OS2_table := None; post_table := None;
     CFF_table := Some {| topDictIndex := [] |};
     CFF2_table := None; bestCmap := None |}.

(** A CFF font without a 'name' table. *)
Definition cff_without_names_font : TTFont :=
  {| name_table := None; head_table := None;
     glyf_table := None; hhea_table := None; hmtx_table := None;
     OS2_table := None; post_table := None;
     CFF_table := Some {| topDictIndex := [] |};
     CFF2_table := None; bestCmap := None |}.

(** A PostScript name record whose string differs from the name of the
    'CFF ' table. *)
Definition mismatches (cff_name : pystr) (r : NameRecord) : bool :=
  (nameID r =? NameID.POSTSCRIPT_NAME)
  && negb (bool_decide (decoded r = Some cff_name)).

(** The mismatch that [postscript_vs_cff] reports for a record. *)
Definition mismatch_of (cff_name : pystr) (r : NameRecord) : CheckResult :=
  ps_cff_name_mismatch (default [] (decoded r)) cff_name.

(** [no_copyright_on_description] flags the record: its string contains
    'opyright' and its name id is the one of the description. *)
Definition flagged (string_decode : NameRecord -> outcome pystr)
    (DESCRIPTION : Z) (r : NameRecord) : bool :=
  match string_decode r with
  | Ok s => substring_in (u "opyright") s && (nameID r =? DESCRIPTION)
  | Raise _ => false
  end.

(** A font with a copyright notice in its description (nameID 10), and one
    with an undecodable family name. *)
Definition copyright_description_font : TTFont :=
  font_with_names [win_english 0 (Some (u "Copyright 2020 Example"));
                   win_english 10 (Some (u "A Copyright notice"))].

Definition undecodable_family_font : TTFont :=
  font_with_names [win_english 10 (Some (u "A Copyright notice"));
                   win_english 1 None;
                   win_english 10 (Some (u "Another"))].

(** The font has the five tables that [monospace] reads. *)
Definition monospace_tables (ttFont : TTFont) (glyf : GlyfTable)
    (hhea : HheaTable) (hmtx : HmtxTable) (os2 : OS2Table) (post : PostTable)
  : Prop :=
  glyf_table ttFont = Some glyf /\ hhea_table ttFont = Some hhea
  /\ hmtx_table ttFont = Some hmtx /\ OS2_table ttFont = Some os2
  /\ post_table ttFont = Some post.

(** The results of [monospace] on a font that has its five tables. *)
Definition bad_advanceWidthMax (width_max advance : Z) : CheckResult :=
  (FAIL, Message "bad-advanceWidthMax"
           [Lit "Value of hhea.advanceWidthMax";
            Lit " should be set to "; FInt width_max;
            Lit " but got "; FInt advance; Lit " instead."]).

Definition bad_post_isFixedPitch (fixed : Z) : CheckResult :=
  (FAIL, Message "bad-post-isFixedPitch"
           [Lit "On non-monospaced fonts,";
            Lit " the post.isFixedPitch value must be set to ";
            FInt IsFixedWidth.NOT_MONOSPACED;
            Lit " (not monospaced), but got "; FInt fixed; Lit " instead."]).

Definition bad_panose : CheckResult :=
  (FAIL, Message "bad-panose"
           [Lit "On non-monospaced fonts,";
            Lit " the OS/2.panose.bProportion value can be set to";
            Lit " any value except 9 (proportion: monospaced)";
            Lit " which is the bad value we got in this font."]).

Definition not_monospaced_good : CheckResult :=
  (PASS, Message "good"
           [Lit "Font is not monospaced and all related metadata look good."]).

Definition mono_bad_post_isFixedPitch (fixed : Z) : CheckResult :=
  (FAIL, Message "mono-bad-post-isFixedPitch"
           [Lit "On monospaced fonts, the value of post.isFixedPitch";
            Lit " must be set to a non-zero value";
            Lit " (meaning 'fixed width monospaced'),";
            Lit " but got "; FInt fixed; Lit " instead."]).

Definition mono_bad_panose (LATIN_TEXT LATIN_HAND_WRITTEN LATIN_SYMBOL : Z)
    (family_type : Z) : CheckResult :=
  (FAIL, Message "mono-bad-panose"
           (Lit "The PANOSE numbers are incorrect for a monospaced font. "
            :: PANOSE_expected LATIN_TEXT LATIN_HAND_WRITTEN LATIN_SYMBOL
                 family_type)).

Definition mono_outliers (unusually_spaced_glyphs : list pystr)
    (num_glyphs : Z) : CheckResult :=
  (WARN, Message "mono-outliers"
           [Lit "Font is monospaced but ";
            FInt (len unusually_spaced_glyphs); Lit " glyphs (";
            FPercent (len unusually_spaced_glyphs) num_glyphs;
            Lit "%) have a different width.";
            Lit " You should check the widths of: ";
            FStrs unusually_spaced_glyphs]).

Definition mono_good : CheckResult :=
  (PASS, Message "mono-good"
           [Lit "Font is monospaced and all related metadata look good."]).

(** A glyph that [monospace] counts as unusually spaced: it is none of
    '.notdef', '.null' and 'NULL', and its advance width is neither 0 nor
    the most common width. *)
Definition unusual_width (hmtx : HmtxTable) (most_common_width : Z)
    (g : pystr) : bool :=
  negb (bool_decide (g ∈ [u ".notdef"; u ".null"; u "NULL"]))
  && match dict_get (metrics hmtx) g with
     | Ok m => negb (fst m =? 0) && negb (fst m =? most_common_width)
     | Raise _ => false
     end.

(** The advance width of every glyph that is looked up is in 'hmtx'. *)
Definition widths_known (hmtx : HmtxTable) (glyph_names : list pystr) : Prop :=
  forall g, g ∈ glyph_names ->
    g ∉ [u ".notdef"; u ".null"; u "NULL"] ->
    exists m, dict_get (metrics hmtx) g = Ok m.

(** A font with the five tables of [monospace], from its glyphs with their
    advance widths. *)
Definition metrics_font (advance_max fixed : Z) (p : Panose)
    (widths : list (pystr * Z)) : TTFont :=
  {| name_table := None; head_table := None;
     glyf_table := Some {| glyphs :=
       map (fun gw => (fst gw, {| isComposite := false;
                                  numberOfContours := 1 |})) widths |};
     hhea_table := Some {| advanceWidthMax := advance_max |};
     hmtx_table := Some {| metrics :=
       map (fun gw => (fst gw, (snd gw, 0))) widths |};
     OS2_table := Some {| panose := p |};
     post_table := Some {| isFixedPitch := fixed |};
     CFF_table := None; CFF2_table := None; bestCmap := None |}.

(** A font whose cmap maps a letter to an empty glyph, then a letter to a
    glyph that the 'glyf' table does not have, then another letter to an
    empty glyph. *)
Definition missing_glyph_font : TTFont :=
  {| name_table := None; head_table := None;
     glyf_table := Some {| glyphs :=
       [(u "a", {| isComposite := false; numberOfContours := 0 |});
        (u "c", {| isComposite := false; numberOfContours := 0 |})] |};
     hhea_table := None; hmtx_table := None; OS2_table := None;
     post_table := None; CFF_table := None; CFF2_table := None;
     bestCmap := Some [(0x61, u "a"); (0x62, u "b"); (0x63, u "c")] |}.

(** A universal profile with one check of the explicit set and one check
    that is not in it. *)
Definition example_universal_checks : list string :=
  ["com.google.fonts/check/whitespace_glyphs";
   "com.google.fonts/check/example_not_listed"]%string.

(** * Properties *)

(** ** Generators and loops *)

Lemma bind_ok {A B} (f : A -> Gen B) (ys : list CheckResult) (a : A) :
  (MkGen ys (Ok a) ≫= f) = MkGen (ys ++ yielded (f a)) (completion (f a)).
Proof. reflexivity. Qed.

Lemma bind_raise {A B} (f : A -> Gen B) (ys : list CheckResult) (e : exn) :
  (MkGen ys (Raise e : outcome A) ≫= f) = MkGen ys (Raise e).
Proof. reflexivity. Qed.

#[local] Set Warnings "-clear-no-such-hyp".

Lemma ret_gen {A} (a : A) : (mret a : Gen A) = MkGen [] (Ok a).
Proof. reflexivity. Qed.

Lemma bind_lift_ok {A B} (f : A -> Gen B) (a : A) : (lift (Ok a) ≫= f) = f a.
Proof. unfold lift. rewrite bind_ok. simpl. by destruct (f a). Qed.


Lemma bind_ret {A B} (f : A -> Gen B) (a : A) : (mret a ≫= f) = f a.
Proof. apply bind_lift_ok. Qed.

Lemma for_nil {A S} (body : A -> S -> Gen S) (s : S) :
  for_ [] body s = MkGen [] (Ok s).
Proof. reflexivity. Qed.

Lemma for_cons {A S} (body : A -> S -> Gen S) (x : A) (xs : list A) (s : S) :
  for_ (x :: xs) body s = body x s ≫= for_ xs body.
Proof. reflexivity. Qed.

(** A loop whose body does not raise yields the results of its rounds in
    order and folds the state. *)
Lemma for_pure {A S} (out : A -> list CheckResult) (upd : A -> S -> S)
    (body : A -> S -> Gen S) (xs : list A) :
  (forall x s, x ∈ xs -> body x s = MkGen (out x) (Ok (upd x s))) ->
  forall s, for_ xs body s
            = MkGen (flat_map out xs) (Ok (fold_left (fun s x => upd x s) xs s)).
Proof.
  induction xs as [|x xs IH]; intros Hbody s; [done|].
  rewrite for_cons, Hbody, bind_ok by left.
  rewrite IH by (intros; apply Hbody; by right). reflexivity.
Qed.

Lemma for_o_pure {A S} (upd : A -> S -> S) (body : A -> S -> outcome S)
    (xs : list A) :
  (forall x s, x ∈ xs -> body x s = Ok (upd x s)) ->
  forall s, for_o xs body s = Ok (fold_left (fun s x => upd x s) xs s).
Proof.
  induction xs as [|x xs IH]; intros Hbody s; [done|].
  simpl. rewrite Hbody by left. apply IH. intros; apply Hbody; by right.
Qed.

(** ** consistent_upm *)

Lemma add_upm_eq (ttFont : TTFont) (s : gset Z) :
  add_upm ttFont s
  = match head_table ttFont with
    | Some h => MkGen [] (Ok (s ∪ {[unitsPerEm h]}))
    | None => MkGen [] (Raise KeyError)
    end.
Proof. unfold add_upm. by destruct (head_table ttFont). Qed.

Lemma add_upm_loop_ok (ttFonts : list TTFont) (s : gset Z) :
  Forall (fun f => is_Some (head_table f)) ttFonts ->
  for_ ttFonts add_upm s = MkGen [] (Ok (s ∪ list_to_set (omap upm_of ttFonts))).
Proof.
  revert s. induction ttFonts as [|f fs IH]; intros s H.
  - rewrite for_nil. f_equal. f_equal. set_solver.
  - apply Forall_cons in H as [[h Hh] Hfs].
    rewrite for_cons, add_upm_eq, Hh, bind_ok, IH by done.
    assert (omap upm_of (f :: fs) = unitsPerEm h :: omap upm_of fs) as ->
      by (simpl; unfold upm_of at 1; by rewrite Hh).
    simpl. f_equal. f_equal. set_solver.
Qed.

Lemma add_upm_loop_raise (ttFonts : list TTFont) (s : gset Z) :
  Exists (fun f => head_table f = None) ttFonts ->
  for_ ttFonts add_upm s = MkGen [] (Raise KeyError).
Proof.
  revert s. induction ttFonts as [|f fs IH]; intros s H.
  - by apply Exists_nil in H.
  - rewrite for_cons, add_upm_eq.
    destruct (head_table f) as [h|] eqn:Hf; [|reflexivity].
    apply Exists_cons in H as [H|H]; [congruence|].
    by rewrite bind_ok, IH.
Qed.

(** C9: on the empty list of fonts the check yields exactly one result, a
    PASS: the set of collected unitsPerEm values is empty, which is not
    more than one distinct value. *)
Lemma consistent_upm_empty :
  com_adobe_fonts_check_family_consistent_upm []
  = MkGen [(PASS, Plain "Fonts have consistent units per em.")] (Ok tt).
Proof. reflexivity. Qed.

Lemma size_le_1_all_eq (l : list Z) (v : Z) :
  Forall (fun x => x = v) l -> (size (list_to_set l : gset Z) <= 1)%nat.
Proof.
  intros H. destruct l as [|x l]; [by rewrite list_to_set_nil, size_empty; lia|].
  assert (list_to_set (x :: l) = ({[v]} : gset Z)) as ->.
  { apply set_eq. intros y. rewrite elem_of_list_to_set, elem_of_singleton.
    split.
    - intros Hy. by apply (proj1 (Forall_forall _ _) H).
    - intros ->. inversion H; subst. left. }
  by rewrite size_singleton.
Qed.

Lemma size_gt_1_two (X : gset Z) (a b : Z) :
  a ∈ X -> b ∈ X -> a ≠ b -> (1 < size X)%nat.
Proof.
  intros Ha Hb Hab.
  assert (size ({[a]} ∪ {[b]} : gset Z) <= size X)%nat as Hle
    by (apply subseteq_size; set_solver).
  rewrite size_union in Hle by set_solver.
  rewrite !size_singleton in Hle. lia.
Qed.

(** C4: the check yields PASS exactly when all fonts of the list share a
    single head.unitsPerEm value, and then PASS is its only result; when
    every font has a 'head' table and two of the values differ, it yields a
    single FAIL with the code inconsistent-upem and no PASS. *)
Theorem consistent_upm_pass_iff (ttFonts : list TTFont) :
  let run := com_adobe_fonts_check_family_consistent_upm ttFonts in
  ((exists v, forall f, f ∈ ttFonts -> upm_of f = Some v) ->
     run = MkGen [(PASS, Plain "Fonts have consistent units per em.")] (Ok tt))
  /\ ((exists m, (PASS, m) ∈ yielded run) ->
      exists v, forall f, f ∈ ttFonts -> upm_of f = Some v)
  /\ ((forall f, f ∈ ttFonts -> is_Some (head_table f)) ->
      (exists f g, f ∈ ttFonts /\ g ∈ ttFonts /\ upm_of f <> upm_of g) ->
      exists upms,
        run = MkGen [(FAIL, Message "inconsistent-upem"
                        [Lit "Fonts have different units per em: ";
                         FInts upms; Lit "."])] (Ok tt)).
Proof.
  intros run. subst run. unfold com_adobe_fonts_check_family_consistent_upm.
  split; [|split].
  - intros [v Hv].
    rewrite add_upm_loop_ok.
    2:{ apply Forall_forall. intros f Hf. specialize (Hv f Hf).
        unfold upm_of in Hv. destruct (head_table f); [eauto|done]. }
    rewrite bind_ok. simpl.
    destruct (decide _) as [Hlt|]; [|reflexivity].
    exfalso. rewrite (left_id_L ∅ (∪)) in Hlt.
    pose proof (size_le_1_all_eq (omap upm_of ttFonts) v) as Hle.
    assert (Forall (fun x => x = v) (omap upm_of ttFonts)) as Hall.
    { apply Forall_forall. intros x Hx. apply list_elem_of_omap in Hx as (f & Hf & Hfx).
      rewrite (Hv f Hf) in Hfx. congruence. }
    specialize (Hle Hall). lia.
  - intros [m Hm].
    destruct (decide (Forall (fun f => is_Some (head_table f)) ttFonts)) as [Hall|Hnot].
    + rewrite add_upm_loop_ok in Hm by done. rewrite bind_ok in Hm. simpl in Hm.
      rewrite (left_id_L ∅ (∪)) in Hm.
      destruct (decide _) as [Hlt|Hle]; simpl in Hm.
      { apply list_elem_of_singleton in Hm. discriminate. }
      destruct ttFonts as [|f0 fs]; [exists 0; intros f Hf; by apply elem_of_nil in Hf|].
      assert (forall f, f ∈ f0 :: fs -> exists x, upm_of f = Some x /\ x ∈ (list_to_set (omap upm_of (f0 :: fs)) : gset Z)) as Hin.
      { intros f Hf. pose proof (proj1 (Forall_forall _ _) Hall f Hf) as [h Hh].
        exists (unitsPerEm h). split; [unfold upm_of; by rewrite Hh|].
        apply elem_of_list_to_set, list_elem_of_omap. exists f. split; [done|].
        unfold upm_of. by rewrite Hh. }
      destruct (Hin f0) as (v & Hv & Hvin); [left|].
      exists v. intros f Hf. destruct (Hin f Hf) as (x & Hx & Hxin).
      rewrite Hx. f_equal.
      destruct (decide (x = v)) as [|Hne]; [done|].
      exfalso. apply Hle. by apply (size_gt_1_two _ x v).
    + apply not_Forall_Exists in Hnot; [|intros f; apply _].
      rewrite add_upm_loop_raise in Hm.
      * rewrite bind_raise in Hm. by apply elem_of_nil in Hm.
      * eapply Exists_impl; [exact Hnot|]. intros f Hf. simpl in Hf.
        destruct (head_table f); [exfalso; apply Hf; eauto|done].
  - intros Hall (f & g & Hf & Hg & Hne).
    rewrite add_upm_loop_ok by (by apply Forall_forall).
    rewrite bind_ok. simpl. rewrite (left_id_L ∅ (∪)).
    destruct (decide _) as [Hlt|Hle]; [eexists; reflexivity|].
    exfalso. apply Hle.
    destruct (Hall f Hf) as [hf Hhf], (Hall g Hg) as [hg Hhg].
    apply (size_gt_1_two _ (unitsPerEm hf) (unitsPerEm hg)).
    + apply elem_of_list_to_set, list_elem_of_omap. exists f. split; [done|].
      unfold upm_of. by rewrite Hhf.
    + apply elem_of_list_to_set, list_elem_of_omap. exists g. split; [done|].
      unfold upm_of. by rewrite Hhg.
    + intros Heq. apply Hne. unfold upm_of. rewrite Hhf, Hhg. simpl. by rewrite Heq.
Qed.

Lemma consistent_upm_pass_iff_witness :
  (exists upms,
     com_adobe_fonts_check_family_consistent_upm
       [font_with_upm 1000; font_with_upm 2048; font_with_upm 1000]
     = MkGen [(FAIL, Message "inconsistent-upem"
                 [Lit "Fonts have different units per em: ";
                  FInts upms; Lit "."])] (Ok tt))
  /\ com_adobe_fonts_check_family_consistent_upm
       [font_with_upm 1000; font_with_upm 1000]
     = MkGen [(PASS, Plain "Fonts have consistent units per em.")] (Ok tt).
Proof.
  split.
  - apply (proj2 (proj2 (consistent_upm_pass_iff
             [font_with_upm 1000; font_with_upm 2048; font_with_upm 1000]))).
    + intros f Hf. repeat (apply elem_of_cons in Hf as [->|Hf]; [simpl; eauto|]).
      by apply elem_of_nil in Hf.
    + exists (font_with_upm 1000), (font_with_upm 2048).
      split; [left|]. split; [right; left|]. vm_compute. discriminate.
  - apply (proj1 (consistent_upm_pass_iff [font_with_upm 1000; font_with_upm 1000])).
    exists 1000. intros f Hf.
    repeat (apply elem_of_cons in Hf as [->|Hf]; [reflexivity|]).
    by apply elem_of_nil in Hf.
Defined.

(** ** Strings *)

Lemma lstrip_nil_iff (s : pystr) : lstrip s = [] <-> blank s.
Proof.
  unfold blank. induction s as [|c s IH]; simpl.
  - split; [constructor|done].
  - destruct (isspace c) eqn:Hc.
    + rewrite IH. split; [by constructor|by inversion 1].
    + split; [done|]. inversion 1; congruence.
Qed.

Lemma lstrip_split (s : pystr) : exists ws, blank ws /\ s = ws ++ lstrip s.
Proof.
  induction s as [|c s (ws & Hws & IH)]; simpl.
  - exists []. split; [constructor|done].
  - destruct (isspace c) eqn:Hc.
    + exists (c :: ws). split; [by constructor|]. simpl. by f_equal.
    + exists []. split; [constructor|done].
Qed.

Lemma blank_rev (s : pystr) : blank s -> blank (rev s).
Proof. apply Forall_rev. Qed.

(** [s.strip()] is empty exactly when [s] is white space only. *)
Lemma strip_nil_iff (s : pystr) : strip s = [] <-> blank s.
Proof.
  unfold strip, rstrip. rewrite lstrip_nil_iff. split.
  - intros H. destruct (lstrip_split (rev s)) as (ws & Hws & Hs).
    set (L := lstrip (rev s)) in *.
    rewrite <- (rev_involutive s), Hs, rev_app_distr.
    apply Forall_app. split; [exact H|by apply blank_rev].
  - intros H. apply blank_rev in H. apply lstrip_nil_iff in H. rewrite H.
    constructor.
Qed.

(** ** nameid_1_win_english *)

Lemma getName_None (t : NameTable) (nid plat enc lang : Z) :
  getName t nid plat enc lang = None
  <-> forall r, r ∈ names t ->
        ~ (nameID r = nid /\ platformID r = plat /\ platEncID r = enc
           /\ langID r = lang).
Proof.
  unfold getName. split.
  - intros H r Hr (H1 & H2 & H3 & H4).
    apply list_elem_of_In in Hr.
    pose proof (find_none _ _ H r Hr) as Hf. simpl in Hf.
    rewrite H1, H2, H3, H4, !Z.eqb_refl in Hf. discriminate.
  - intros H. destruct (find _ _) as [r|] eqn:Hf; [|done].
    apply find_some in Hf as [Hr Hf]. apply list_elem_of_In in Hr.
    exfalso. apply (H r Hr). lazy beta in Hf.
    rewrite !andb_true_iff, !Z.eqb_eq in Hf. tauto.
Qed.

Lemma getName_Some (t : NameTable) (nid plat enc lang : Z) (r : NameRecord) :
  getName t nid plat enc lang = Some r ->
  r ∈ names t /\ nameID r = nid /\ platformID r = plat /\ platEncID r = enc
  /\ langID r = lang.
Proof.
  unfold getName. intros Hf. apply find_some in Hf as [Hr Hf].
  apply list_elem_of_In in Hr. lazy beta in Hf.
  rewrite !andb_true_iff, !Z.eqb_eq in Hf. tauto.
Qed.

(** C1 (as amended): the check returns exactly one result and never raises:
    FAIL name-table-not-found without a 'name' table; FAIL
    nameid-1-not-found when no record has nameID 1, platformID 3,
    encodingID 1 and languageID 0x409; for the first such record, ERROR
    nameid-1-decoding-error when it cannot be decoded, FAIL nameid-1-empty
    when the decoded string is empty or white space only, and PASS
    otherwise.  The five results are distinct. *)
Theorem nameid_1_win_english_outcomes (ttFont : TTFont) :
  let result :=
    com_adobe_fonts_check_nameid_1_win_english ttFont (has_name_table ttFont) in
  (name_table ttFont = None -> result = Ok name_table_not_found)
  /\ (forall t, name_table ttFont = Some t ->
        (forall r, r ∈ names t -> ~ is_win_english_nameid_1 r) ->
        result = Ok nameid_1_not_found)
  /\ (forall t r, name_table ttFont = Some t ->
        getName t 1 3 1 0x409 = Some r ->
        is_win_english_nameid_1 r
        /\ (decoded r = None -> result = Ok nameid_1_decoding_error)
        /\ (forall s, decoded r = Some s -> blank s ->
              result = Ok nameid_1_empty)
        /\ (forall s, decoded r = Some s -> ~ blank s ->
              result = Ok nameid_1_good))
  /\ (exists r, result = Ok r
        /\ r ∈ [name_table_not_found; nameid_1_not_found;
                nameid_1_decoding_error; nameid_1_empty; nameid_1_good])
  /\ NoDup [name_table_not_found; nameid_1_not_found;
            nameid_1_decoding_error; nameid_1_empty; nameid_1_good].
Proof.
  intros result. subst result.
  unfold com_adobe_fonts_check_nameid_1_win_english, has_name_table.
  split; [|split; [|split; [|split]]].
  - intros ->. reflexivity.
  - intros t -> Hno. simpl.
    assert (getName t 1 3 1 0x409 = None) as ->; [|reflexivity].
    apply getName_None. intros r Hr. apply Hno, Hr.
  - intros t r -> Hr. simpl. rewrite Hr. unfold toUnicode.
    split; [apply getName_Some in Hr; unfold is_win_english_nameid_1; tauto|].
    split; [|split].
    + intros ->. reflexivity.
    + intros s -> Hs. apply strip_nil_iff in Hs.
      by rewrite bool_decide_eq_true_2.
    + intros s -> Hs. rewrite bool_decide_eq_false_2; [done|].
      by rewrite strip_nil_iff.
  - destruct (name_table ttFont) as [t|]; simpl.
    2:{ eexists. split; [reflexivity|]. set_solver. }
    destruct (getName t 1 3 1 0x409) as [r|].
    2:{ eexists. split; [reflexivity|]. set_solver. }
    unfold toUnicode. destruct (decoded r) as [s|].
    2:{ eexists. split; [reflexivity|]. set_solver. }
    destruct (bool_decide _); eexists; (split; [reflexivity|]); set_solver.
  - repeat (apply NoDup_cons; split; [set_solver|]). apply NoDup_nil_2.
Qed.

Lemma nameid_1_win_english_outcomes_witness :
  com_adobe_fonts_check_nameid_1_win_english
    (font_with_names [win_english 1 (Some (u "Example Sans"))]) true
  = Ok nameid_1_good.
Proof.
  destruct (nameid_1_win_english_outcomes
              (font_with_names [win_english 1 (Some (u "Example Sans"))]))
    as (_ & _ & H & _).
  destruct (H {| names := [win_english 1 (Some (u "Example Sans"))] |}
              (win_english 1 (Some (u "Example Sans"))) eq_refl eq_refl)
    as (_ & _ & _ & Hgood).
  apply (Hgood (u "Example Sans") eq_refl). clear.
  unfold blank. intros H. apply Forall_cons in H as [H _]. vm_compute in H.
  discriminate.
Defined.

(** C1, as the specification words it, fails on a record of white space:
    the decoded string is not empty, yet the result is FAIL nameid-1-empty
    and not PASS. *)
Lemma nameid_1_win_english_spec_counterexample :
  let ttFont := font_with_names [win_english 1 (Some (u "  "))] in
  nameid_1_win_english_spec ttFont = nameid_1_good
  /\ com_adobe_fonts_check_nameid_1_win_english ttFont (has_name_table ttFont)
     = Ok nameid_1_empty
  /\ com_adobe_fonts_check_nameid_1_win_english ttFont (has_name_table ttFont)
     <> Ok (nameid_1_win_english_spec ttFont).
Proof. split; [reflexivity|]. split; [reflexivity|]. vm_compute. discriminate. Qed.

(** ** match_familyname_fullfont *)

Lemma startswith_prefix (s p : pystr) : startswith s p = true <-> p `prefix_of` s.
Proof.
  revert s. induction p as [|c p IH]; intros s; destruct s as [|d s]; simpl.
  - split; [intros _; apply prefix_nil|done].
  - split; [intros _; apply prefix_nil|done].
  - split; [done|]. intros [k Hk]. discriminate.
  - rewrite andb_true_iff, IH, N.eqb_eq. split.
    + intros [-> Hp]. by apply prefix_cons.
    + intros [k Hk]. injection Hk as -> ->. split; [done|]. by exists k.
Qed.

Lemma for_summary {A} (body : A -> bool * bool -> Gen (bool * bool))
    (sm : A -> summary) (xs : list A) :
  (forall x, has_summary (body x) (sm x)) ->
  has_summary (for_ xs body) (sm_concat (map sm xs)).
Proof.
  intros Hbody. induction xs as [|x xs IH]; intros [nc ps].
  - rewrite for_nil. simpl. by rewrite orb_false_r, andb_true_r.
  - rewrite for_cons, (Hbody x), bind_ok, IH. simpl.
    by rewrite orb_assoc, andb_assoc.
Qed.

Lemma compare_names_summary (t : NameTable) (p e l fid : Z) :
  is_Some (getName t NameID.FULL_FONT_NAME p e l) ->
  has_summary (compare_names t p e l fid) (comparison t p e l fid).
Proof.
  intros [rf Hrf] [nc ps]. unfold compare_names, comparison. rewrite Hrf.
  destruct (getName t fid p e l) as [rm|]; simpl.
  2:{ by rewrite ret_gen, orb_false_r, andb_true_r. }
  unfold toUnicode. destruct (decoded rm) as [fam|]; simpl.
  2:{ by rewrite orb_true_r, andb_false_r. }
  destruct (decoded rf) as [full|]; simpl.
  2:{ by rewrite orb_true_r, andb_false_r. }
  destruct (startswith full fam); simpl.
  - by rewrite ret_gen, orb_true_r, andb_true_r.
  - by rewrite orb_true_r, andb_false_r.
Qed.

Lemma sm_concat_nothing {A} (sm : A -> summary) (xs : list A) :
  (forall x, sm x = ([], (false, true))) ->
  sm_concat (map sm xs) = ([], (false, true)).
Proof.
  intros H. induction xs as [|x xs IH]; [done|].
  unfold sm_concat in *. simpl. rewrite (H x). simpl.
  injection IH as -> -> ->. done.
Qed.

Lemma compare_at_summary (t : NameTable) (p e l : Z) :
  has_summary (compare_at t p e l)
              (sm_concat (map (comparison t p e l) family_name_ids)).
Proof.
  unfold compare_at.
  destruct (getName t NameID.FULL_FONT_NAME p e l) as [rf|] eqn:Hrf.
  - apply for_summary. intros fid. apply compare_names_summary.
    rewrite Hrf. eauto.
  - rewrite sm_concat_nothing.
    + intros [nc ps]. simpl. by rewrite ret_gen, orb_false_r, andb_true_r.
    + intros fid. unfold comparison. by rewrite Hrf.
Qed.

(** The run of the check in closed form. *)
Lemma match_familyname_fullfont_run (ttFont : TTFont) (t : NameTable) :
  name_table ttFont = Some t ->
  com_google_fonts_check_name_match_familyname_fullfont ttFont
  = MkGen (fst (comparisons t) ++ match_familyname_tail (comparisons t)) (Ok tt).
Proof.
  intros Ht. unfold com_google_fonts_check_name_match_familyname_fullfont.
  rewrite Ht. simpl getitem. rewrite bind_lift_ok.
  assert (has_summary
    (for_ (sorted (list_to_set (map platformID (names t))))
       (fun plat_id => for_ (sorted (list_to_set (map platEncID (names t))))
          (fun enc_id => for_ (sorted (list_to_set (map langID (names t))))
             (fun lang_id => compare_at t plat_id enc_id lang_id))))
    (comparisons t)) as Hs.
  { apply (for_summary _ (fun p => sm_concat (map (fun e => sm_concat (map
        (fun l => sm_concat (map (comparison t p e l) family_name_ids))
        (sorted (list_to_set (map langID (names t))))))
        (sorted (list_to_set (map platEncID (names t))))))).
    intros p. apply (for_summary _ (fun e => sm_concat (map (fun l =>
        sm_concat (map (comparison t p e l) family_name_ids))
        (sorted (list_to_set (map langID (names t))))))).
    intros e. apply (for_summary _ (fun l =>
        sm_concat (map (comparison t p e l) family_name_ids))).
    intros l. apply compare_at_summary. }
  rewrite (Hs (false, true)), bind_ok. clear Hs.
  unfold match_familyname_tail.
  destruct (comparisons t) as [out [made ok]].
  destruct made, ok; simpl; by rewrite ?app_nil_r.
Qed.

Lemma sm_concat_map_out {A} (F : A -> summary) (xs : list A) (r : CheckResult) :
  r ∈ fst (sm_concat (map F xs)) <-> exists x, x ∈ xs /\ r ∈ fst (F x).
Proof.
  unfold sm_concat. simpl. induction xs as [|x xs IH]; simpl.
  - split; [by intros ?%elem_of_nil|by intros (x & ?%elem_of_nil & _)].
  - rewrite elem_of_app, IH. split.
    + intros [H|(y & Hy & H)]; [exists x; split; [left|done]|].
      exists y. split; [by right|done].
    + intros (y & [->|Hy]%elem_of_cons & H); [by left|]. right. eauto.
Qed.

Lemma sm_concat_map_made {A} (F : A -> summary) (xs : list A) :
  fst (snd (sm_concat (map F xs))) = true
  <-> exists x, x ∈ xs /\ fst (snd (F x)) = true.
Proof.
  unfold sm_concat. simpl. induction xs as [|x xs IH]; simpl.
  - split; [done|by intros (x & ?%elem_of_nil & _)].
  - rewrite orb_true_iff, IH. split.
    + intros [H|(y & Hy & H)]; [exists x; split; [left|done]|].
      exists y. split; [by right|done].
    + intros (y & [->|Hy]%elem_of_cons & H); [by left|]. right. eauto.
Qed.

Lemma sm_concat_map_ok {A} (F : A -> summary) (xs : list A) :
  snd (snd (sm_concat (map F xs))) = true
  <-> forall x, x ∈ xs -> snd (snd (F x)) = true.
Proof.
  unfold sm_concat. simpl. induction xs as [|x xs IH]; simpl.
  - split; [by intros _ x ?%elem_of_nil|done].
  - rewrite andb_true_iff, IH. split.
    + intros [H Hxs] y [->|Hy]%elem_of_cons; [done|by apply Hxs].
    + intros H. split; [apply H; left|]. intros y Hy. apply H. by right.
Qed.

Lemma elem_of_sorted (s : gset Z) (x : Z) : x ∈ sorted s <-> x ∈ s.
Proof. unfold sorted. by rewrite merge_sort_Permutation, elem_of_elements. Qed.

Lemma elem_of_sorted_ids (f : NameRecord -> Z) (l : list NameRecord) (x : Z) :
  x ∈ sorted (list_to_set (map f l)) <-> exists r, r ∈ l /\ f r = x.
Proof.
  rewrite elem_of_sorted, elem_of_list_to_set.
  change (map f l) with (f <$> l). rewrite list_elem_of_fmap. naive_solver.
Qed.

(** The combinations of ids the loops go through. *)
Lemma getName_in_loops (t : NameTable) (nid p e l : Z) :
  is_Some (getName t nid p e l) ->
  p ∈ sorted (list_to_set (map platformID (names t)))
  /\ e ∈ sorted (list_to_set (map platEncID (names t)))
  /\ l ∈ sorted (list_to_set (map langID (names t))).
Proof.
  intros [r (Hr & _ & Hp & He & Hl)%getName_Some].
  rewrite !elem_of_sorted_ids. eauto 10.
Qed.

Lemma comparison_off (t : NameTable) (p e l fid : Z) :
  getName t NameID.FULL_FONT_NAME p e l = None ->
  comparison t p e l fid = ([], (false, true)).
Proof. intros H. unfold comparison. by rewrite H. Qed.

Lemma comparison_in_loops (t : NameTable) (p e l fid : Z) :
  comparison t p e l fid <> ([], (false, true)) ->
  p ∈ sorted (list_to_set (map platformID (names t)))
  /\ e ∈ sorted (list_to_set (map platEncID (names t)))
  /\ l ∈ sorted (list_to_set (map langID (names t))).
Proof.
  intros H. apply (getName_in_loops t NameID.FULL_FONT_NAME).
  destruct (getName t NameID.FULL_FONT_NAME p e l) eqn:Hf; [eauto|].
  by apply (comparison_off _ _ _ _ fid) in Hf.
Qed.

Lemma comparisons_out (t : NameTable) (r : CheckResult) :
  r ∈ fst (comparisons t)
  <-> exists p e l fid, fid ∈ family_name_ids /\ r ∈ fst (comparison t p e l fid).
Proof.
  unfold comparisons. split.
  - intros (p & _ & (e & _ & (l & _ & (fid & Hfid & H)%sm_concat_map_out)
        %sm_concat_map_out)%sm_concat_map_out)%sm_concat_map_out.
    eauto 10.
  - intros (p & e & l & fid & Hfid & H).
    destruct (comparison_in_loops t p e l fid) as (Hp & He & Hl).
    { intros Heq. rewrite Heq in H. by apply elem_of_nil in H. }
    apply sm_concat_map_out. exists p. split; [done|].
    apply sm_concat_map_out. exists e. split; [done|].
    apply sm_concat_map_out. exists l. split; [done|].
    apply sm_concat_map_out. eauto.
Qed.

Lemma comparisons_made (t : NameTable) :
  fst (snd (comparisons t)) = true
  <-> exists p e l fid, fid ∈ family_name_ids
                        /\ fst (snd (comparison t p e l fid)) = true.
Proof.
  unfold comparisons. split.
  - intros (p & _ & (e & _ & (l & _ & (fid & Hfid & H)%sm_concat_map_made)
        %sm_concat_map_made)%sm_concat_map_made)%sm_concat_map_made.
    eauto 10.
  - intros (p & e & l & fid & Hfid & H).
    destruct (comparison_in_loops t p e l fid) as (Hp & He & Hl).
    { intros Heq. by rewrite Heq in H. }
    apply sm_concat_map_made. exists p. split; [done|].
    apply sm_concat_map_made. exists e. split; [done|].
    apply sm_concat_map_made. exists l. split; [done|].
    apply sm_concat_map_made. eauto.
Qed.

Lemma comparisons_ok (t : NameTable) :
  snd (snd (comparisons t)) = true
  <-> forall p e l fid, fid ∈ family_name_ids ->
                        snd (snd (comparison t p e l fid)) = true.
Proof.
  unfold comparisons. split.
  - intros H p e l fid Hfid.
    destruct (getName t NameID.FULL_FONT_NAME p e l) as [rf|] eqn:Hf.
    2:{ by rewrite comparison_off. }
    destruct (getName_in_loops t NameID.FULL_FONT_NAME p e l) as (Hp & He & Hl);
      [rewrite Hf; eauto|].
    pose proof (proj1 (sm_concat_map_ok _ _) H p Hp) as H1.
    pose proof (proj1 (sm_concat_map_ok _ _) H1 e He) as H2.
    pose proof (proj1 (sm_concat_map_ok _ _) H2 l Hl) as H3.
    exact (proj1 (sm_concat_map_ok _ _) H3 fid Hfid).
  - intros H.
    apply sm_concat_map_ok. intros p _.
    apply sm_concat_map_ok. intros e _.
    apply sm_concat_map_ok. intros l _.
    apply sm_concat_map_ok. intros fid Hfid. by apply H.
Qed.

Lemma match_familyname_fullfont_yielded (ttFont : TTFont) (t : NameTable) :
  name_table ttFont = Some t ->
  yielded (com_google_fonts_check_name_match_familyname_fullfont ttFont)
  = fst (comparisons t) ++ match_familyname_tail (comparisons t).
Proof. intros Ht. by rewrite (match_familyname_fullfont_run ttFont t Ht). Qed.

Lemma comparison_FAIL (t : NameTable) (p e l fid : Z) (r : CheckResult) :
  r ∈ fst (comparison t p e l fid) -> fst r = FAIL.
Proof.
  unfold comparison. intros H.
  repeat case_match; simpl in H;
    try (by apply elem_of_nil in H);
    by apply list_elem_of_singleton in H as ->.
Qed.

Lemma comparisons_FAIL (t : NameTable) (r : CheckResult) :
  r ∈ fst (comparisons t) -> fst r = FAIL.
Proof.
  intros (p & e & l & fid & _ & H)%comparisons_out. by eapply comparison_FAIL.
Qed.

Lemma comparison_made_iff (t : NameTable) (p e l fid : Z) :
  fst (snd (comparison t p e l fid)) = true
  <-> is_Some (getName t NameID.FULL_FONT_NAME p e l)
      /\ is_Some (getName t fid p e l).
Proof.
  unfold comparison.
  destruct (getName t NameID.FULL_FONT_NAME p e l) as [rf|].
  2:{ split; [done|]. by intros [[? ?] _]. }
  destruct (getName t fid p e l) as [rm|];
    [|split; [done|by intros [_ [? ?]]]].
  split; [eauto|intros _]. by repeat case_match.
Qed.

Lemma comparison_ok_iff (t : NameTable) (p e l fid : Z) :
  snd (snd (comparison t p e l fid)) = true
  <-> forall rf rm, getName t NameID.FULL_FONT_NAME p e l = Some rf ->
        getName t fid p e l = Some rm ->
        exists full fam, decoded rf = Some full /\ decoded rm = Some fam
                         /\ fam `prefix_of` full.
Proof.
  unfold comparison.
  destruct (getName t NameID.FULL_FONT_NAME p e l) as [rf|]; [|by split].
  destruct (getName t fid p e l) as [rm|]; [|by split].
  destruct (decoded rm) as [fam|] eqn:Hrm.
  2:{ split; [done|]. intros H.
      destruct (H rf rm eq_refl eq_refl) as (? & ? & _ & ? & _). congruence. }
  destruct (decoded rf) as [full|] eqn:Hrf.
  2:{ split; [done|]. intros H.
      destruct (H rf rm eq_refl eq_refl) as (? & ? & ? & _). congruence. }
  destruct (startswith full fam) eqn:Hs; simpl.
  - split; [|done]. intros _ ? ? [= <-] [= <-]. exists full, fam.
    by rewrite <- startswith_prefix.
  - split; [done|]. intros H.
    destruct (H rf rm eq_refl eq_refl) as (? & ? & ? & ? & Hp).
    apply startswith_prefix in Hp. congruence.
Qed.

(** C6 (as amended): on a font with a 'name' table the check runs to its
    end; for every platform, encoding and language at which a Full Name
    record and a family name record (nameID 1, 16 or 21) exist and decode,
    it yields FAIL mismatch-font-names for them exactly when the Full Name
    does not start with the family name; and it yields PASS exactly when at
    least one such pair of records exists and, for every such pair, both
    records decode and the Full Name starts with the family name.  Full
    Name "ExampleSans Bold" with Family Name "ExampleSans" gives PASS, and
    "Bold ExampleSans" gives FAIL. *)
Theorem match_familyname_fullfont_verdicts :
  (forall (ttFont : TTFont) (t : NameTable),
     name_table ttFont = Some t ->
     let run := com_google_fonts_check_name_match_familyname_fullfont ttFont in
     completion run = Ok tt
     /\ (forall p e l fid rf rm full fam,
           fid ∈ family_name_ids ->
           getName t NameID.FULL_FONT_NAME p e l = Some rf ->
           getName t fid p e l = Some rm ->
           decoded rf = Some full -> decoded rm = Some fam ->
           (mismatch_font_names full fam p e l fid ∈ yielded run
            <-> ~ fam `prefix_of` full))
     /\ ((exists m, (PASS, m) ∈ yielded run)
         <-> (exists p e l fid, fid ∈ family_name_ids
                /\ is_Some (getName t NameID.FULL_FONT_NAME p e l)
                /\ is_Some (getName t fid p e l))
             /\ (forall p e l fid rf rm,
                   fid ∈ family_name_ids ->
                   getName t NameID.FULL_FONT_NAME p e l = Some rf ->
                   getName t fid p e l = Some rm ->
                   exists full fam, decoded rf = Some full
                                    /\ decoded rm = Some fam
                                    /\ fam `prefix_of` full)))
  /\ com_google_fonts_check_name_match_familyname_fullfont example_sans_bold
     = MkGen [(PASS, Plain "Full font name begins with the font family name.")]
             (Ok tt)
  /\ com_google_fonts_check_name_match_familyname_fullfont bold_example_sans
     = MkGen [mismatch_font_names (u "Bold ExampleSans") (u "ExampleSans")
                3 1 0x409 1] (Ok tt).
Proof.
  split; [|split; vm_compute; reflexivity].
  intros ttFont t Ht run. subst run.
  rewrite (match_familyname_fullfont_yielded ttFont t Ht).
  split; [by rewrite (match_familyname_fullfont_run ttFont t Ht)|]. split.
  - intros p e l fid rf rm full fam Hfid Hrf Hrm Hfull Hfam.
    rewrite <- startswith_prefix. rewrite elem_of_app, comparisons_out. split.
    + intros [(p' & e' & l' & fid' & _ & H)|H].
      * unfold comparison in H. repeat case_match; simpl in H;
          try (by apply elem_of_nil in H);
          apply list_elem_of_singleton in H;
          try (by (unfold mismatch_font_names, cannot_decode in H; simplify_eq)).
        unfold mismatch_font_names in H. simplify_eq. congruence.
      * unfold match_familyname_tail in H.
        repeat case_match; simpl in H; try (by apply elem_of_nil in H);
          by apply list_elem_of_singleton in H.
    + intros Hs. left. exists p, e, l, fid. split; [done|].
      unfold comparison. rewrite Hrf, Hrm, Hfam, Hfull.
      destruct (startswith full fam); [done|]. simpl. left.
  - split.
    + intros [m [H|H]%elem_of_app]; [by apply comparisons_FAIL in H|].
      unfold match_familyname_tail in H.
      destruct (fst (snd (comparisons t))) eqn:Hmade,
               (snd (snd (comparisons t))) eqn:Hok; simpl in H;
        try (by apply list_elem_of_singleton in H);
        try (by apply elem_of_nil in H).
      split.
      * apply comparisons_made in Hmade as (p & e & l & fid & Hfid & Hm).
        apply comparison_made_iff in Hm. eauto 10.
      * intros p e l fid rf rm Hfid Hrf Hrm.
        pose proof (proj1 (comparisons_ok t) Hok p e l fid Hfid) as H1.
        by apply (proj1 (comparison_ok_iff _ _ _ _ _) H1).
    + intros [(p & e & l & fid & Hfid & Hm) Hall].
      eexists. apply elem_of_app. right. unfold match_familyname_tail.
      assert (fst (snd (comparisons t)) = true) as ->.
      { apply comparisons_made. exists p, e, l, fid. split; [done|].
        by apply comparison_made_iff. }
      assert (snd (snd (comparisons t)) = true) as ->.
      { apply comparisons_ok. intros p' e' l' fid' Hfid'.
        apply comparison_ok_iff. intros rf rm. by apply Hall. }
      simpl. left.
Qed.

Lemma match_familyname_fullfont_verdicts_witness :
  mismatch_font_names (u "Bold ExampleSans") (u "ExampleSans") 3 1 0x409 1
  ∈ yielded (com_google_fonts_check_name_match_familyname_fullfont
               bold_example_sans).
Proof.
  destruct match_familyname_fullfont_verdicts as [H _].
  destruct (H bold_example_sans
              {| names := [win_english 4 (Some (u "Bold ExampleSans"));
                           win_english 1 (Some (u "ExampleSans"))] |} eq_refl)
    as (_ & Hm & _).
  apply (Hm 3 1 0x409 1 (win_english 4 (Some (u "Bold ExampleSans")))
            (win_english 1 (Some (u "ExampleSans")))).
  - left.
  - reflexivity.
  - reflexivity.
  - reflexivity.
  - reflexivity.
  - rewrite <- startswith_prefix. vm_compute. discriminate.
Defined.

(** C6, as the specification words it, fails on a font in which one
    compared record cannot be decoded: every comparison between records
    that exist and decode succeeds, yet no PASS is yielded.  It fails too
    on a 'name' table without records, where no comparison is made. *)
Lemma match_familyname_fullfont_counterexample :
  (exists t, name_table undecodable_german_family = Some t
             /\ every_comparison_succeeds t)
  /\ com_google_fonts_check_name_match_familyname_fullfont undecodable_german_family
     = MkGen [cannot_decode 3 1 0x407 1] (Ok tt)
  /\ ~ (exists m, (PASS, m) ∈ yielded
          (com_google_fonts_check_name_match_familyname_fullfont
             undecodable_german_family))
  /\ every_comparison_succeeds {| names := [] |}
  /\ com_google_fonts_check_name_match_familyname_fullfont (font_with_names [])
     = MkGen [missing_font_names] (Ok tt).
Proof.
  assert (com_google_fonts_check_name_match_familyname_fullfont
            undecodable_german_family
          = MkGen [cannot_decode 3 1 0x407 1] (Ok tt)) as Hrun
    by (vm_compute; reflexivity).
  split; [|split; [exact Hrun|split; [|split]]].
  - eexists. split; [reflexivity|].
    intros p e l fid rf rm full fam Hfid Hrf Hrm Hfull Hfam.
    apply getName_Some in Hrf as (Hrf & Hf1 & Hf2 & Hf3 & Hf4).
    apply getName_Some in Hrm as (Hrm & Hm1 & Hm2 & Hm3 & Hm4).
    unfold family_name_ids in Hfid. simpl in Hrf, Hrm.
    apply startswith_prefix.
    rewrite !elem_of_cons, elem_of_nil in Hrf.
    rewrite !elem_of_cons, elem_of_nil in Hrm.
    rewrite !elem_of_cons, elem_of_nil in Hfid.
    destruct Hrf as [->|[->|[->|[->|[]]]]];
      destruct Hrm as [->|[->|[->|[->|[]]]]];
      simpl in *; simplify_eq; try reflexivity;
      destruct Hfid as [?|[?|[?|[]]]]; simplify_eq.
  - rewrite Hrun. intros [m Hm]. by apply list_elem_of_singleton in Hm.
  - intros p e l fid rf rm full fam _ Hrf. discriminate.
  - vm_compute. reflexivity.
Qed.

(** ** Undecodable records *)

Lemma empty_records_body_eq (r : NameRecord) (failed : bool) :
  empty_records_body r failed
  = match decoded r with
    | None => MkGen [] (Raise UnicodeDecodeError)
    | Some s => if len (strip s) =? 0 then MkGen [empty_record r] (Ok true)
                else MkGen [] (Ok failed)
    end.
Proof.
  unfold empty_records_body, toUnicode. destruct (decoded r) as [s|]; [|done].
  change (lift (s0 ← Ok s; mret (strip s0))) with (lift (Ok (strip s))).
  rewrite bind_lift_ok. by destruct (len (strip s) =? 0).
Qed.

Lemma empty_records_loop_raises (l : list NameRecord) (failed : bool) :
  (exists r, r ∈ l /\ decoded r = None) ->
  completion (for_ l empty_records_body failed) = Raise UnicodeDecodeError.
Proof.
  revert failed. induction l as [|r l IH]; intros failed (r' & Hin & Hr').
  - by apply elem_of_nil in Hin.
  - rewrite for_cons, empty_records_body_eq.
    destruct (decoded r) as [s|] eqn:Hr; [|reflexivity].
    apply elem_of_cons in Hin as [->|Hin]; [congruence|].
    destruct (len (strip s) =? 0); rewrite bind_ok; simpl; apply IH; eauto.
Qed.

(** C2 (as amended): [nameid_1_win_english] catches the failure to decode
    its record and returns ERROR nameid-1-decoding-error;
    [match_familyname_fullfont] catches the failure to decode a record it
    compares and yields FAIL cannot-decode-nameid-N for it, and then no
    PASS; neither of the two ever ends by UnicodeDecodeError, and the
    second yields no status other than FAIL and PASS.  [empty_records] has
    no handler: with an undecodable record in the 'name' table it ends by
    UnicodeDecodeError. *)
Theorem decode_failures_verdicts :
  (forall ttFont b,
     com_adobe_fonts_check_nameid_1_win_english ttFont b
     <> Raise UnicodeDecodeError)
  /\ (forall ttFont t r,
        name_table ttFont = Some t -> getName t 1 3 1 0x409 = Some r ->
        decoded r = None ->
        com_adobe_fonts_check_nameid_1_win_english ttFont (has_name_table ttFont)
        = Ok nameid_1_decoding_error
        /\ fst nameid_1_decoding_error = ERROR)
  /\ (forall ttFont,
        raised (com_google_fonts_check_name_match_familyname_fullfont ttFont)
        <> Some UnicodeDecodeError)
  /\ (forall ttFont r,
        r ∈ yielded (com_google_fonts_check_name_match_familyname_fullfont ttFont) ->
        fst r = FAIL \/ fst r = PASS)
  /\ (forall ttFont t p e l fid rf rm,
        name_table ttFont = Some t -> fid ∈ family_name_ids ->
        getName t NameID.FULL_FONT_NAME p e l = Some rf ->
        getName t fid p e l = Some rm ->
        let run := com_google_fonts_check_name_match_familyname_fullfont ttFont in
        (decoded rm = None -> cannot_decode p e l fid ∈ yielded run)
        /\ (decoded rm <> None -> decoded rf = None ->
              cannot_decode p e l NameID.FULL_FONT_NAME ∈ yielded run)
        /\ (decoded rm = None \/ decoded rf = None ->
              ~ exists m, (PASS, m) ∈ yielded run))
  /\ (forall ttFont t,
        name_table ttFont = Some t ->
        (exists r, r ∈ names t /\ decoded r = None) ->
        raised (com_adobe_fonts_check_name_empty_records ttFont)
        = Some UnicodeDecodeError).
Proof.
  split; [|split; [|split; [|split; [|split]]]].
  - intros ttFont b. unfold com_adobe_fonts_check_nameid_1_win_english.
    destruct (negb b); [done|].
    destruct (name_table ttFont) as [t|]; [|done]. simpl.
    destruct (getName t 1 3 1 0x409) as [r|]; [|done].
    unfold toUnicode. destruct (decoded r); [|done]. by destruct (bool_decide _).
  - intros ttFont t r Ht Hr Hd. split; [|reflexivity].
    unfold com_adobe_fonts_check_nameid_1_win_english, has_name_table.
    rewrite Ht. simpl. rewrite Hr. unfold toUnicode. by rewrite Hd.
  - intros ttFont. destruct (name_table ttFont) as [t|] eqn:Ht.
    + by rewrite (match_familyname_fullfont_run ttFont t Ht).
    + unfold com_google_fonts_check_name_match_familyname_fullfont.
      by rewrite Ht.
  - intros ttFont r. destruct (name_table ttFont) as [t|] eqn:Ht.
    + rewrite (match_familyname_fullfont_yielded ttFont t Ht).
      intros [H|H]%elem_of_app; [left; by apply (comparisons_FAIL t)|].
      unfold match_familyname_tail in H.
      destruct (fst (snd (comparisons t))), (snd (snd (comparisons t)));
        simpl in H; try (by apply elem_of_nil in H);
        apply list_elem_of_singleton in H as ->; auto.
    + unfold com_google_fonts_check_name_match_familyname_fullfont.
      rewrite Ht. by intros ?%elem_of_nil.
  - intros ttFont t p e l fid rf rm Ht Hfid Hrf Hrm run. subst run.
    rewrite (match_familyname_fullfont_yielded ttFont t Ht).
    split; [|split].
    + intros Hd. apply elem_of_app. left. apply comparisons_out.
      exists p, e, l, fid. split; [done|]. unfold comparison.
      rewrite Hrf, Hrm, Hd. left.
    + intros Hm Hf. apply elem_of_app. left. apply comparisons_out.
      exists p, e, l, fid. split; [done|]. unfold comparison.
      rewrite Hrf, Hrm, Hf. destruct (decoded rm); [left|done].
    + intros Hd [m [H|H]%elem_of_app]; [by apply comparisons_FAIL in H|].
      unfold match_familyname_tail in H.
      destruct (fst (snd (comparisons t))) eqn:Hmade,
               (snd (snd (comparisons t))) eqn:Hok; simpl in H;
        try (by apply list_elem_of_singleton in H);
        try (by apply elem_of_nil in H).
      pose proof (proj1 (comparisons_ok t) Hok p e l fid Hfid) as H1.
      destruct (proj1 (comparison_ok_iff _ _ _ _ _) H1 rf rm Hrf Hrm)
        as (full & fam & Hfull & Hfam & _).
      destruct Hd; congruence.
  - intros ttFont t Ht Hex.
    unfold com_adobe_fonts_check_name_empty_records, raised.
    rewrite Ht. simpl getitem. rewrite bind_lift_ok.
    pose proof (empty_records_loop_raises (names t) false Hex) as Hl.
    destruct (for_ (names t) empty_records_body false) as [ys c].
    simpl in Hl. subst c. reflexivity.
Qed.

Lemma decode_failures_verdicts_witness :
  cannot_decode 3 1 0x407 1
  ∈ yielded (com_google_fonts_check_name_match_familyname_fullfont
               undecodable_german_family)
  /\ raised (com_adobe_fonts_check_name_empty_records
               (font_with_names [win_english 1 None]))
     = Some UnicodeDecodeError.
Proof.
  destruct decode_failures_verdicts as (_ & _ & _ & _ & Hm & He). split.
  - destruct (Hm undecodable_german_family _ 3 1 0x407 1
                (win_german 4 (Some (u "ExampleSans Bold")))
                (win_german 1 None) eq_refl) as (H & _).
    + left.
    + reflexivity.
    + reflexivity.
    + apply H. reflexivity.
  - apply (He (font_with_names [win_english 1 None]) _ eq_refl).
    exists (win_english 1 None). split; [left|reflexivity].
Defined.

(** C2, as the specification words it, fails: [empty_records] lets the
    UnicodeDecodeError of an undecodable record through, and
    [match_familyname_fullfont] reports an undecodable record with the
    status FAIL, not ERROR. *)
Lemma decode_failure_counterexample :
  com_adobe_fonts_check_name_empty_records (font_with_names [win_english 1 None])
  = MkGen [] (Raise UnicodeDecodeError)
  /\ ~ (forall ttFont,
          raised (com_adobe_fonts_check_name_empty_records ttFont)
          <> Some UnicodeDecodeError)
  /\ com_google_fonts_check_name_match_familyname_fullfont undecodable_german_family
     = MkGen [cannot_decode 3 1 0x407 1] (Ok tt)
  /\ fst (cannot_decode 3 1 0x407 1) = FAIL
  /\ fst (cannot_decode 3 1 0x407 1) <> ERROR.
Proof.
  split; [reflexivity|]. split.
  { intros H. by apply (H (font_with_names [win_english 1 None])). }
  split; [vm_compute; reflexivity|]. split; [reflexivity|discriminate].
Qed.

(** ** Missing tables *)

(** C3 (as amended): [monospace] checks for the tables it reads before it
    indexes them: on a font that lacks any of 'glyf', 'hhea', 'hmtx', 'OS/2'
    and 'post' it yields one FAIL lacks-<tag> for each missing table,
    nothing else, and does not raise; [nameid_1_win_english] returns FAIL
    name-table-not-found on a font without a 'name' table.  The other
    checks index the table they read: [consistent_upm] on a list with a
    font that lacks 'head' and [empty_records] on a font that lacks 'name'
    yield nothing and end by KeyError. *)
Theorem missing_tables_verdicts :
  (forall (LATIN_TEXT LATIN_HAND_WRITTEN LATIN_SYMBOL : Z)
          (ttFont : TTFont) (stats : GlyphMetricsStats),
     (exists key, key ∈ required /\ in_font ttFont key = false) ->
     com_google_fonts_check_monospace LATIN_TEXT LATIN_HAND_WRITTEN LATIN_SYMBOL
       ttFont stats
     = MkGen (map lacks (filter (fun key => in_font ttFont key = false) required))
             (Ok tt))
  /\ (forall ttFont,
        name_table ttFont = None ->
        com_adobe_fonts_check_nameid_1_win_english ttFont (has_name_table ttFont)
        = Ok name_table_not_found)
  /\ (forall ttFonts,
        (exists f, f ∈ ttFonts /\ head_table f = None) ->
        com_adobe_fonts_check_family_consistent_upm ttFonts
        = MkGen [] (Raise KeyError))
  /\ (forall ttFont,
        name_table ttFont = None ->
        com_adobe_fonts_check_name_empty_records ttFont
        = MkGen [] (Raise KeyError)).
Proof.
  split; [|split; [|split]].
  - intros LT LH LS ttFont stats (key & Hkey & Hno).
    destruct ttFont as [n h g hh hm o p c c2 bc].
    destruct g, hh, hm, o, p; try reflexivity.
    exfalso. unfold required in Hkey.
    repeat (apply elem_of_cons in Hkey as [->|Hkey]; [discriminate|]).
    by apply elem_of_nil in Hkey.
  - intros ttFont Hn. unfold com_adobe_fonts_check_nameid_1_win_english,
      has_name_table. by rewrite Hn.
  - intros ttFonts (f & Hf & Hh).
    unfold com_adobe_fonts_check_family_consistent_upm.
    rewrite add_upm_loop_raise; [done|]. apply Exists_exists. eauto.
  - intros ttFont Hn. unfold com_adobe_fonts_check_name_empty_records.
    by rewrite Hn.
Qed.

Lemma missing_tables_verdicts_witness :
  com_google_fonts_check_monospace 2 3 5 no_tables
    {| seems_monospaced := true; most_common_width := 600; width_max := 600 |}
  = MkGen [lacks "glyf"; lacks "hhea"; lacks "hmtx"; lacks "OS/2"; lacks "post"]
          (Ok tt).
Proof.
  apply (proj1 missing_tables_verdicts 2 3 5 no_tables).
  exists "glyf"%string. split; [left|reflexivity].
Defined.

(** C3, as the specification words it, fails: [consistent_upm] on a font
    without a 'head' table and [empty_records] on a font without a 'name'
    table yield no verdict and end by KeyError. *)
Lemma missing_table_counterexample :
  com_adobe_fonts_check_family_consistent_upm
    [font_with_upm 1000; font_with_names [win_english 1 (Some (u "Example"))]]
  = MkGen [] (Raise KeyError)
  /\ com_adobe_fonts_check_name_empty_records (font_with_upm 1000)
     = MkGen [] (Raise KeyError)
  /\ ~ (forall ttFonts,
          raised (com_adobe_fonts_check_family_consistent_upm ttFonts) = None).
Proof.
  split; [reflexivity|]. split; [reflexivity|].
  intros H.
  by specialize (H [font_with_names [win_english 1 (Some (u "Example"))]]).
Qed.

(** ** find_empty_letters *)

Section FindEmptyLettersProperties.

Variable category : Z -> string.
Variable ALL MODERN : gset Z.
Variable ttFont : TTFont.

Let hangul := blank_hangul ALL MODERN ttFont.
Let letter := empty_letter_entry category ALL MODERN ttFont.

Lemma find_empty_letters_body_eq (item : Z * pystr) (st : Z * bool) :
  inspectable ttFont item ->
  find_empty_letters_body category ALL MODERN ttFont item st
  = MkGen (if letter item then [empty_letter (fst item) (snd item)] else [])
          (Ok (if hangul item then fst st + 1 else fst st,
               snd st && negb (hangul item || letter item))).
Proof.
  destruct item as [cp g], st as [n ps]. intros [Hcp [b Hb]]. simpl in Hcp, Hb.
  unfold find_empty_letters_body, hangul, letter, blank_hangul,
    empty_letter_entry, glyph_is_empty, chr. simpl fst. simpl snd.
  assert ((0 <=? cp) && (cp <=? 1114111) = true) as ->
    by (apply andb_true_iff; split; apply Z.leb_le; lia).
  rewrite Hb.
  change (lift (c ← Ok cp; mret (category c))) with (lift (Ok (category cp))).
  rewrite !bind_lift_ok.
  destruct b; simpl; [|by rewrite ret_gen, andb_true_r].
  destruct (bool_decide (cp ∈ blank_ok_set ALL MODERN)); simpl.
  { by rewrite !andb_false_r, ret_gen. }
  destruct (bool_decide (category cp ∈ letter_categories)); simpl;
    [|by rewrite ret_gen, andb_true_r].
  destruct (bool_decide (cp ∈ invisible_letters)); simpl;
    [by rewrite ret_gen, andb_true_r|].
  by rewrite andb_false_r.
Qed.

Lemma find_empty_letters_out (items : list (Z * pystr)) :
  flat_map (fun item => if letter item
                        then [empty_letter (fst item) (snd item)] else []) items
  = map (fun item => empty_letter (fst item) (snd item))
        (List.filter letter items).
Proof.
  induction items as [|item items IH]; [done|]. simpl.
  destruct (letter item); simpl; by rewrite IH.
Qed.

Lemma find_empty_letters_state (items : list (Z * pystr)) (st : Z * bool) :
  fold_left (fun st item => (if hangul item then fst st + 1 else fst st,
                             snd st && negb (hangul item || letter item)))
            items st
  = (fst st + len (List.filter hangul items),
     snd st && forallb (fun item => negb (hangul item || letter item)) items).
Proof.
  revert st. induction items as [|item items IH]; intros [n ps]; simpl.
  - f_equal; [unfold len; simpl; lia|by rewrite andb_true_r].
  - rewrite IH. simpl. destruct (hangul item); simpl.
    + f_equal; [unfold len; simpl; lia|by rewrite andb_false_r].
    + f_equal. by rewrite andb_assoc.
Qed.

Lemma no_entries_iff (items : list (Z * pystr)) :
  forallb (fun item => negb (hangul item || letter item)) items = true
  <-> List.filter letter items = [] /\ List.filter hangul items = [].
Proof.
  induction items as [|item items IH]; simpl; [done|].
  rewrite andb_true_iff, IH.
  destruct (hangul item), (letter item); simpl; split; try tauto;
    try (intros [? ?]; discriminate); try (intros [? _]; discriminate).
Qed.

(** The run of the check in closed form. *)
Lemma find_empty_letters_run (items : list (Z * pystr)) :
  bestCmap ttFont = Some items ->
  (forall item, item ∈ items -> inspectable ttFont item) ->
  com_adobe_fonts_check_find_empty_letters category ALL MODERN ttFont
  = MkGen (map (fun item => empty_letter (fst item) (snd item))
               (List.filter letter items)
           ++ (if forallb (fun item => negb (hangul item || letter item)) items
               then [(PASS, Plain "No empty glyphs for letters found.")]
               else if negb (len (List.filter hangul items) =? 0)
                    then [empty_hangul_letter (len (List.filter hangul items))]
                    else []))
          (Ok tt).
Proof.
  intros Hcmap Hitems. unfold com_adobe_fonts_check_find_empty_letters.
  rewrite Hcmap, bind_lift_ok.
  rewrite (for_pure _ _ _ items
             (fun item st Hin =>
                find_empty_letters_body_eq item st (Hitems item Hin))).
  rewrite bind_ok, find_empty_letters_out, find_empty_letters_state. simpl.
  destruct (forallb _ items); [done|].
  rewrite Z.add_0_l.
  by destruct (len (List.filter hangul items) =? 0).
Qed.

End FindEmptyLettersProperties.

Lemma empty_letter_entry_iff (category : Z -> string) (ALL MODERN : gset Z)
    (ttFont : TTFont) (cp : Z) (g : pystr) :
  empty_letter_entry category ALL MODERN ttFont (cp, g) = true
  <-> glyph_is_empty ttFont g = true
      /\ category cp ∈ (["Ll"; "Lm"; "Lo"; "Lt"; "Lu"]%string)
      /\ (cp ∉ ({[ 0x115F; 0x1160; 0x3164; 0xFFA0 ]} : gset Z))
      /\ ~ (cp ∈ ALL /\ cp ∉ MODERN).
Proof.
  unfold empty_letter_entry, blank_ok_set. simpl.
  rewrite !andb_true_iff, !negb_true_iff, !bool_decide_eq_false,
    bool_decide_eq_true, elem_of_difference.
  unfold letter_categories, invisible_letters. tauto.
Qed.

(** C5: on a font whose cmap entries can be inspected the check runs to
    its end and yields, in the order of the cmap, a FAIL empty-letter for
    each entry whose glyph is empty and whose code point has category Ll,
    Lm, Lo, Lt or Lu, is none of U+115F, U+1160, U+3164, U+FFA0 and is not
    in the blank-glyph set of Hangul syllables; the entries with an empty
    glyph and a code point of that set are counted in a single WARN
    empty-hangul-letter, which follows the FAILs; and PASS is yielded
    exactly when there is no entry of either kind. *)
Theorem find_empty_letters_verdicts (category : Z -> string)
    (ALL MODERN : gset Z) (ttFont : TTFont) (items : list (Z * pystr)) :
  bestCmap ttFont = Some items ->
  (forall item, item ∈ items -> inspectable ttFont item) ->
  let run := com_adobe_fonts_check_find_empty_letters category ALL MODERN ttFont in
  let letters := List.filter (empty_letter_entry category ALL MODERN ttFont) items in
  let hangul := List.filter (blank_hangul ALL MODERN ttFont) items in
  completion run = Ok tt
  /\ yielded run
     = map (fun item => empty_letter (fst item) (snd item)) letters
       ++ match letters, hangul with
          | [], [] => [(PASS, Plain "No empty glyphs for letters found.")]
          | _, [] => []
          | _, _ :: _ => [empty_hangul_letter (len hangul)]
          end
  /\ (forall cp g,
        (cp, g) ∈ items ->
        (empty_letter cp g ∈ yielded run
         <-> glyph_is_empty ttFont g = true
             /\ category cp ∈ (["Ll"; "Lm"; "Lo"; "Lt"; "Lu"]%string)
             /\ (cp ∉ ({[ 0x115F; 0x1160; 0x3164; 0xFFA0 ]} : gset Z))
             /\ ~ (cp ∈ ALL /\ cp ∉ MODERN)))
  /\ (forall cp g,
        cp ∈ ({[ 0x115F; 0x1160; 0x3164; 0xFFA0 ]} : gset Z)
        \/ (cp ∈ ALL /\ cp ∉ MODERN) ->
        empty_letter cp g ∉ yielded run)
  /\ ((exists m, (PASS, m) ∈ yielded run) <-> letters = [] /\ hangul = []).
Proof.
  intros Hcmap Hitems run letters hangul.
  assert (run = MkGen
            (map (fun item => empty_letter (fst item) (snd item)) letters
             ++ match letters, hangul with
                | [], [] => [(PASS, Plain "No empty glyphs for letters found.")]
                | _, [] => []
                | _, _ :: _ => [empty_hangul_letter (len hangul)]
                end) (Ok tt)) as Hrun.
  { subst run. rewrite (find_empty_letters_run _ _ _ _ items Hcmap Hitems).
    fold letters hangul. f_equal. f_equal.
    destruct (forallb _ items) eqn:Hall.
    - apply no_entries_iff in Hall as [Hl Hh]. fold letters in Hl.
      fold hangul in Hh. by rewrite Hl, Hh.
    - destruct hangul as [|h hs] eqn:Hh.
      + destruct letters as [|l ls] eqn:Hl; [|done].
        assert (forallb (fun item =>
                  negb (blank_hangul ALL MODERN ttFont item
                        || empty_letter_entry category ALL MODERN ttFont item))
                  items = true) as Hyes by (by apply no_entries_iff).
        congruence.
      + unfold len. simpl. by destruct letters. }
  assert (forall cp g, empty_letter cp g ∈ yielded run ->
            (cp, g) ∈ letters) as Hin.
  { intros cp g. rewrite Hrun. simpl. intros [H|H]%elem_of_app.
    - apply list_elem_of_fmap in H as ([cp' g'] & Heq & H).
      unfold empty_letter in Heq. simpl in Heq. by simplify_eq.
    - destruct letters, hangul; try (by apply elem_of_nil in H);
        by apply list_elem_of_singleton in H. }
  assert (forall cp g, (cp, g) ∈ letters
            <-> (cp, g) ∈ items
                /\ empty_letter_entry category ALL MODERN ttFont (cp, g) = true)
    as Hletters.
  { intros cp g. subst letters. rewrite !list_elem_of_In, filter_In. tauto. }
  split; [by rewrite Hrun|]. split; [by rewrite Hrun|].
  split; [|split].
  - intros cp g Hcg. rewrite <- empty_letter_entry_iff. split.
    + intros H. by apply Hin, Hletters in H as [_ H].
    + intros H. rewrite Hrun. simpl. apply elem_of_app. left.
      apply (list_elem_of_fmap_2 (fun item => empty_letter (fst item) (snd item))
               _ (cp, g)). by apply Hletters.
  - intros cp g Hcp H. apply Hin, Hletters in H as [_ H].
    apply empty_letter_entry_iff in H. tauto.
  - rewrite Hrun. simpl. split.
    + intros [m [H|H]%elem_of_app].
      * apply list_elem_of_fmap in H as (item & Heq & _). discriminate.
      * destruct letters, hangul; try (by apply elem_of_nil in H);
          try (by apply list_elem_of_singleton in H); done.
    + intros [-> ->]. eexists. simpl. left.
Qed.

Lemma find_empty_letters_verdicts_witness :
  yielded (com_adobe_fonts_check_find_empty_letters example_category
             {[ 0xAC00; 0xAC01; 0xAC02 ]} {[ 0xAC00 ]} empty_letters_font)
  = [empty_letter 0x61 (u "a"); empty_hangul_letter 1].
Proof.
  destruct (find_empty_letters_verdicts example_category
              {[ 0xAC00; 0xAC01; 0xAC02 ]} {[ 0xAC00 ]} empty_letters_font
              [(0x61, u "a"); (0x3164, u "filler"); (0xAC02, u "uniAC02");
               (0x62, u "b")] eq_refl) as (_ & H & _).
  - intros item Hitem.
    repeat (apply elem_of_cons in Hitem as [->|Hitem];
            [split; [simpl; lia|eexists; reflexivity]|]).
    by apply elem_of_nil in Hitem.
  - rewrite H. vm_compute. reflexivity.
Defined.

(** ** Counter *)

Lemma count_app (k : pystr) (l1 l2 : list pystr) :
  count k (l1 ++ l2) = count k l1 + count k l2.
Proof. unfold count, len. rewrite filter_app, length_app. lia. Qed.

Lemma count_Permutation (k : pystr) (l1 l2 : list pystr) :
  l1 ≡ₚ l2 -> count k l1 = count k l2.
Proof.
  intros H. unfold count, len. f_equal. apply Permutation_length.
  by rewrite H.
Qed.

Lemma count_nonneg (k : pystr) (l : list pystr) : 0 <= count k l.
Proof. unfold count, len. lia. Qed.

Lemma count_not_in (k : pystr) (l : list pystr) : k ∉ l -> count k l = 0.
Proof.
  intros Hk. unfold count, len.
  destruct (filter (fun y => y = k) l) as [|y ys] eqn:Hf; [done|].
  exfalso. assert (y ∈ filter (fun y => y = k) l) as Hy by (rewrite Hf; left).
  apply list_elem_of_filter in Hy as [-> Hy]. by apply Hk.
Qed.

Lemma count_NoDup (k : pystr) (l : list pystr) :
  NoDup l -> count k l = if decide (k ∈ l) then 1 else 0.
Proof.
  induction 1 as [|x l Hx _ IH].
  - by rewrite decide_False by apply not_elem_of_nil.
  - change (x :: l) with ([x] ++ l). rewrite count_app, IH.
    destruct (decide (x = k)) as [->|Hne].
    + rewrite (decide_False (P := k ∈ l)) by done.
      rewrite decide_True by (apply elem_of_app; left; left).
      unfold count. by rewrite filter_cons_True.
    + unfold count at 1. rewrite filter_cons_False by done.
      destruct (decide (k ∈ l)) as [Hk|Hk].
      * rewrite decide_True by (apply elem_of_app; by right). done.
      * rewrite decide_False; [done|].
        intros [Hin|Hin]%elem_of_app; [|done].
        apply list_elem_of_singleton in Hin. congruence.
Qed.

Lemma counter_add_get (c : list (pystr * Z)) (x k : pystr) :
  counter_get (counter_add c x) k
  = counter_get c k + (if decide (x = k) then 1 else 0).
Proof.
  induction c as [|[k' n] c IH]; simpl.
  - destruct (decide (x = k)); lia.
  - destruct (decide (k' = x)) as [->|Hne]; simpl.
    + destruct (decide (x = k)); lia.
    + destruct (decide (k' = k)) as [->|Hne']; [|exact IH].
      rewrite decide_False by congruence. lia.
Qed.

Lemma counter_add_keys (c : list (pystr * Z)) (x : pystr) :
  map fst (counter_add c x)
  = map fst c ++ (if decide (x ∈ map fst c) then [] else [x]).
Proof.
  induction c as [|[k' n] c IH].
  - reflexivity.
  - cbn [counter_add]. destruct (decide (k' = x)) as [->|Hne].
    + change (map fst ((x, n + 1) :: c)) with (x :: map fst c).
      change (map fst ((x, n) :: c)) with (x :: map fst c).
      rewrite decide_True by left. by rewrite app_nil_r.
    + change (map fst ((k', n) :: counter_add c x))
        with (k' :: map fst (counter_add c x)).
      change (map fst ((k', n) :: c)) with (k' :: map fst c).
      rewrite IH. simpl app. f_equal. f_equal.
      destruct (decide (x ∈ map fst c)) as [Hx|Hx].
      * rewrite decide_True by (by right). done.
      * rewrite decide_False; [done|].
        intros [?|?]%elem_of_cons; [congruence|done].
Qed.

Lemma counter_fold_get (l : list pystr) (c : list (pystr * Z)) (k : pystr) :
  counter_get (fold_left counter_add l c) k = counter_get c k + count k l.
Proof.
  revert c. induction l as [|x l IH]; intros c; simpl.
  - unfold count, len. simpl. lia.
  - rewrite IH, counter_add_get. change (x :: l) with ([x] ++ l).
    rewrite count_app. unfold count at 2.
    destruct (decide (x = k)) as [->|Hne].
    + rewrite filter_cons_True by done. unfold len. simpl. lia.
    + rewrite filter_cons_False by done. unfold len. simpl. lia.
Qed.

Lemma counter_fold_keys (l : list pystr) (c : list (pystr * Z)) (k : pystr) :
  k ∈ map fst (fold_left counter_add l c) <-> k ∈ map fst c \/ k ∈ l.
Proof.
  revert c. induction l as [|x l IH]; intros c; simpl.
  - split; [by left|]. intros [H|H]; [done|by apply elem_of_nil in H].
  - rewrite IH, counter_add_keys, elem_of_app, elem_of_cons.
    destruct (decide (x ∈ map fst c)) as [Hx|Hx].
    + split; [intros [[?|H]|?]; [tauto|by apply elem_of_nil in H|tauto]|].
      intros [?|[->|?]]; tauto.
    + rewrite list_elem_of_singleton. tauto.
Qed.

Lemma counter_fold_NoDup (l : list pystr) (c : list (pystr * Z)) :
  NoDup (map fst c) -> NoDup (map fst (fold_left counter_add l c)).
Proof.
  revert c. induction l as [|x l IH]; intros c Hc; simpl; [done|].
  apply IH. rewrite counter_add_keys.
  destruct (decide (x ∈ map fst c)) as [Hx|Hx]; [by rewrite app_nil_r|].
  apply NoDup_app. split; [done|]. split.
  - intros y Hy ->%list_elem_of_singleton. done.
  - apply NoDup_singleton.
Qed.

Lemma counter_get_elem (c : list (pystr * Z)) (k : pystr) (n : Z) :
  NoDup (map fst c) ->
  (k, n) ∈ c <-> k ∈ map fst c /\ counter_get c k = n.
Proof.
  induction c as [|[k' n'] c IH]; simpl; intros Hc.
  - split; [by intros ?%elem_of_nil|by intros [?%elem_of_nil _]].
  - apply NoDup_cons in Hc as [Hk' Hc]. rewrite !elem_of_cons, (IH Hc).
    destruct (decide (k' = k)) as [->|Hne].
    + split.
      * intros [[= ->]|[Hk _]]; [tauto|done].
      * intros [_ ->]. by left.
    + split.
      * intros [[= ? ?]|[? ?]]; [congruence|tauto].
      * intros [[?|?] ?]; [congruence|tauto].
Qed.

(** The items of a [Counter] are the distinct elements of the list, each
    with the number of its occurrences. *)
Lemma Counter_items (l : list pystr) :
  NoDup (map fst (Counter l))
  /\ forall k n, (k, n) ∈ Counter l <-> k ∈ l /\ n = count k l.
Proof.
  unfold Counter. split; [apply counter_fold_NoDup; constructor|].
  intros k n.
  rewrite counter_get_elem by (apply counter_fold_NoDup; constructor).
  rewrite counter_fold_keys, counter_fold_get. simpl.
  split; [intros [[H|H] <-]; [by apply elem_of_nil in H|done]|].
  intros [H ->]. split; [by right|lia].
Qed.

(** ** max_4_fonts_per_family_name *)

Lemma fold_left_extend {A B} (F : A -> list B) (xs : list A) (acc : list B) :
  fold_left (fun acc x => acc ++ F x) xs acc = acc ++ flat_map F xs.
Proof.
  revert acc. induction xs as [|x xs IH]; intros acc; simpl.
  - by rewrite app_nil_r.
  - by rewrite IH, app_assoc.
Qed.

Lemma filter_all {A} (P : A -> Prop) `{forall x, Decision (P x)} (l : list A) :
  (forall x, x ∈ l -> P x) -> filter P l = l.
Proof.
  induction l as [|x l IH]; intros Hl; [done|].
  rewrite filter_cons_True by (apply Hl; left).
  f_equal. apply IH. intros y Hy. apply Hl. by right.
Qed.

Lemma filter_none {A} (P : A -> Prop) `{forall x, Decision (P x)} (l : list A) :
  (forall x, x ∈ l -> ~ P x) -> filter P l = [].
Proof.
  induction l as [|x l IH]; intros Hl; [done|].
  rewrite filter_cons_False by (apply Hl; left).
  apply IH. intros y Hy. apply Hl. by right.
Qed.

Section Max4Properties.

Variable get : name_entry_strings.
Variable set_order : list pystr -> list pystr.
Hypothesis set_order_perm : forall l, set_order l ≡ₚ remove_dups l.

Let family_names (ttFonts : list TTFont) : list pystr :=
  flat_map (fun f => set_order (family_names_of get f)) ttFonts.

Lemma collect_family_names_ok (ttFonts : list TTFont) :
  names_readable get ttFonts ->
  collect_family_names get set_order ttFonts = Ok (family_names ttFonts).
Proof.
  intros Hok. unfold collect_family_names.
  rewrite (for_o_pure (fun f acc => acc ++ set_order (family_names_of get f))).
  - by rewrite fold_left_extend.
  - intros f acc Hf. destruct (Hok f Hf) as [l Hl].
    unfold family_names_of. by rewrite Hl.
Qed.

(** Each font counts once for each of its family names. *)
Lemma count_family_names (ttFonts : list TTFont) (k : pystr) :
  count k (family_names ttFonts) = fonts_sharing get ttFonts k.
Proof.
  unfold family_names, fonts_sharing.
  induction ttFonts as [|f fs IH]; [done|].
  simpl flat_map. rewrite count_app, IH.
  assert (count k (set_order (family_names_of get f))
          = if decide (k ∈ family_names_of get f) then 1 else 0) as ->.
  { rewrite (count_Permutation _ _ _ (set_order_perm (family_names_of get f))).
    rewrite count_NoDup by apply NoDup_remove_dups.
    destruct (decide (k ∈ family_names_of get f)) as [Hk|Hk].
    - by rewrite decide_True by (by apply elem_of_remove_dups).
    - by rewrite decide_False by (by rewrite elem_of_remove_dups). }
  destruct (decide (k ∈ family_names_of get f)) as [Hk|Hk].
  - rewrite filter_cons_True by done. unfold len. simpl. lia.
  - rewrite filter_cons_False by done. lia.
Qed.

Lemma fonts_sharing_bounds (ttFonts : list TTFont) (k : pystr) :
  0 <= fonts_sharing get ttFonts k <= len ttFonts.
Proof.
  unfold fonts_sharing, len. split; [lia|].
  apply inj_le, length_filter.
Qed.

(** The run of the check in closed form. *)
Lemma max_4_run (ttFonts : list TTFont) :
  names_readable get ttFonts ->
  com_adobe_fonts_check_family_max_4_fonts_per_family_name get set_order ttFonts
  = MkGen (map (fun item => too_many (fst item) (snd item))
               (List.filter (fun item => 4 <? snd item)
                            (Counter (family_names ttFonts)))
           ++ (if forallb (fun item => negb (4 <? snd item))
                          (Counter (family_names ttFonts))
               then [(PASS, Plain "There were no more than 4 fonts per family name.")]
               else []))
          (Ok tt).
Proof.
  intros Hok.
  unfold com_adobe_fonts_check_family_max_4_fonts_per_family_name.
  rewrite collect_family_names_ok, bind_lift_ok by done.
  rewrite (for_pure
             (fun item : pystr * Z =>
                if 4 <? snd item then [too_many (fst item) (snd item)] else [])
             (fun (item : pystr * Z) (passed : bool) =>
                passed && negb (4 <? snd item))).
  2:{ intros [k n] passed _. simpl. destruct (4 <? n); simpl.
      - by rewrite andb_false_r.
      - by rewrite ret_gen, andb_true_r. }
  rewrite bind_ok. generalize (Counter (family_names ttFonts)). intros c.
  assert (forall passed : bool,
            fold_left (fun (s : bool) (x : pystr * Z) => s && negb (4 <? snd x))
                      c passed
            = passed && forallb (fun item => negb (4 <? snd item)) c) as ->.
  { induction c as [|item c IH]; intros passed; simpl.
    - by rewrite andb_true_r.
    - by rewrite IH, andb_assoc. }
  assert (flat_map (fun item : pystr * Z =>
                      if 4 <? snd item
                      then [too_many (fst item) (snd item)] else []) c
          = map (fun item => too_many (fst item) (snd item))
                (List.filter (fun item => 4 <? snd item) c)) as ->.
  { induction c as [|item c IH]; [done|]. simpl.
    destruct (4 <? snd item); simpl; by rewrite IH. }
  simpl. by destruct (forallb _ c).
Qed.

(** The verdicts in terms of the fonts: one FAIL for each family name that
    more than 4 fonts carry, with the number of these fonts, and then PASS
    when there is no such name. *)
Lemma max_4_characterisation (ttFonts : list TTFont) :
  names_readable get ttFonts ->
  exists ks,
    NoDup ks
    /\ (forall k, k ∈ ks <-> 4 < fonts_sharing get ttFonts k)
    /\ com_adobe_fonts_check_family_max_4_fonts_per_family_name
         get set_order ttFonts
       = MkGen (map (fun k => too_many k (fonts_sharing get ttFonts k)) ks
                ++ (if decide (ks = [])
                    then [(PASS, Plain "There were no more than 4 fonts per family name.")]
                    else []))
               (Ok tt).
Proof.
  intros Hok. rewrite (max_4_run ttFonts Hok).
  destruct (Counter_items (family_names ttFonts)) as [Hnd Hitems].
  set (c := Counter (family_names ttFonts)) in *.
  set (big := List.filter (fun item : pystr * Z => 4 <? snd item) c).
  assert (forall k n, (k, n) ∈ big
            <-> k ∈ family_names ttFonts
                /\ n = fonts_sharing get ttFonts k /\ 4 < n) as Hbig.
  { intros k n. unfold big.
    rewrite list_elem_of_In, filter_In, <- list_elem_of_In, Hitems.
    simpl. rewrite Z.ltb_lt, count_family_names. tauto. }
  exists (map fst big). split; [|split].
  - eapply sublist_NoDup; [exact Hnd|].
    change (map fst big) with (fst <$> big). change (map fst c) with (fst <$> c).
    apply fmap_sublist. unfold big. clear.
    induction c as [|item c IH]; simpl; [constructor|].
    destruct (4 <? snd item); by constructor.
  - intros k. change (map fst big) with (fst <$> big).
    rewrite list_elem_of_fmap. split.
    + intros ([k' n] & -> & H). simpl. apply Hbig in H as (_ & <- & H). done.
    + intros H. exists (k, fonts_sharing get ttFonts k). split; [done|].
      apply Hbig. split; [|done].
      destruct (decide (k ∈ family_names ttFonts)) as [|Hk]; [done|].
      apply count_not_in in Hk. rewrite count_family_names in Hk. lia.
  - f_equal. f_equal.
    + rewrite map_map. apply map_ext_in. intros [k n] Hin. simpl.
      apply list_elem_of_In, Hbig in Hin as (_ & -> & _). done.
    + assert (forallb (fun item : pystr * Z => negb (4 <? snd item)) c
              = match big with [] => true | _ => false end) as ->.
      { unfold big. clear. induction c as [|item c IH]; [done|]. simpl.
        destruct (4 <? snd item); simpl; [done|exact IH]. }
      by destruct big.
Qed.

End Max4Properties.

(** C7: when the family names of every font can be read, the check runs to
    its end and yields one FAIL too-many for each family name that more
    than 4 fonts of the list carry, with the number of these fonts, and a
    PASS exactly when no family name is carried by more than 4 fonts; for 5
    fonts that all carry one and the same family name and no other, it
    yields exactly one result, the FAIL too-many with the count 5. *)
Theorem max_4_fonts_per_family_name_verdicts (get : name_entry_strings)
    (set_order : list pystr -> list pystr) (ttFonts : list TTFont) :
  (forall l, set_order l ≡ₚ remove_dups l) ->
  names_readable get ttFonts ->
  let run := com_adobe_fonts_check_family_max_4_fonts_per_family_name
               get set_order ttFonts in
  completion run = Ok tt
  /\ (exists ks,
        NoDup ks
        /\ (forall k, k ∈ ks <-> 4 < fonts_sharing get ttFonts k)
        /\ yielded run
           = map (fun k => too_many k (fonts_sharing get ttFonts k)) ks
             ++ (if decide (ks = [])
                 then [(PASS, Plain "There were no more than 4 fonts per family name.")]
                 else []))
  /\ ((exists m, (PASS, m) ∈ yielded run)
      <-> forall k, fonts_sharing get ttFonts k <= 4)
  /\ (forall name,
        length ttFonts = 5%nat ->
        (forall f, f ∈ ttFonts ->
           name ∈ family_names_of get f
           /\ forall s, s ∈ family_names_of get f -> s = name) ->
        run = MkGen [too_many name 5] (Ok tt)).
Proof.
  intros Hperm Hok run.
  destruct (max_4_characterisation get set_order Hperm ttFonts Hok)
    as (ks & Hnd & Hks & Hrun).
  fold run in Hrun. rewrite Hrun. simpl.
  split; [done|]. split; [by exists ks|]. split.
  - split.
    + intros [m [H|H]%elem_of_app].
      { apply list_elem_of_fmap in H as (k & Heq & _). discriminate. }
      destruct (decide (ks = [])) as [->|]; [|by apply elem_of_nil in H].
      intros k. destruct (Z_le_gt_dec (fonts_sharing get ttFonts k) 4) as [|Hgt];
        [done|].
      assert (k ∈ @nil pystr) as Hk by (apply Hks; lia).
      by apply elem_of_nil in Hk.
    + intros Hall. destruct ks as [|k ks].
      * eexists. simpl. left.
      * exfalso. assert (4 < fonts_sharing get ttFonts k) by (apply Hks; left).
        specialize (Hall k). lia.
  - intros name Hlen Hall.
    assert (forall k, k ∈ ks <-> k = name) as Hname.
    { intros k. rewrite Hks. unfold fonts_sharing. split.
      - intros Hk. destruct (decide (k = name)) as [|Hne]; [done|].
        rewrite filter_none in Hk; [unfold len in Hk; simpl in Hk; lia|].
        intros f Hf Hkf. destruct (Hall f Hf) as [_ Hs]. by apply Hne, Hs.
      - intros ->. rewrite filter_all by (intros f Hf; by apply Hall).
        unfold len. rewrite Hlen. lia. }
    assert (ks = [name]) as ->.
    { destruct ks as [|a [|b ks]].
      - assert (name ∈ @nil pystr) as H by (by apply Hname).
        by apply elem_of_nil in H.
      - f_equal. apply Hname. left.
      - exfalso. assert (a = name) as -> by (apply Hname; left).
        assert (b = name) as -> by (apply Hname; right; left).
        apply NoDup_cons in Hnd as [Hnd _]. apply Hnd. left. }
    simpl. unfold fonts_sharing.
    rewrite filter_all by (intros f Hf; by apply Hall).
    unfold len. rewrite Hlen. reflexivity.
Qed.

Lemma max_4_fonts_per_family_name_verdicts_witness :
  com_adobe_fonts_check_family_max_4_fonts_per_family_name
    get_name_entry_strings_model remove_dups
    [example_family_font; example_family_font; example_family_font;
     example_family_font; example_family_font]
  = MkGen [too_many (u "Example") 5] (Ok tt).
Proof.
  assert (forall f,
            f ∈ [example_family_font; example_family_font; example_family_font;
                 example_family_font; example_family_font] ->
            f = example_family_font) as Hf.
  { intros f H. repeat (apply elem_of_cons in H as [->|H]; [done|]).
    by apply elem_of_nil in H. }
  destruct (max_4_fonts_per_family_name_verdicts get_name_entry_strings_model
              remove_dups
              [example_family_font; example_family_font; example_family_font;
               example_family_font; example_family_font])
    as (_ & _ & _ & H).
  - intros l. reflexivity.
  - intros f ->%Hf. eexists. reflexivity.
  - apply H; [reflexivity|]. intros f ->%Hf. split.
    + left.
    + intros s Hs. by apply list_elem_of_singleton in Hs.
Defined.

(** C10: the family names of a font are reduced to a set before they are
    counted, so a font counts once for a family name however many of its
    records carry it: the count that a FAIL too-many reports is the number
    of fonts with that family name, which is at most the number of fonts,
    and a single font yields PASS alone whatever its records are. *)
Theorem max_4_counts_each_font_once (get : name_entry_strings)
    (set_order : list pystr -> list pystr) :
  (forall l, set_order l ≡ₚ remove_dups l) ->
  (forall ttFonts name n,
     names_readable get ttFonts ->
     too_many name n
     ∈ yielded (com_adobe_fonts_check_family_max_4_fonts_per_family_name
                  get set_order ttFonts) ->
     n = fonts_sharing get ttFonts name /\ n <= len ttFonts)
  /\ (forall ttFont,
        names_readable get [ttFont] ->
        com_adobe_fonts_check_family_max_4_fonts_per_family_name
          get set_order [ttFont]
        = MkGen [(PASS, Plain "There were no more than 4 fonts per family name.")]
                (Ok tt)).
Proof.
  intros Hperm. split.
  - intros ttFonts name n Hok.
    destruct (max_4_characterisation get set_order Hperm ttFonts Hok)
      as (ks & _ & _ & ->).
    simpl. intros [H|H]%elem_of_app.
    + apply list_elem_of_fmap in H as (k & Heq & _).
      unfold too_many in Heq. simplify_eq. split; [done|].
      apply fonts_sharing_bounds.
    + destruct (decide (ks = [])); [|by apply elem_of_nil in H].
      by apply list_elem_of_singleton in H.
  - intros ttFont Hok.
    destruct (max_4_characterisation get set_order Hperm [ttFont] Hok)
      as (ks & _ & Hks & ->).
    destruct ks as [|k ks]; [done|]. exfalso.
    assert (4 < fonts_sharing get [ttFont] k) as Hk by (apply Hks; left).
    pose proof (fonts_sharing_bounds get [ttFont] k) as Hb.
    unfold len in Hb. simpl in Hb. lia.
Qed.

Lemma max_4_counts_each_font_once_witness :
  family_names_of get_name_entry_strings_model five_duplicates_font
  = [u "Example"; u "Example"; u "Example"; u "Example"; u "Example"]
  /\ com_adobe_fonts_check_family_max_4_fonts_per_family_name
       get_name_entry_strings_model remove_dups [five_duplicates_font]
     = MkGen [(PASS, Plain "There were no more than 4 fonts per family name.")]
             (Ok tt).
Proof.
  split; [reflexivity|].
  apply (proj2 (max_4_counts_each_font_once get_name_entry_strings_model
                  remove_dups (fun l => reflexivity _))).
  intros f Hf. eexists. apply list_elem_of_singleton in Hf as ->. reflexivity.
Defined.

(** ** family_naming_recommendations *)

Lemma psname_char_allowed (c : N) : psname_char c = true <-> ps_allowed c.
Proof.
  unfold psname_char, ps_allowed.
  rewrite !orb_true_iff, !andb_true_iff, !N.leb_le, N.eqb_eq. tauto.
Qed.

Lemma bad_psname_search_iff (s : pystr) :
  bad_psname_search s = true <-> exists c, c ∈ s /\ ~ ps_allowed c.
Proof.
  unfold bad_psname_search. rewrite existsb_exists. split.
  - intros (c & Hc & H). exists c. split; [by apply list_elem_of_In|].
    rewrite <- psname_char_allowed. by destruct (psname_char c).
  - intros (c & Hc & H). exists c. split; [by apply list_elem_of_In|].
    rewrite <- psname_char_allowed in H. by destruct (psname_char c).
Qed.

Section NamingProperties.

Variable get : name_entry_strings.
Variable ttFont : TTFont.

Lemma too_long_eq (name_id : Z) (limit : nat) (f r : string)
    (l : list pystr) (bad : list BadEntry) :
  get ttFont name_id None None None = Ok l ->
  too_long get ttFont name_id limit f r bad
  = Ok (bad ++ map (fun s => {| field := f; value := s; rec := r |})
                   (List.filter (fun s => (limit <=? length s)%nat) l)).
Proof.
  intros Hl. unfold too_long. rewrite Hl.
  change (Ok l ≫= ?k) with (k l). cbv beta.
  rewrite (for_o_pure (fun s bad =>
             if (limit <=? length s)%nat
             then bad ++ [{| field := f; value := s; rec := r |}] else bad)).
  2:{ intros s b _. by destruct (limit <=? length s)%nat. }
  f_equal. clear Hl. revert bad. induction l as [|s l IH]; intros bad; simpl.
  - by rewrite app_nil_r.
  - rewrite IH. destruct (limit <=? length s)%nat; [|done].
    simpl. by rewrite <- app_assoc.
Qed.

Lemma too_long_values (limit : nat) (f r : string) (l : list pystr) (s : pystr) :
  s ∈ map value (map (fun s => {| field := f; value := s; rec := r |})
                     (List.filter (fun s => (limit <=? length s)%nat) l))
  <-> s ∈ l /\ (limit <= length s)%nat.
Proof.
  rewrite map_map. simpl. rewrite map_id.
  by rewrite list_elem_of_In, filter_In, <- list_elem_of_In, Nat.leb_le.
Qed.

(** The rows of the first loop, over the PostScript names. *)
Lemma psname_rows (l : list pystr) (bad : list BadEntry) :
  for_o l psname_step bad = Ok (bad ++ flat_map psname_entries l).
Proof.
  rewrite (for_o_pure (fun s bad => bad ++ psname_entries s)).
  - by rewrite fold_left_extend.
  - intros s b _. unfold psname_step, psname_entries.
    destruct (bad_psname_search s), (1 <? count_hyphens s); simpl;
      by rewrite <- ?app_assoc, ?app_nil_r.
Qed.

Lemma psname_values (l : list pystr) (s : pystr) :
  s ∈ map value (flat_map psname_entries l)
  <-> s ∈ l /\ (bad_psname_search s = true \/ 1 < count_hyphens s).
Proof.
  induction l as [|x l IH]; simpl.
  - split; [by intros ?%elem_of_nil|by intros [?%elem_of_nil _]].
  - rewrite map_app, elem_of_app, IH, elem_of_cons. unfold psname_entries.
    destruct (bad_psname_search x) eqn:Hb, (1 <? count_hyphens x) eqn:Hc;
      simpl; rewrite ?elem_of_cons, elem_of_nil;
      try apply Z.ltb_lt in Hc; try apply Z.ltb_ge in Hc;
      split; intros H; repeat destruct H as [H|H]; subst; auto;
      try tauto; try (destruct H as [[->|H] H']; [|tauto]);
      try (destruct H' as [H'|H']; [congruence|lia]); auto.
Qed.

(** All the rows, and their values. *)
Lemma collect_bad_entries_eq (ns : NameStrings) :
  reads get ttFont ns ->
  exists rows,
    collect_bad_entries get ttFont = Ok rows
    /\ forall s, s ∈ map value rows <-> violates ns s.
Proof.
  intros (Hps & Hfull & Hfam & Hsub & Htfam & Htsub).
  unfold collect_bad_entries. rewrite Hps.
  change (Ok (postscript_names ns) ≫= ?k) with (k (postscript_names ns)).
  cbv beta.
  rewrite psname_rows.
  change (Ok ?b ≫= ?k) with (k b); cbv beta.
  rewrite (too_long_eq _ _ _ _ _ _ Hfull). change (Ok ?b ≫= ?k) with (k b); cbv beta.
  rewrite (too_long_eq _ _ _ _ _ _ Hps). change (Ok ?b ≫= ?k) with (k b); cbv beta.
  rewrite (too_long_eq _ _ _ _ _ _ Hfam). change (Ok ?b ≫= ?k) with (k b); cbv beta.
  rewrite (too_long_eq _ _ _ _ _ _ Hsub). change (Ok ?b ≫= ?k) with (k b); cbv beta.
  rewrite (too_long_eq _ _ _ _ _ _ Htfam). change (Ok ?b ≫= ?k) with (k b); cbv beta.
  rewrite (too_long_eq _ _ _ _ _ _ Htsub).
  eexists. split; [reflexivity|]. intros s. unfold violates.
  rewrite !map_app, !elem_of_app, !too_long_values, psname_values.
  rewrite bad_psname_search_iff. simpl.
  assert ((64 <= length s)%nat <-> (63 < length s)%nat) as -> by lia.
  assert ((32 <= length s)%nat <-> (31 < length s)%nat) as -> by lia.
  rewrite elem_of_nil. tauto.
Qed.

End NamingProperties.

(** C8 (as amended): when the name entries of the font can be read, the
    check reports the violating entries exactly when some PostScript Name
    contains a character outside A-Za-z0-9 and hyphen or more than one
    hyphen, some Full Font Name or PostScript Name exceeds 63 characters,
    or some Family, Subfamily, Typographic Family or Typographic Subfamily
    name exceeds 31 characters; the report is the single result of the
    check and has the status INFO, and its rows carry exactly the violating
    strings; when no entry violates the limits the check yields PASS
    alone. *)
Theorem family_naming_recommendations_verdicts (get : name_entry_strings)
    (ttFont : TTFont) (ns : NameStrings) :
  reads get ttFont ns ->
  let run := com_google_fonts_check_family_naming_recommendations get ttFont in
  ((exists s, violates ns s) ->
     exists rows,
       rows <> []
       /\ (forall s, s ∈ map value rows <-> violates ns s)
       /\ run = MkGen [bad_entries_report rows] (Ok tt)
       /\ fst (bad_entries_report rows) = INFO)
  /\ (~ (exists s, violates ns s) ->
       run = MkGen [(PASS, Plain "Font follows the family naming recommendations.")]
                   (Ok tt)).
Proof.
  intros Hreads run.
  destruct (collect_bad_entries_eq get ttFont ns Hreads) as (rows & Hrows & Hval).
  subst run. unfold com_google_fonts_check_family_naming_recommendations.
  rewrite Hrows, bind_lift_ok. split.
  - intros [s Hs]. exists rows. apply Hval in Hs.
    assert (rows <> []) as Hne.
    { intros ->. by apply elem_of_nil in Hs. }
    split; [done|]. split; [done|]. split; [|done].
    destruct rows as [|row rows]; [done|]. reflexivity.
  - intros Hno. destruct rows as [|row rows]; [reflexivity|].
    exfalso. apply Hno. exists (value row). apply Hval. left.
Qed.

Lemma family_naming_recommendations_verdicts_witness :
  exists rows,
    com_google_fonts_check_family_naming_recommendations
      get_name_entry_strings_model spaced_psname_font
    = MkGen [bad_entries_report rows] (Ok tt).
Proof.
  destruct (family_naming_recommendations_verdicts get_name_entry_strings_model
              spaced_psname_font
              {| postscript_names := [u "Example Sans"]; full_names := [];
                 family_names := []; subfamily_names := [];
                 typographic_family_names := [];
                 typographic_subfamily_names := [] |}) as [H _].
  - repeat split; reflexivity.
  - destruct H as (rows & _ & _ & H & _).
    + exists (u "Example Sans"). left. split; [left|]. left.
      exists 32%N. split; [right; right; right; right; right; right; right; left|].
      unfold ps_allowed. lia.
    + by exists rows.
Defined.

(** C8, as the specification words it, fails: the report of a violating
    entry has the status INFO, which is neither FAIL nor WARN. *)
Lemma family_naming_recommendations_counterexample :
  let run := com_google_fonts_check_family_naming_recommendations
               get_name_entry_strings_model spaced_psname_font in
  run = MkGen [bad_entries_report [psname_chars_entry (u "Example Sans")]]
              (Ok tt)
  /\ ~ ps_allowed 32
  /\ forall r, r ∈ yielded run -> fst r <> FAIL /\ fst r <> WARN.
Proof.
  split; [vm_compute; reflexivity|]. split; [unfold ps_allowed; lia|].
  intros r. change (yielded _) with
    [bad_entries_report [psname_chars_entry (u "Example Sans")]].
  intros ->%list_elem_of_singleton. by split.
Qed.

(** * Further properties of the checks *)

Lemma for_app {A S} (body : A -> S -> Gen S) (xs ys : list A) (s : S) :
  for_ (xs ++ ys) body s = for_ xs body s ≫= for_ ys body.
Proof.
  revert s. induction xs as [|x xs IH]; intros s.
  - simpl app. rewrite for_nil, bind_ok. by destruct (for_ ys body s).
  - simpl app. rewrite !for_cons.
    destruct (body x s) as [out [s'|e]]; [|reflexivity].
    rewrite !bind_ok, IH.
    destruct (for_ xs body s') as [out' [s''|e]].
    + rewrite !bind_ok. simpl. by rewrite app_assoc.
    + by rewrite !bind_raise.
Qed.

Lemma gset_size_le_1 `{Countable A} (X : gset A) (v : A) :
  (forall x, x ∈ X -> x = v) -> (size X <= 1)%nat.
Proof.
  intros HX. destruct (decide (X = ∅)) as [->|Hne].
  - rewrite size_empty. lia.
  - assert (X = {[v]}) as ->; [|by rewrite size_singleton].
    apply set_eq. intros y. rewrite elem_of_singleton. split; [apply HX|].
    intros ->. apply set_choose_L in Hne as [x Hx].
    by rewrite <- (HX x Hx).
Qed.

Lemma gset_size_gt_1 `{Countable A} (X : gset A) (a b : A) :
  a ∈ X -> b ∈ X -> a <> b -> (1 < size X)%nat.
Proof.
  intros Ha Hb Hab.
  assert (size ({[a]} ∪ {[b]} : gset A) <= size X)%nat as Hle
    by (apply subseteq_size; set_solver).
  rewrite size_union in Hle by set_solver.
  rewrite !size_singleton in Hle. lia.
Qed.

(** ** empty_records, the whole run *)

Lemma is_empty_record_iff (r : NameRecord) :
  is_empty_record r = true <-> exists s, decoded r = Some s /\ blank s.
Proof.
  unfold is_empty_record. destruct (decoded r) as [s|].
  - rewrite Z.eqb_eq. unfold len. split.
    + intros Hl. exists s. split; [done|]. apply strip_nil_iff.
      destruct (strip s); [done|]. simpl in Hl. lia.
    + intros (s' & [= <-] & Hs). apply strip_nil_iff in Hs. by rewrite Hs.
  - split; [done|]. by intros (s & ? & _).
Qed.

Lemma empty_records_loop_ok (l : list NameRecord) (failed : bool) :
  (forall r, r ∈ l -> is_Some (decoded r)) ->
  for_ l empty_records_body failed
  = MkGen (map empty_record (List.filter is_empty_record l))
          (Ok (failed || existsb is_empty_record l)).
Proof.
  intros Hl.
  rewrite (for_pure (fun r => if is_empty_record r then [empty_record r] else [])
                    (fun r (failed : bool) => failed || is_empty_record r)).
  - f_equal.
    + clear Hl. induction l as [|r l IH]; [done|]. simpl.
      destruct (is_empty_record r); simpl; by rewrite IH.
    + f_equal. clear Hl. revert failed.
      induction l as [|r l IH]; intros failed; simpl.
      * by rewrite orb_false_r.
      * by rewrite IH, orb_assoc.
  - intros r b Hr. rewrite empty_records_body_eq. unfold is_empty_record.
    destruct (Hl r Hr) as [s ->].
    destruct (len (strip s) =? 0); [by rewrite orb_true_r|by rewrite orb_false_r].
Qed.

(** X1: on a 'name' table whose records all decode, [empty_records] runs to
    its end and yields, in the order of the table, one FAIL empty-record
    for each record whose string is empty or white space only, and then
    PASS exactly when there is no such record. *)
Theorem empty_records_verdicts (ttFont : TTFont) (t : NameTable) :
  name_table ttFont = Some t ->
  (forall r, r ∈ names t -> is_Some (decoded r)) ->
  let empties := List.filter is_empty_record (names t) in
  com_adobe_fonts_check_name_empty_records ttFont
  = MkGen (map empty_record empties
           ++ match empties with
              | [] => [(PASS, Plain "No empty name table records found.")]
              | _ :: _ => []
              end) (Ok tt)
  /\ (forall r, r ∈ empties
                <-> r ∈ names t /\ exists s, decoded r = Some s /\ blank s).
Proof.
  intros Ht Hdec empties. split.
  - unfold com_adobe_fonts_check_name_empty_records.
    rewrite Ht. simpl getitem.
    rewrite bind_lift_ok, empty_records_loop_ok, bind_ok by done.
    fold empties. simpl orb.
    assert (existsb is_empty_record (names t)
            = match empties with [] => false | _ :: _ => true end) as ->.
    { unfold empties. clear. induction (names t) as [|r l IH]; [done|].
      simpl. by destruct (is_empty_record r). }
    by destruct empties.
  - intros r. unfold empties.
    by rewrite list_elem_of_In, filter_In, <- list_elem_of_In,
      is_empty_record_iff.
Qed.

Lemma empty_records_verdicts_witness :
  com_adobe_fonts_check_name_empty_records blank_records_font
  = MkGen [empty_record (win_english 2 (Some []));
           empty_record (win_english 4 (Some (u "  ")))] (Ok tt).
Proof.
  destruct (empty_records_verdicts blank_records_font
              {| names := [win_english 1 (Some (u "Example"));
                           win_english 2 (Some []);
                           win_english 4 (Some (u "  "))] |} eq_refl)
    as [H _].
  - intros r Hr. repeat (apply elem_of_cons in Hr as [->|Hr]; [simpl; eauto|]).
    by apply elem_of_nil in Hr.
  - exact H.
Defined.

(** X2: when a record of the 'name' table cannot be decoded, [empty_records]
    ends by UnicodeDecodeError at the first such record: the FAILs for the
    blank records before it have been yielded, the records after it are not
    examined, and no PASS is yielded. *)
Theorem empty_records_decode_failure (ttFont : TTFont) (t : NameTable)
    (pre post : list NameRecord) (r : NameRecord) :
  name_table ttFont = Some t ->
  names t = pre ++ r :: post ->
  (forall r', r' ∈ pre -> is_Some (decoded r')) ->
  decoded r = None ->
  com_adobe_fonts_check_name_empty_records ttFont
  = MkGen (map empty_record (List.filter is_empty_record pre))
          (Raise UnicodeDecodeError).
Proof.
  intros Ht Hnames Hpre Hr.
  unfold com_adobe_fonts_check_name_empty_records.
  rewrite Ht. simpl getitem.
  rewrite bind_lift_ok, Hnames, for_app, empty_records_loop_ok by done.
  rewrite bind_ok, for_cons, empty_records_body_eq, Hr, bind_raise. simpl.
  by rewrite app_nil_r.
Qed.

Lemma empty_records_decode_failure_witness :
  com_adobe_fonts_check_name_empty_records blank_then_undecodable_font
  = MkGen [empty_record (win_english 2 (Some []))] (Raise UnicodeDecodeError).
Proof.
  apply (empty_records_decode_failure blank_then_undecodable_font
           {| names := [win_english 2 (Some []); win_english 4 None;
                        win_english 6 (Some [])] |}
           [win_english 2 (Some [])] [win_english 6 (Some [])]
           (win_english 4 None)); try reflexivity.
  intros r' Hr'. apply list_elem_of_singleton in Hr' as ->. simpl. eauto.
Defined.

(** ** consistent_upm, the values in the message *)

Lemma sorted_no_dup_lt (l : list Z) :
  StronglySorted Z.le l -> NoDup l -> StronglySorted Z.lt l.
Proof.
  induction 1 as [|x l Hl IH Hx]; intros Hnd; [constructor|].
  apply NoDup_cons in Hnd as [Hx' Hnd]. constructor; [by apply IH|].
  rewrite Forall_forall in *. intros y Hy.
  assert (x <> y) by (intros ->; done). specialize (Hx y Hy). lia.
Qed.

Lemma sorted_spec (s : gset Z) :
  StronglySorted Z.lt (sorted s) /\ forall v, v ∈ sorted s <-> v ∈ s.
Proof.
  split; [|intros v; apply elem_of_sorted].
  apply sorted_no_dup_lt.
  - unfold sorted. apply StronglySorted_merge_sort; apply _.
  - unfold sorted. rewrite merge_sort_Permutation. apply NoDup_elements.
Qed.

(** X3: when every font has a 'head' table and two unitsPerEm values
    differ, the FAIL inconsistent-upem of [consistent_upm] lists the
    unitsPerEm values of the fonts, each once, in increasing order. *)
Theorem consistent_upm_fail_lists_values (ttFonts : list TTFont) :
  (forall f, f ∈ ttFonts -> is_Some (head_table f)) ->
  (exists f g, f ∈ ttFonts /\ g ∈ ttFonts /\ upm_of f <> upm_of g) ->
  exists upms,
    com_adobe_fonts_check_family_consistent_upm ttFonts
    = MkGen [(FAIL, Message "inconsistent-upem"
                [Lit "Fonts have different units per em: ";
                 FInts upms; Lit "."])] (Ok tt)
    /\ StronglySorted Z.lt upms
    /\ forall v, v ∈ upms <-> exists f, f ∈ ttFonts /\ upm_of f = Some v.
Proof.
  intros Hall (f & g & Hf & Hg & Hne).
  unfold com_adobe_fonts_check_family_consistent_upm.
  rewrite add_upm_loop_ok by (by apply Forall_forall).
  rewrite bind_ok. simpl. rewrite (left_id_L ∅ (∪)).
  assert (forall v, v ∈ (list_to_set (omap upm_of ttFonts) : gset Z)
                    <-> exists f, f ∈ ttFonts /\ upm_of f = Some v) as Hin.
  { intros v. by rewrite elem_of_list_to_set, list_elem_of_omap. }
  destruct (decide _) as [Hlt|Hle].
  - eexists. split; [reflexivity|].
    destruct (sorted_spec (list_to_set (omap upm_of ttFonts))) as [Hs Hm].
    split; [done|]. intros v. by rewrite Hm, Hin.
  - exfalso. apply Hle.
    destruct (Hall f Hf) as [hf Hhf], (Hall g Hg) as [hg Hhg].
    apply (size_gt_1_two _ (unitsPerEm hf) (unitsPerEm hg)).
    + apply Hin. exists f. split; [done|]. unfold upm_of. by rewrite Hhf.
    + apply Hin. exists g. split; [done|]. unfold upm_of. by rewrite Hhg.
    + intros Heq. apply Hne. unfold upm_of. rewrite Hhf, Hhg. simpl.
      by rewrite Heq.
Qed.

Lemma consistent_upm_fail_lists_values_witness :
  exists upms,
    com_adobe_fonts_check_family_consistent_upm
      [font_with_upm 2048; font_with_upm 1000; font_with_upm 2048]
    = MkGen [(FAIL, Message "inconsistent-upem"
                [Lit "Fonts have different units per em: ";
                 FInts upms; Lit "."])] (Ok tt)
    /\ StronglySorted Z.lt upms.
Proof.
  destruct (consistent_upm_fail_lists_values
              [font_with_upm 2048; font_with_upm 1000; font_with_upm 2048])
    as (upms & H & Hs & _).
  - intros f Hf. repeat (apply elem_of_cons in Hf as [->|Hf]; [simpl; eauto|]).
    by apply elem_of_nil in Hf.
  - exists (font_with_upm 2048), (font_with_upm 1000).
    split; [left|]. split; [right; left|]. vm_compute. discriminate.
  - by exists upms.
Defined.

(** ** postscript_name_consistency *)

Lemma str_leb_total (a b : pystr) : str_leb a b = true \/ str_leb b a = true.
Proof.
  revert b. induction a as [|x a IH]; intros [|y b]; simpl; auto.
  destruct (N.lt_trichotomy x y) as [Hlt|[->|Hgt]].
  - left. apply N.ltb_lt in Hlt. by rewrite Hlt.
  - rewrite N.eqb_refl, N.ltb_irrefl. simpl. apply IH.
  - right. apply N.ltb_lt in Hgt. by rewrite Hgt.
Qed.

Lemma str_leb_trans (a b c : pystr) :
  str_leb a b = true -> str_leb b c = true -> str_leb a c = true.
Proof.
  revert b c. induction a as [|x a IH]; intros [|y b] [|z c]; simpl; try done.
  rewrite !orb_true_iff, !andb_true_iff, !N.ltb_lt, !N.eqb_eq.
  intros [Hxy|[-> Hab]] [Hyz|[-> Hbc]].
  - left. lia.
  - by left.
  - by left.
  - right. split; [done|]. by apply (IH b).
Qed.

#[global] Instance str_le_total : Total str_le.
Proof. intros a b. apply str_leb_total. Qed.

#[global] Instance str_le_trans : Transitive str_le.
Proof. intros a b c. apply str_leb_trans. Qed.

Lemma sorted_strs_spec (s : gset pystr) :
  StronglySorted str_le (sorted_strs s) /\ NoDup (sorted_strs s)
  /\ forall v, v ∈ sorted_strs s <-> v ∈ s.
Proof.
  unfold sorted_strs. split; [|split].
  - apply StronglySorted_merge_sort; apply _.
  - rewrite merge_sort_Permutation. apply NoDup_elements.
  - intros v. by rewrite merge_sort_Permutation, elem_of_elements.
Qed.

Lemma add_postscript_name_eq (r : NameRecord) (s : gset pystr) :
  add_postscript_name r s
  = if nameID r =? NameID.POSTSCRIPT_NAME then
      match decoded r with
      | Some v => MkGen [] (Ok (s ∪ {[v]}))
      | None => MkGen [] (Raise UnicodeDecodeError)
      end
    else MkGen [] (Ok s).
Proof.
  unfold add_postscript_name, toUnicode.
  destruct (nameID r =? NameID.POSTSCRIPT_NAME); [|done].
  by destruct (decoded r).
Qed.

Lemma add_postscript_name_loop (l : list NameRecord) (s : gset pystr) :
  (forall r, r ∈ l -> is_postscript_name r -> is_Some (decoded r)) ->
  for_ l add_postscript_name s
  = MkGen [] (Ok (s ∪ list_to_set (omap decoded (filter is_postscript_name l)))).
Proof.
  revert s. induction l as [|r l IH]; intros s Hl.
  - rewrite for_nil. f_equal. f_equal. set_solver.
  - rewrite for_cons, add_postscript_name_eq.
    destruct (nameID r =? NameID.POSTSCRIPT_NAME) eqn:Hid.
    + apply Z.eqb_eq in Hid.
      destruct (Hl r) as [v Hv]; [left|done|].
      rewrite Hv, bind_ok, IH by (intros; apply Hl; [by right|done]).
      rewrite filter_cons_True by done. simpl. rewrite Hv. simpl.
      f_equal. f_equal. set_solver.
    + apply Z.eqb_neq in Hid.
      rewrite bind_ok, IH by (intros; apply Hl; [by right|done]).
      by rewrite filter_cons_False.
Qed.

(** X4: [postscript_name_consistency] decodes the records with nameID 6
    and no others.  When these decode, it yields exactly one result: PASS
    when they all carry the same string (also when there is none), and
    otherwise a FAIL inconsistency that lists the distinct PostScript names,
    each once, in the order of their code points. *)
Theorem postscript_name_consistency_verdicts (ttFont : TTFont) (t : NameTable) :
  name_table ttFont = Some t ->
  (forall r, r ∈ names t -> is_postscript_name r -> is_Some (decoded r)) ->
  let run := com_adobe_fonts_check_name_postscript_name_consistency ttFont in
  ((exists v, forall r, r ∈ names t -> is_postscript_name r ->
                        decoded r = Some v) ->
     run = MkGen [postscript_names_consistent] (Ok tt))
  /\ ((exists r r', r ∈ names t /\ r' ∈ names t /\ is_postscript_name r
                    /\ is_postscript_name r' /\ decoded r <> decoded r') ->
      exists strs,
        run = MkGen [(FAIL, Message "inconsistency"
                        [Lit "Entries in the "; DQ; Lit "name"; DQ;
                         Lit " table for ID 6";
                         Lit " (PostScript name) are not consistent.";
                         Lit " Names found: "; FStrs strs; Lit "."])] (Ok tt)
        /\ StronglySorted str_le strs /\ NoDup strs
        /\ forall v, v ∈ strs
                     <-> exists r, r ∈ names t /\ is_postscript_name r
                                   /\ decoded r = Some v).
Proof.
  intros Ht Hdec run. subst run.
  unfold com_adobe_fonts_check_name_postscript_name_consistency.
  rewrite Ht. simpl getitem.
  rewrite bind_lift_ok, add_postscript_name_loop, bind_ok by done.
  rewrite (left_id_L ∅ (∪)). fold (postscript_names_of t).
  assert (forall v, v ∈ (list_to_set (postscript_names_of t) : gset pystr)
                    <-> exists r, r ∈ names t /\ is_postscript_name r
                                  /\ decoded r = Some v) as Hin.
  { intros v. unfold postscript_names_of.
    rewrite elem_of_list_to_set, list_elem_of_omap. split.
    - intros (r & [Hps Hr]%list_elem_of_filter & Hv). eauto.
    - intros (r & Hr & Hps & Hv). exists r. split; [|done].
      by apply list_elem_of_filter. }
  split.
  - intros [v Hv]. destruct (decide _) as [Hlt|Hle]; [|reflexivity].
    exfalso.
    assert (size (list_to_set (postscript_names_of t) : gset pystr) <= 1)%nat;
      [|lia].
    apply (gset_size_le_1 _ v). intros x (r & Hr & Hps & Hx)%Hin.
    rewrite (Hv r Hr Hps) in Hx. congruence.
  - intros (r & r' & Hr & Hr' & Hps & Hps' & Hne).
    destruct (Hdec r Hr Hps) as [v Hv], (Hdec r' Hr' Hps') as [v' Hv'].
    destruct (decide _) as [Hlt|Hle].
    + eexists. split; [reflexivity|].
      destruct (sorted_strs_spec (list_to_set (postscript_names_of t)))
        as (Hs & Hnd & Hm).
      split; [done|]. split; [done|]. intros x. by rewrite Hm, Hin.
    + exfalso. apply Hle. apply (gset_size_gt_1 _ v v').
      * apply Hin. eauto.
      * apply Hin. eauto.
      * congruence.
Qed.

Lemma postscript_name_consistency_verdicts_witness :
  exists strs,
    com_adobe_fonts_check_name_postscript_name_consistency two_psnames_font
    = MkGen [(FAIL, Message "inconsistency"
                [Lit "Entries in the "; DQ; Lit "name"; DQ;
                 Lit " table for ID 6";
                 Lit " (PostScript name) are not consistent.";
                 Lit " Names found: "; FStrs strs; Lit "."])] (Ok tt)
    /\ NoDup strs.
Proof.
  destruct (postscript_name_consistency_verdicts two_psnames_font
              {| names := [win_english 6 (Some (u "Example-Bold"));
                           win_english 1 None;
                           win_german 6 (Some (u "Example-Black"))] |} eq_refl)
    as [_ H].
  - intros r Hr Hps. simpl in Hr.
    rewrite !elem_of_cons, elem_of_nil in Hr.
    destruct Hr as [->|[->|[->|[]]]].
    + simpl. eauto.
    + unfold is_postscript_name in Hps. simpl in Hps. discriminate.
    + simpl. eauto.
  - destruct H as (strs & H & _ & Hnd & _).
    + exists (win_english 6 (Some (u "Example-Bold"))),
             (win_german 6 (Some (u "Example-Black"))).
      split; [left|]. split; [right; right; left|].
      split; [reflexivity|]. split; [reflexivity|]. simpl. discriminate.
    + exists strs. split; [exact H|exact Hnd].
Defined.

(** ** postscript_vs_cff *)

Section PostscriptVsCffProperties.

Variable fontNames : CFFTable -> list pystr.

Lemma postscript_vs_cff_body_eq (cff_name : pystr) (r : NameRecord)
    (passed : bool) :
  (is_postscript_name r -> is_Some (decoded r)) ->
  postscript_vs_cff_body cff_name r passed
  = MkGen (if mismatches cff_name r then [mismatch_of cff_name r] else [])
          (Ok (passed && negb (mismatches cff_name r))).
Proof.
  intros Hdec. unfold postscript_vs_cff_body, mismatches, mismatch_of, toUnicode.
  destruct (nameID r =? NameID.POSTSCRIPT_NAME) eqn:Hid.
  2:{ simpl. by rewrite ret_gen, andb_true_r. }
  apply Z.eqb_eq in Hid. destruct (Hdec Hid) as [v Hv]. rewrite Hv.
  rewrite bind_lift_ok.
  destruct (decide (v = cff_name)) as [->|Hne].
  - rewrite !bool_decide_eq_true_2 by done. simpl.
    by rewrite ret_gen, andb_true_r.
  - rewrite (bool_decide_eq_false_2 (v = cff_name)) by done.
    rewrite (bool_decide_eq_false_2 (Some v = Some cff_name)) by congruence.
    simpl. by rewrite andb_false_r.
Qed.

(** X5: [postscript_vs_cff] reads the 'name' table only when the 'CFF '
    table has exactly one font name: with another number of names it yields
    FAIL cff-name-error alone, whatever the 'name' table is, even absent.
    With one name, and the nameID 6 records decoding, it yields one FAIL
    ps-cff-name-mismatch for each nameID 6 record whose string is not that
    name, in the order of the table, and PASS exactly when there is none. *)
Theorem postscript_vs_cff_verdicts (ttFont : TTFont) (cff : CFFTable) :
  CFF_table ttFont = Some cff ->
  let run := com_adobe_fonts_check_name_postscript_vs_cff fontNames ttFont in
  (length (fontNames cff) <> 1%nat ->
     run = MkGen [(FAIL, Message "cff-name-error"
                     [Lit "Unexpected number of font names in CFF table."])]
                 (Ok tt))
  /\ (forall cff_name t,
        fontNames cff = [cff_name] ->
        name_table ttFont = Some t ->
        (forall r, r ∈ names t -> is_postscript_name r -> is_Some (decoded r)) ->
        let bad := List.filter (mismatches cff_name) (names t) in
        run = MkGen (map (mismatch_of cff_name) bad
                     ++ match bad with
                        | [] => [(PASS, Plain "Name table PostScript name matches CFF table FontName.")]
                        | _ :: _ => []
                        end) (Ok tt)
        /\ (bad = [] <-> forall r, r ∈ names t -> is_postscript_name r ->
                                   decoded r = Some cff_name)).
Proof.
  intros Hcff run. subst run.
  unfold com_adobe_fonts_check_name_postscript_vs_cff.
  rewrite Hcff. simpl getitem. rewrite bind_lift_ok. split.
  - intros Hlen. unfold len.
    destruct (Z.of_nat (length (fontNames cff)) =? 1) eqn:Heq; [|reflexivity].
    apply Z.eqb_eq in Heq. lia.
  - intros cff_name t Hnames Ht Hdec.
    set (bad := List.filter (mismatches cff_name) (names t)).
    rewrite Hnames, Ht.
    change (len [cff_name] =? 1) with true. simpl negb. simpl index0.
    simpl getitem. rewrite !bind_lift_ok.
    rewrite (for_pure
               (fun r => if mismatches cff_name r
                         then [mismatch_of cff_name r] else [])
               (fun r (passed : bool) => passed && negb (mismatches cff_name r))).
    2:{ intros r passed Hr. apply postscript_vs_cff_body_eq. by apply Hdec. }
    rewrite bind_ok.
    assert (forall passed : bool,
              fold_left (fun (s : bool) (x : NameRecord) =>
                           s && negb (mismatches cff_name x)) (names t) passed
              = passed && match bad with [] => true | _ :: _ => false end)
      as ->.
    { unfold bad. clear. induction (names t) as [|r l IH]; intros passed; simpl.
      - by rewrite andb_true_r.
      - rewrite IH. destruct (mismatches cff_name r); simpl;
          [by rewrite andb_false_r|by rewrite andb_true_r]. }
    assert (flat_map (fun r => if mismatches cff_name r
                               then [mismatch_of cff_name r] else []) (names t)
            = map (mismatch_of cff_name) bad) as ->.
    { unfold bad. clear. induction (names t) as [|r l IH]; [done|]. simpl.
      destruct (mismatches cff_name r); simpl; by rewrite IH. }
    split; [by destruct bad|].
    unfold bad. split.
    + intros Hnil r Hr Hps.
      assert (mismatches cff_name r = false) as Hm.
      { destruct (mismatches cff_name r) eqn:Hm; [|done].
        assert (In r (List.filter (mismatches cff_name) (names t))) as Hin
          by (apply filter_In; split; [by apply list_elem_of_In|done]).
        rewrite Hnil in Hin. destruct Hin. }
      unfold mismatches in Hm. unfold is_postscript_name in Hps.
      rewrite Hps, Z.eqb_refl in Hm. simpl in Hm.
      apply negb_false_iff, bool_decide_eq_true in Hm. done.
    + intros Hall.
      destruct (List.filter (mismatches cff_name) (names t)) as [|r l] eqn:Hf;
        [done|].
      assert (In r (List.filter (mismatches cff_name) (names t))) as Hin
        by (rewrite Hf; left; done).
      apply filter_In in Hin as [Hr Hm]. apply list_elem_of_In in Hr.
      unfold mismatches in Hm. apply andb_true_iff in Hm as [Hid Hm].
      apply Z.eqb_eq in Hid. rewrite (Hall r Hr Hid) in Hm.
      by rewrite bool_decide_eq_true_2 in Hm.
Qed.

End PostscriptVsCffProperties.

Lemma postscript_vs_cff_verdicts_witness :
  com_adobe_fonts_check_name_postscript_vs_cff
    (fun _ => [u "Example-Bold"]) cff_two_psnames_font
  = MkGen [ps_cff_name_mismatch (u "Example-Black") (u "Example-Bold")] (Ok tt)
  /\ com_adobe_fonts_check_name_postscript_vs_cff
       (fun _ => []) cff_without_names_font
     = MkGen [(FAIL, Message "cff-name-error"
                 [Lit "Unexpected number of font names in CFF table."])]
             (Ok tt).
Proof.
  split.
  - destruct (postscript_vs_cff_verdicts (fun _ => [u "Example-Bold"])
                cff_two_psnames_font {| topDictIndex := [] |} eq_refl)
      as [_ H].
    destruct (H (u "Example-Bold")
                {| names := [win_english 6 (Some (u "Example-Bold"));
                             win_english 1 None;
                             win_german 6 (Some (u "Example-Black"))] |}
                eq_refl eq_refl) as [Hrun _].
    + intros r Hr Hps. simpl in Hr.
      rewrite !elem_of_cons, elem_of_nil in Hr.
      destruct Hr as [->|[->|[->|[]]]].
      * simpl. eauto.
      * unfold is_postscript_name in Hps. simpl in Hps. discriminate.
      * simpl. eauto.
    + exact Hrun.
  - apply (proj1 (postscript_vs_cff_verdicts (fun _ => [])
                    cff_without_names_font {| topDictIndex := [] |} eq_refl)).
    simpl. discriminate.
Defined.

(** ** no_copyright_on_description *)

Lemma for_o_app {A S} (body : A -> S -> outcome S) (xs ys : list A) (s : S) :
  for_o (xs ++ ys) body s = for_o xs body s ≫= for_o ys body.
Proof.
  revert s. induction xs as [|x xs IH]; intros s; [done|].
  simpl. destruct (body x s) as [s'|e]; [|done]. apply IH.
Qed.

Lemma substring_in_iff (needle s : pystr) :
  substring_in needle s = true <-> exists pre post, s = pre ++ needle ++ post.
Proof.
  induction s as [|c s IH].
  - cbn [substring_in]. rewrite orb_false_r, startswith_prefix. split.
    + intros [k Hk]. by exists [], k.
    + intros (pre & post & H). destruct pre; [by exists post|discriminate].
  - cbn [substring_in]. rewrite orb_true_iff, startswith_prefix, IH. split.
    + intros [[k Hk]|(pre & post & ->)]; [by exists [], k|].
      by exists (c :: pre), post.
    + intros ([|c' pre] & post & H); [left; by exists post|].
      right. injection H as -> ->. eauto.
Qed.

Section NoCopyrightProperties.

Variable string_decode : NameRecord -> outcome pystr.
Variable DESCRIPTION : Z.

Lemma copyright_step_eq (r : NameRecord) (failed : bool) (s : pystr) :
  string_decode r = Ok s ->
  copyright_step string_decode DESCRIPTION r failed
  = Ok (failed || flagged string_decode DESCRIPTION r).
Proof.
  intros Hs. unfold copyright_step, flagged. rewrite Hs.
  change (Ok s ≫= ?k) with (k s). cbv beta.
  destruct (substring_in (u "opyright") s && (nameID r =? DESCRIPTION));
    [by rewrite orb_true_r|by rewrite orb_false_r].
Qed.

Lemma copyright_loop_ok (l : list NameRecord) (failed : bool) :
  (forall r, r ∈ l -> exists s, string_decode r = Ok s) ->
  for_o l (copyright_step string_decode DESCRIPTION) failed
  = Ok (failed || existsb (flagged string_decode DESCRIPTION) l).
Proof.
  intros Hl.
  rewrite (for_o_pure (fun r (failed : bool) =>
                         failed || flagged string_decode DESCRIPTION r)).
  - f_equal. clear Hl. revert failed.
    induction l as [|r l IH]; intros failed; simpl.
    + by rewrite orb_false_r.
    + by rewrite IH, orb_assoc.
  - intros r b Hr. destruct (Hl r Hr) as [s Hs]. by eapply copyright_step_eq.
Qed.

(** X6: [no_copyright_on_description] decodes every record of the 'name'
    table, whatever its name id.  When they all decode it yields exactly
    one result: FAIL copyright-on-description when the string of some
    record with the name id of the description contains 'opyright', and
    PASS otherwise.  When one of them cannot be decoded, the check yields
    nothing and ends by the exception of the first such record, also when
    that record is not a description. *)
Theorem no_copyright_on_description_verdicts (ttFont : TTFont) (t : NameTable) :
  name_table ttFont = Some t ->
  let run := com_google_fonts_check_name_no_copyright_on_description
               string_decode DESCRIPTION ttFont in
  let offending :=
    exists r s pre post, r ∈ names t /\ nameID r = DESCRIPTION
                         /\ string_decode r = Ok s
                         /\ s = pre ++ u "opyright" ++ post in
  ((forall r, r ∈ names t -> exists s, string_decode r = Ok s) ->
     (offending -> run = MkGen [copyright_on_description DESCRIPTION] (Ok tt))
     /\ (~ offending ->
         run = MkGen [(PASS, Plain "Description strings in the name table do not contain any copyright string.")]
                     (Ok tt)))
  /\ (forall pre r post e,
        names t = pre ++ r :: post ->
        (forall r', r' ∈ pre -> exists s, string_decode r' = Ok s) ->
        string_decode r = Raise e ->
        run = MkGen [] (Raise e)).
Proof.
  intros Ht run offending. subst run.
  unfold com_google_fonts_check_name_no_copyright_on_description.
  rewrite Ht. simpl getitem. rewrite bind_lift_ok. split.
  - intros Hdec. rewrite copyright_loop_ok, bind_lift_ok by done. simpl orb.
    assert (existsb (flagged string_decode DESCRIPTION) (names t) = true
            <-> offending) as Hiff.
    { rewrite existsb_exists. unfold offending, flagged. split.
      - intros (r & Hr & Hf). apply list_elem_of_In in Hr.
        destruct (Hdec r Hr) as [s Hs]. rewrite Hs in Hf.
        apply andb_true_iff in Hf as [Hsub Hid].
        apply substring_in_iff in Hsub as (pre & post & ->).
        apply Z.eqb_eq in Hid. exists r. eauto 10.
      - intros (r & s & pre & post & Hr & Hid & Hs & ->).
        exists r. split; [by apply list_elem_of_In|].
        rewrite Hs. apply andb_true_iff. split; [|by apply Z.eqb_eq].
        apply substring_in_iff. eauto. }
    split.
    + intros Hoff. apply Hiff in Hoff. by rewrite Hoff.
    + intros Hno.
      destruct (existsb (flagged string_decode DESCRIPTION) (names t));
        [|done].
      exfalso. by apply Hno, Hiff.
  - intros pre r post e Hnames Hpre Hr.
    rewrite Hnames, for_o_app, copyright_loop_ok by done.
    change (Ok ?b ≫= ?k) with (k b). cbv beta.
    generalize (false || existsb (flagged string_decode DESCRIPTION) pre).
    intros b. simpl for_o.
    assert (copyright_step string_decode DESCRIPTION r b = Raise e) as ->;
      [|done].
    unfold copyright_step. by rewrite Hr.
Qed.

End NoCopyrightProperties.

Lemma no_copyright_on_description_verdicts_witness :
  com_google_fonts_check_name_no_copyright_on_description toUnicode 10
    copyright_description_font
  = MkGen [copyright_on_description 10] (Ok tt)
  /\ com_google_fonts_check_name_no_copyright_on_description toUnicode 10
       undecodable_family_font
     = MkGen [] (Raise UnicodeDecodeError).
Proof.
  split.
  - destruct (no_copyright_on_description_verdicts toUnicode 10
                copyright_description_font
                {| names := [win_english 0 (Some (u "Copyright 2020 Example"));
                             win_english 10 (Some (u "A Copyright notice"))] |}
                eq_refl) as [H _].
    destruct H as [H _].
    + intros r Hr. simpl in Hr. rewrite !elem_of_cons, elem_of_nil in Hr.
      destruct Hr as [->|[->|[]]]; eexists; reflexivity.
    + apply H.
      exists (win_english 10 (Some (u "A Copyright notice"))),
             (u "A Copyright notice"), (u "A C"), (u " notice").
      split; [right; left|]. split; [reflexivity|]. split; reflexivity.
  - destruct (no_copyright_on_description_verdicts toUnicode 10
                undecodable_family_font
                {| names := [win_english 10 (Some (u "A Copyright notice"));
                             win_english 1 None;
                             win_english 10 (Some (u "Another"))] |}
                eq_refl) as [_ H].
    apply (H [win_english 10 (Some (u "A Copyright notice"))]
             (win_english 1 None) [win_english 10 (Some (u "Another"))]).
    + reflexivity.
    + intros r' Hr'. apply list_elem_of_singleton in Hr' as ->.
      eexists. reflexivity.
    + reflexivity.
Defined.

(** ** monospace *)

Section MonospaceProperties.

Variable LATIN_TEXT LATIN_HAND_WRITTEN LATIN_SYMBOL : Z.

Lemma monospace_tables_present (ttFont : TTFont)
    (glyf : GlyfTable) (hhea : HheaTable) (hmtx : HmtxTable) (os2 : OS2Table)
    (post : PostTable) :
  monospace_tables ttFont glyf hhea hmtx os2 post ->
  for_ required
    (fun key (missing_tables : bool) =>
       if negb (in_font ttFont key)
       then yield (lacks key) ≫= (fun _ => mret true)
       else mret missing_tables) false
  = MkGen [] (Ok false).
Proof.
  intros (Hg & Hh & Hm & Ho & Hp).
  unfold required, in_font. simpl. rewrite Hg, Hh, Hm, Ho, Hp. reflexivity.
Qed.

(** X7: on a font that has its five tables and does not seem monospaced,
    [monospace] runs to its end without reading the glyphs: it yields, in
    this order, FAIL bad-advanceWidthMax when hhea.advanceWidthMax is not
    the maximum width, FAIL bad-post-isFixedPitch when post.isFixedPitch is
    not 0, FAIL bad-panose when the PANOSE proportion is 9, and PASS good
    exactly when none of the three was yielded. *)
Theorem monospace_not_monospaced (ttFont : TTFont) (stats : GlyphMetricsStats)
    (glyf : GlyfTable) (hhea : HheaTable) (hmtx : HmtxTable) (os2 : OS2Table)
    (post : PostTable) :
  monospace_tables ttFont glyf hhea hmtx os2 post ->
  seems_monospaced stats = false ->
  let advance_ok := advanceWidthMax hhea =? width_max stats in
  let fixed_ok := isFixedPitch post =? 0 in
  let panose_ok := negb (bProportion (panose os2) =? 9) in
  com_google_fonts_check_monospace LATIN_TEXT LATIN_HAND_WRITTEN LATIN_SYMBOL
    ttFont stats
  = MkGen ((if advance_ok then []
            else [bad_advanceWidthMax (width_max stats) (advanceWidthMax hhea)])
           ++ (if fixed_ok then []
               else [bad_post_isFixedPitch (isFixedPitch post)])
           ++ (if panose_ok then [] else [bad_panose])
           ++ (if advance_ok && fixed_ok && panose_ok
               then [not_monospaced_good] else []))
          (Ok tt).
Proof.
  intros Htables Hs advance_ok fixed_ok panose_ok.
  subst advance_ok fixed_ok panose_ok.
  unfold com_google_fonts_check_monospace.
  rewrite (monospace_tables_present _ _ _ _ _ _ Htables), bind_ok.
  destruct Htables as (Hg & Hh & Hm & Ho & Hp).
  rewrite Hh, Hs, Hp, Ho.
  cbv beta iota delta [mbind mret Gen_bind Gen_ret lift yield yielded
                       completion getitem IsFixedWidth.NOT_MONOSPACED
                       PANOSE_Proportion.MONOSPACED].
  destruct (advanceWidthMax hhea =? width_max stats),
           (isFixedPitch post =? 0),
           (bProportion (panose os2) =? 9); reflexivity.
Qed.

End MonospaceProperties.

Lemma monospace_not_monospaced_witness :
  com_google_fonts_check_monospace 2 3 5
    (metrics_font 1000 1 {| bFamilyType := 2; bProportion := 3; bSpacing := 0 |}
       [(u "A", 600); (u "B", 1000)])
    {| seems_monospaced := false; most_common_width := 600; width_max := 1000 |}
  = MkGen [bad_post_isFixedPitch 1] (Ok tt).
Proof.
  apply (monospace_not_monospaced 2 3 5
           (metrics_font 1000 1
              {| bFamilyType := 2; bProportion := 3; bSpacing := 0 |}
              [(u "A", 600); (u "B", 1000)])
           {| seems_monospaced := false; most_common_width := 600;
              width_max := 1000 |}
           _ _ _ _ _ (conj eq_refl (conj eq_refl (conj eq_refl
                        (conj eq_refl eq_refl)))) eq_refl).
Defined.

Lemma fold_left_filter {A} (p : A -> bool) (xs acc : list A) :
  fold_left (fun acc x => if p x then acc ++ [x] else acc) xs acc
  = acc ++ List.filter p xs.
Proof.
  revert acc. induction xs as [|x xs IH]; intros acc; simpl.
  - by rewrite app_nil_r.
  - rewrite IH. destruct (p x); [|done]. by rewrite <- app_assoc.
Qed.

Lemma unusually_spaced_ok (ttFont : TTFont) (hmtx : HmtxTable)
    (most_common_width : Z) (glyph_names : list pystr) :
  hmtx_table ttFont = Some hmtx ->
  widths_known hmtx glyph_names ->
  unusually_spaced ttFont most_common_width glyph_names
  = Ok (List.filter (unusual_width hmtx most_common_width) glyph_names).
Proof.
  intros Hm Hknown. unfold unusually_spaced.
  rewrite (for_o_pure (fun g acc =>
             if unusual_width hmtx most_common_width g
             then acc ++ [g] else acc)).
  - by rewrite fold_left_filter.
  - intros g acc Hg. unfold unusual_width. rewrite Hm.
    destruct (bool_decide (g ∈ [u ".notdef"; u ".null"; u "NULL"])) eqn:Hex;
      [done|].
    apply bool_decide_eq_false in Hex. destruct (Hknown g Hg Hex) as [m Hgm].
    simpl. rewrite Hgm. simpl.
    destruct (fst m =? 0); simpl; [done|].
    by destruct (fst m =? most_common_width).
Qed.

Section MonospacedProperties.

Variable LATIN_TEXT LATIN_HAND_WRITTEN LATIN_SYMBOL : Z.

(** X8: on a font that has its five tables, seems monospaced, has at
    least one glyph and has the advance widths of its glyphs in 'hmtx',
    [monospace] runs to its end and yields, in this order, FAIL
    bad-advanceWidthMax when hhea.advanceWidthMax is not the maximum width,
    FAIL mono-bad-post-isFixedPitch when post.isFixedPitch is 0, FAIL
    mono-bad-panose when the PANOSE numbers are not those of a monospaced
    font, WARN mono-outliers with the glyphs, other than '.notdef', '.null'
    and 'NULL', whose advance width is neither 0 nor the most common
    width, and PASS mono-good exactly when none of the four was yielded. *)
Theorem monospace_monospaced (ttFont : TTFont) (stats : GlyphMetricsStats)
    (glyf : GlyfTable) (hhea : HheaTable) (hmtx : HmtxTable) (os2 : OS2Table)
    (post : PostTable) :
  monospace_tables ttFont glyf hhea hmtx os2 post ->
  seems_monospaced stats = true ->
  glyphs glyf <> [] ->
  widths_known hmtx (map fst (glyphs glyf)) ->
  let advance_ok := advanceWidthMax hhea =? width_max stats in
  let fixed_ok := negb (isFixedPitch post =? 0) in
  let panose_ok := PANOSE_is_monospaced LATIN_TEXT LATIN_HAND_WRITTEN
                     LATIN_SYMBOL (panose os2) in
  let outliers := List.filter (unusual_width hmtx (most_common_width stats))
                              (map fst (glyphs glyf)) in
  com_google_fonts_check_monospace LATIN_TEXT LATIN_HAND_WRITTEN LATIN_SYMBOL
    ttFont stats
  = MkGen ((if advance_ok then []
            else [bad_advanceWidthMax (width_max stats) (advanceWidthMax hhea)])
           ++ (if fixed_ok then []
               else [mono_bad_post_isFixedPitch (isFixedPitch post)])
           ++ (if panose_ok then []
               else [mono_bad_panose LATIN_TEXT LATIN_HAND_WRITTEN LATIN_SYMBOL
                       (bFamilyType (panose os2))])
           ++ match outliers with
              | [] => []
              | _ :: _ => [mono_outliers outliers (len (glyphs glyf))]
              end
           ++ (if advance_ok && fixed_ok && panose_ok
                  && match outliers with [] => true | _ :: _ => false end
               then [mono_good] else []))
          (Ok tt).
Proof.
  intros Htables Hs Hne Hknown advance_ok fixed_ok panose_ok outliers.
  subst advance_ok fixed_ok panose_ok.
  unfold com_google_fonts_check_monospace.
  rewrite (monospace_tables_present _ _ _ _ _ _ Htables), bind_ok.
  destruct Htables as (Hg & Hh & Hm & Ho & Hp).
  rewrite Hh, Hs, Hp, Ho, Hg.
  assert ((len (glyphs glyf) =? 0) = false) as Hlen.
  { unfold len. destruct (glyphs glyf); [done|]. simpl. lia. }
  assert ((0 <? len outliers)
          = match outliers with [] => false | _ :: _ => true end) as Hout.
  { unfold len. by destruct outliers. }
  cbv beta iota delta [mbind mret Gen_bind Gen_ret lift yield yielded
                       completion getitem negb IsFixedWidth.NOT_MONOSPACED];
    destruct (advanceWidthMax hhea =? width_max stats);
    cbv beta iota;
    destruct (isFixedPitch post =? 0);
    cbv beta iota;
    destruct (PANOSE_is_monospaced LATIN_TEXT LATIN_HAND_WRITTEN LATIN_SYMBOL
                (panose os2));
    cbv beta iota;
    rewrite (unusually_spaced_ok ttFont hmtx _ _ Hm Hknown);
    fold outliers; unfold outliers_ratio_positive; rewrite Hlen, Hout;
    destruct outliers; reflexivity.
Qed.

(** X9: on a font that has its five tables and seems monospaced but whose
    'glyf' table has no glyph, [monospace] ends by ZeroDivisionError, after
    the FAILs on hhea.advanceWidthMax, post.isFixedPitch and the PANOSE
    numbers that apply have been yielded; no WARN and no PASS is yielded. *)
Theorem monospace_no_glyphs (ttFont : TTFont) (stats : GlyphMetricsStats)
    (glyf : GlyfTable) (hhea : HheaTable) (hmtx : HmtxTable) (os2 : OS2Table)
    (post : PostTable) :
  monospace_tables ttFont glyf hhea hmtx os2 post ->
  seems_monospaced stats = true ->
  glyphs glyf = [] ->
  com_google_fonts_check_monospace LATIN_TEXT LATIN_HAND_WRITTEN LATIN_SYMBOL
    ttFont stats
  = MkGen ((if advanceWidthMax hhea =? width_max stats then []
            else [bad_advanceWidthMax (width_max stats) (advanceWidthMax hhea)])
           ++ (if isFixedPitch post =? 0
               then [mono_bad_post_isFixedPitch (isFixedPitch post)] else [])
           ++ (if PANOSE_is_monospaced LATIN_TEXT LATIN_HAND_WRITTEN
                    LATIN_SYMBOL (panose os2)
               then []
               else [mono_bad_panose LATIN_TEXT LATIN_HAND_WRITTEN LATIN_SYMBOL
                       (bFamilyType (panose os2))]))
          (Raise ZeroDivisionError).
Proof.
  intros Htables Hs Hnil.
  unfold com_google_fonts_check_monospace.
  rewrite (monospace_tables_present _ _ _ _ _ _ Htables), bind_ok.
  destruct Htables as (Hg & Hh & Hm & Ho & Hp).
  rewrite Hh, Hs, Hp, Ho, Hg.
  cbv beta iota delta [mbind mret Gen_bind Gen_ret lift yield yielded
                       completion getitem negb IsFixedWidth.NOT_MONOSPACED];
    destruct (advanceWidthMax hhea =? width_max stats);
    cbv beta iota;
    destruct (isFixedPitch post =? 0);
    cbv beta iota;
    destruct (PANOSE_is_monospaced LATIN_TEXT LATIN_HAND_WRITTEN LATIN_SYMBOL
                (panose os2));
    cbv beta iota;
    rewrite Hnil; reflexivity.
Qed.

End MonospacedProperties.

Lemma monospace_monospaced_witness :
  com_google_fonts_check_monospace 2 3 5
    (metrics_font 600 1 {| bFamilyType := 2; bProportion := 9; bSpacing := 0 |}
       [(u ".notdef", 500); (u "A", 600); (u "B", 650); (u "C", 0)])
    {| seems_monospaced := true; most_common_width := 600; width_max := 600 |}
  = MkGen [mono_outliers [u "B"] 4] (Ok tt).
Proof.
  apply (monospace_monospaced 2 3 5
           (metrics_font 600 1
              {| bFamilyType := 2; bProportion := 9; bSpacing := 0 |}
              [(u ".notdef", 500); (u "A", 600); (u "B", 650); (u "C", 0)])
           {| seems_monospaced := true; most_common_width := 600;
              width_max := 600 |}
           _ _ _ _ _ (conj eq_refl (conj eq_refl (conj eq_refl
                        (conj eq_refl eq_refl)))) eq_refl).
  - discriminate.
  - intros g Hg _. simpl in Hg. rewrite !elem_of_cons, elem_of_nil in Hg.
    destruct Hg as [->|[->|[->|[->|[]]]]]; eexists; reflexivity.
Defined.

Lemma monospace_no_glyphs_witness :
  com_google_fonts_check_monospace 2 3 5
    (metrics_font 600 0 {| bFamilyType := 2; bProportion := 9; bSpacing := 0 |}
       [])
    {| seems_monospaced := true; most_common_width := 600; width_max := 600 |}
  = MkGen [mono_bad_post_isFixedPitch 0] (Raise ZeroDivisionError).
Proof.
  apply (monospace_no_glyphs 2 3 5
           (metrics_font 600 0
              {| bFamilyType := 2; bProportion := 9; bSpacing := 0 |} [])
           {| seems_monospaced := true; most_common_width := 600;
              width_max := 600 |}
           _ _ _ _ _ (conj eq_refl (conj eq_refl (conj eq_refl
                        (conj eq_refl eq_refl)))) eq_refl eq_refl).
Defined.

(** X10: the third case of [PANOSE_expected], the advice that starts with
    'PANOSE Family Type is set to 4 (latin symbol).', is never returned:
    the case before it already answers for LATIN_SYMBOL, with the advice
    to set the PANOSE spacing. *)
Theorem PANOSE_expected_dead_case (LATIN_TEXT LATIN_HAND_WRITTEN LATIN_SYMBOL : Z)
    (family_type : Z) :
  (Lit "PANOSE Family Type is set to 4 (latin symbol)."
   ∉ PANOSE_expected LATIN_TEXT LATIN_HAND_WRITTEN LATIN_SYMBOL family_type)
  /\ (family_type = LATIN_SYMBOL -> family_type <> LATIN_TEXT ->
      PANOSE_expected LATIN_TEXT LATIN_HAND_WRITTEN LATIN_SYMBOL family_type
      = [Lit "Please set PANOSE Spacing to ";
         FInt PANOSE_Spacing.MONOSPACED; Lit " (monospaced)"]).
Proof.
  unfold PANOSE_expected. split.
  - destruct (family_type =? LATIN_TEXT).
    { rewrite !elem_of_cons, elem_of_nil. intros [?|[?|[?|[]]]]; discriminate. }
    destruct (bool_decide (family_type ∈ [LATIN_HAND_WRITTEN; LATIN_SYMBOL]))
      eqn:Hin.
    { rewrite !elem_of_cons, elem_of_nil. intros [?|[?|[?|[]]]]; discriminate. }
    destruct (family_type =? LATIN_SYMBOL) eqn:Heq.
    { apply Z.eqb_eq in Heq. apply bool_decide_eq_false in Hin.
      exfalso. apply Hin. subst. right. left. }
    rewrite !elem_of_cons, elem_of_nil. intros [?|[?|[?|[]]]]; discriminate.
  - intros -> Hne. apply Z.eqb_neq in Hne. rewrite Hne.
    rewrite bool_decide_eq_true_2; [done|]. right. left.
Qed.

Lemma PANOSE_expected_dead_case_witness :
  PANOSE_expected 2 3 5 5
  = [Lit "Please set PANOSE Spacing to "; FInt 3; Lit " (monospaced)"].
Proof.
  apply (proj2 (PANOSE_expected_dead_case 2 3 5 5)); [reflexivity|discriminate].
Defined.

(** ** _quick_and_dirty_glyph_is_empty *)

(** X11: [_quick_and_dirty_glyph_is_empty] reads one outline table: 'glyf'
    when the font has it, else 'CFF2' when the font has it, else 'CFF ';
    the tables after the one it reads do not change its answer.  It answers
    True only for a glyph of 'glyf' that is not composite and has no
    contour, or for a charstring of at most one byte; a composite glyph is
    never empty; and a glyph that the table read does not have raises
    KeyError. *)
Theorem glyph_is_empty_reads_one_table (f1 f2 : TTFont) (g : pystr) :
  (glyf_table f1 = glyf_table f2 -> glyf_table f1 <> None ->
   _quick_and_dirty_glyph_is_empty f1 g = _quick_and_dirty_glyph_is_empty f2 g)
  /\ (glyf_table f1 = None -> glyf_table f2 = None ->
      CFF2_table f1 = CFF2_table f2 -> CFF2_table f1 <> None ->
      _quick_and_dirty_glyph_is_empty f1 g = _quick_and_dirty_glyph_is_empty f2 g)
  /\ (_quick_and_dirty_glyph_is_empty f1 g = Ok true ->
      (exists glyf glyph,
          glyf_table f1 = Some glyf /\ dict_get (glyphs glyf) g = Ok glyph
          /\ isComposite glyph = false /\ numberOfContours glyph = 0)
      \/ (glyf_table f1 = None
          /\ exists cff top bytecode,
               (CFF2_table f1 = Some cff
                \/ (CFF2_table f1 = None /\ CFF_table f1 = Some cff))
               /\ index0 (topDictIndex cff) = Ok top
               /\ dict_get (CharStrings top) g = Ok bytecode
               /\ (length bytecode <= 1)%nat))
  /\ (forall glyf, glyf_table f1 = Some glyf ->
        (forall glyph, (g, glyph) ∉ glyphs glyf) ->
        _quick_and_dirty_glyph_is_empty f1 g = Raise KeyError).
Proof.
  unfold _quick_and_dirty_glyph_is_empty. split; [|split; [|split]].
  - intros Heq Hne. rewrite <- Heq. by destruct (glyf_table f1).
  - intros -> -> Heq Hne. rewrite <- Heq. by destruct (CFF2_table f1).
  - destruct (glyf_table f1) as [glyf|]; simpl.
    + destruct (dict_get (glyphs glyf) g) as [glyph|e] eqn:Hg; simpl; [|done].
      destruct (isComposite glyph) eqn:Hc; simpl; [done|].
      destruct (numberOfContours glyph =? 0) eqn:Hn; [|done].
      intros _. left. apply Z.eqb_eq in Hn. eauto 10.
    + intros H. right. split; [done|].
      destruct (CFF2_table f1) as [cff|]; simpl in H.
      * destruct (index0 (topDictIndex cff)) as [top|] eqn:Htop; simpl in H;
          [|done].
        destruct (dict_get (CharStrings top) g) as [bc|] eqn:Hbc; simpl in H;
          [|done].
        destruct (len bc <=? 1) eqn:Hl; [|done].
        apply Z.leb_le in Hl. unfold len in Hl.
        exists cff, top, bc. split; [by left|]. repeat split; [done..|lia].
      * destruct (CFF_table f1) as [cff|]; simpl in H; [|done].
        destruct (index0 (topDictIndex cff)) as [top|] eqn:Htop; simpl in H;
          [|done].
        destruct (dict_get (CharStrings top) g) as [bc|] eqn:Hbc; simpl in H;
          [|done].
        destruct (len bc <=? 1) eqn:Hl; [|done].
        apply Z.leb_le in Hl. unfold len in Hl.
        exists cff, top, bc. split; [by right|]. repeat split; [done..|lia].
  - intros glyf -> Hno. simpl.
    assert (dict_get (glyphs glyf) g = Raise KeyError) as ->; [|done].
    induction (glyphs glyf) as [|[k v] l IH]; [done|]. simpl.
    destruct (decide (k = g)) as [->|Hne].
    + exfalso. apply (Hno v). left.
    + apply IH. intros glyph Hin. apply (Hno glyph). by right.
Qed.

Lemma glyph_is_empty_reads_one_table_witness :
  _quick_and_dirty_glyph_is_empty missing_glyph_font (u "b") = Raise KeyError.
Proof.
  apply (proj2 (proj2 (proj2 (glyph_is_empty_reads_one_table
                                missing_glyph_font missing_glyph_font (u "b"))))
           _ eq_refl).
  intros glyph Hin. simpl in Hin. rewrite !elem_of_cons, elem_of_nil in Hin.
  destruct Hin as [H|[H|[]]]; discriminate.
Defined.

(** ** find_empty_letters on a cmap entry it cannot inspect *)




(** ** The list of checks of the profile *)

Lemma explicit_file_checks :
  filter (fun c => c ∈ SET_EXPLICIT_CHECKS) CHECKS_IN_THIS_FILE
  = CHECKS_IN_THIS_FILE.
Proof. vm_compute. reflexivity. Qed.

Lemma explicit_overridden_checks :
  Forall (fun c => c ∈ SET_EXPLICIT_CHECKS) OVERRIDDEN_CHECKS.
Proof. apply (bool_decide_unpack _). vm_compute. exact I. Qed.

Section ProfileProperties.

Variable UNIVERSAL FONTWERK GOOGLEFONTS NOTOFONTS : list string.
Variable set_iter : gset string -> list string.

(** Iterating a set gives each of its members once, in some order. *)
Hypothesis set_iter_elements : forall s, set_iter s ≡ₚ elements s.

Let imported := SET_IMPORTED_CHECKS UNIVERSAL FONTWERK GOOGLEFONTS NOTOFONTS.
Let expected :=
  ADOBEFONTS_PROFILE_CHECKS UNIVERSAL FONTWERK GOOGLEFONTS NOTOFONTS set_iter.

Lemma elem_of_set_iter (s : gset string) (c : string) :
  c ∈ set_iter s <-> c ∈ s.
Proof. by rewrite set_iter_elements, elem_of_elements. Qed.

Lemma elem_of_imported (c : string) :
  c ∈ imported
  <-> c ∈ UNIVERSAL \/ c ∈ FONTWERK \/ c ∈ GOOGLEFONTS \/ c ∈ NOTOFONTS.
Proof.
  unfold imported, SET_IMPORTED_CHECKS.
  by rewrite elem_of_list_to_set, !elem_of_app.
Qed.

Lemma expected_checks_explicit (c : string) :
  c ∈ expected -> c ∈ SET_EXPLICIT_CHECKS.
Proof.
  unfold expected, ADOBEFONTS_PROFILE_CHECKS.
  rewrite elem_of_app, !list_elem_of_filter. tauto.
Qed.

(** X13: the list of expected checks, as the two comprehensions build it,
    starts with the three checks of the file in their order, since each
    of them is in the explicit set; a check id is in the list exactly when
    it is in the explicit set and is a check of the file or of one of the
    four imported profiles; and the list has a check id twice exactly when
    one of the three checks of the file is also imported, as nothing
    removes duplicates between the two comprehensions. *)
Theorem profile_checks_composition :
  take 3 expected = CHECKS_IN_THIS_FILE
  /\ (forall c, c ∈ expected
        <-> c ∈ SET_EXPLICIT_CHECKS
            /\ (c ∈ CHECKS_IN_THIS_FILE
                \/ c ∈ UNIVERSAL \/ c ∈ FONTWERK \/ c ∈ GOOGLEFONTS
                \/ c ∈ NOTOFONTS))
  /\ (NoDup expected
      <-> forall c, c ∈ CHECKS_IN_THIS_FILE ->
            (c ∉ UNIVERSAL) /\ (c ∉ FONTWERK) /\ (c ∉ GOOGLEFONTS)
            /\ (c ∉ NOTOFONTS)).
Proof.
  unfold expected, ADOBEFONTS_PROFILE_CHECKS. rewrite explicit_file_checks.
  fold imported. split; [reflexivity|]. split.
  - intros c. rewrite elem_of_app, list_elem_of_filter, elem_of_set_iter,
      elem_of_imported.
    split.
    + intros [Hc|[He Hi]]; [|tauto]. split; [|by left].
      rewrite <- explicit_file_checks in Hc.
      by apply list_elem_of_filter in Hc as [? _].
    + intros [He [Hc|Hi]]; [by left|right; tauto].
  - assert (NoDup CHECKS_IN_THIS_FILE) as Hnd.
    { apply (bool_decide_unpack _). vm_compute. exact I. }
    assert (NoDup (filter (fun c => c ∈ SET_EXPLICIT_CHECKS) (set_iter imported)))
      as Hnd'.
    { apply NoDup_filter. rewrite set_iter_elements. apply NoDup_elements. }
    rewrite NoDup_app. split.
    + intros (_ & Hdis & _) c Hc. specialize (Hdis c Hc).
      rewrite list_elem_of_filter, elem_of_set_iter, elem_of_imported in Hdis.
      assert (c ∈ SET_EXPLICIT_CHECKS).
      { rewrite <- explicit_file_checks in Hc.
        by apply list_elem_of_filter in Hc as [? _]. }
      tauto.
    + intros H. split; [done|]. split; [|done].
      intros c Hc. specialize (H c Hc).
      rewrite list_elem_of_filter, elem_of_set_iter, elem_of_imported. tauto.
Qed.

(** X14: [filter_func] refuses a check id exactly when the check is
    imported and is not in the explicit set.  So every expected check is
    registered, every overridden check is registered whatever the imported
    profiles list, and a check that no imported profile has is registered
    even when the explicit set does not have it. *)
Theorem filter_func_registers_expected (checkid : string) :
  let registered :=
    filter_func UNIVERSAL FONTWERK GOOGLEFONTS NOTOFONTS checkid in
  (registered = false
   <-> (checkid ∈ UNIVERSAL \/ checkid ∈ FONTWERK \/ checkid ∈ GOOGLEFONTS
        \/ checkid ∈ NOTOFONTS)
       /\ checkid ∉ SET_EXPLICIT_CHECKS)
  /\ (checkid ∈ expected -> registered = true)
  /\ (checkid ∈ OVERRIDDEN_CHECKS -> registered = true)
  /\ (checkid ∉ UNIVERSAL -> checkid ∉ FONTWERK -> checkid ∉ GOOGLEFONTS ->
      checkid ∉ NOTOFONTS -> registered = true).
Proof.
  intros registered.
  assert (registered = false
          <-> (checkid ∈ UNIVERSAL \/ checkid ∈ FONTWERK
               \/ checkid ∈ GOOGLEFONTS \/ checkid ∈ NOTOFONTS)
              /\ checkid ∉ SET_EXPLICIT_CHECKS) as Hiff.
  { subst registered. unfold filter_func. fold imported.
    rewrite negb_false_iff, bool_decide_eq_true, elem_of_difference,
      elem_of_imported. tauto. }
  split; [exact Hiff|].
  assert (checkid ∈ SET_EXPLICIT_CHECKS -> registered = true) as Hexp.
  { intros He. apply not_false_iff_true. intros Hr.
    apply Hiff in Hr. tauto. }
  split; [|split].
  - intros Hin. by apply Hexp, expected_checks_explicit.
  - intros Hin. apply Hexp.
    by apply (proj1 (Forall_forall _ _) explicit_overridden_checks).
  - intros H1 H2 H3 H4. apply not_false_iff_true. intros Hr.
    apply Hiff in Hr. tauto.
Qed.

End ProfileProperties.

Lemma profile_checks_composition_witness :
  NoDup (ADOBEFONTS_PROFILE_CHECKS example_universal_checks [] [] [] elements).
Proof.
  apply (proj2 (proj2 (proj2 (profile_checks_composition
                                example_universal_checks [] [] [] elements
                                (fun s => reflexivity (elements s)))))).
  intros c Hc.
  assert (c ∉ example_universal_checks) as Hu.
  { intros Hin. unfold CHECKS_IN_THIS_FILE in Hc.
    unfold example_universal_checks in Hin.
    rewrite !elem_of_cons, elem_of_nil in Hc.
    rewrite !elem_of_cons, elem_of_nil in Hin.
    destruct Hc as [->|[->|[->|[]]]]; destruct Hin as [?|[?|[]]]; discriminate. }
  repeat split; [exact Hu|apply not_elem_of_nil..].
Defined.

Lemma filter_func_registers_expected_witness :
  filter_func example_universal_checks [] [] []
    "com.google.fonts/check/example_not_listed" = false
  /\ filter_func example_universal_checks [] [] []
       "com.google.fonts/check/whitespace_glyphs" = true.
Proof.
  split.
  - apply (proj1 (filter_func_registers_expected example_universal_checks
                    [] [] [] elements
                    "com.google.fonts/check/example_not_listed")).
    split; [left; right; left|].
    apply (bool_decide_unpack _). vm_compute. exact I.
  - apply (proj1 (proj2 (proj2 (filter_func_registers_expected
                                  example_universal_checks [] [] [] elements
                                  "com.google.fonts/check/whitespace_glyphs")))).
    left.
Defined.

(** ** max_4_fonts_per_family_name on a font whose names cannot be read *)

(** X15: [max_4_fonts_per_family_name] reads the family names of all the
    fonts before it yields anything.  When the names of one font cannot
    be read, the check yields no verdict at all and ends by the exception
    of the first such font, however many of the fonts before it share a
    family name. *)
Theorem max_4_unreadable_font (get : name_entry_strings)
    (set_order : list pystr -> list pystr)
    (pre post : list TTFont) (ttFont : TTFont) (e : exn) :
  names_readable get pre ->
  get ttFont NameID.FONT_FAMILY_NAME (Some PlatformID.WINDOWS)
    (Some WindowsEncodingID.UNICODE_BMP) (Some WindowsLanguageID.ENGLISH_USA)
  = Raise e ->
  com_adobe_fonts_check_family_max_4_fonts_per_family_name get set_order
    (pre ++ ttFont :: post)
  = MkGen [] (Raise e).
Proof.
  intros Hpre Hraise.
  unfold com_adobe_fonts_check_family_max_4_fonts_per_family_name,
    collect_family_names.
  rewrite for_o_app.
  rewrite (for_o_pure (fun f acc => acc ++ set_order (family_names_of get f))
             _ pre).
  2:{ intros f acc Hf. destruct (Hpre f Hf) as [l Hl].
      unfold family_names_of. by rewrite Hl. }
  change (Ok ?b ≫= ?k) with (k b). cbv beta.
  cbn [for_o]. rewrite Hraise. reflexivity.
Qed.

Lemma max_4_unreadable_font_witness :
  com_adobe_fonts_check_family_max_4_fonts_per_family_name
    get_name_entry_strings_model remove_dups
    ([example_family_font; example_family_font; example_family_font;
      example_family_font; example_family_font]
     ++ font_with_upm 1000 :: [example_family_font])
  = MkGen [] (Raise KeyError).
Proof.
  apply (max_4_unreadable_font get_name_entry_strings_model remove_dups).
  - intros f H. repeat (apply elem_of_cons in H as [->|H]; [by eexists|]).
    by apply elem_of_nil in H.
  - reflexivity.
Defined.

(** ** match_familyname_fullfont: the three ways it ends *)

Lemma comparison_cases (t : NameTable) (p e l fid : Z) :
  (comparison t p e l fid = ([], (false, true))
   /\ ~ (is_Some (getName t NameID.FULL_FONT_NAME p e l)
         /\ is_Some (getName t fid p e l)))
  \/ comparison t p e l fid = ([], (true, true))
  \/ (exists rf rm,
        getName t NameID.FULL_FONT_NAME p e l = Some rf
        /\ getName t fid p e l = Some rm
        /\ ((decoded rm = None
             /\ comparison t p e l fid = ([cannot_decode p e l fid], (true, false)))
            \/ (decoded rm <> None /\ decoded rf = None
                /\ comparison t p e l fid
                   = ([cannot_decode p e l NameID.FULL_FONT_NAME], (true, false)))
            \/ (exists full fam,
                  decoded rf = Some full /\ decoded rm = Some fam
                  /\ comparison t p e l fid
                     = ([mismatch_font_names full fam p e l fid], (true, false))))).
Proof.
  unfold comparison.
  destruct (getName t NameID.FULL_FONT_NAME p e l) as [rf|].
  2:{ left. split; [done|]. by intros [[? ?] _]. }
  destruct (getName t fid p e l) as [rm|].
  2:{ left. split; [done|]. by intros [_ [? ?]]. }
  destruct (decoded rm) as [fam|] eqn:Hrm.
  2:{ right. right. exists rf, rm. split; [done|]. split; [done|].
      left. by rewrite Hrm. }
  destruct (decoded rf) as [full|] eqn:Hrf.
  2:{ right. right. exists rf, rm. split; [done|]. split; [done|].
      right. left. by rewrite Hrm, Hrf. }
  destruct (startswith full fam).
  - right. by left.
  - right. right. exists rf, rm. split; [done|]. split; [done|].
    right. right. exists full, fam. by rewrite Hrm, Hrf.
Qed.

Lemma comparisons_silent_ok (t : NameTable) :
  fst (comparisons t) = [] <-> snd (snd (comparisons t)) = true.
Proof.
  split.
  - intros Hnil. apply comparisons_ok. intros p e l fid Hfid.
    destruct (comparison_cases t p e l fid)
      as [[-> _]|[->|(rf & rm & _ & _ & H)]]; [done..|].
    assert (exists r, r ∈ fst (comparison t p e l fid)) as [r Hr].
    { destruct H as [[_ ->]|[(_ & _ & ->)|(? & ? & _ & _ & ->)]];
        eexists; left. }
    assert (r ∈ fst (comparisons t)) as Hin
      by (apply comparisons_out; eauto 10).
    rewrite Hnil in Hin. by apply elem_of_nil in Hin.
  - intros Hok. apply elem_of_nil_inv. intros r Hr.
    apply comparisons_out in Hr as (p & e & l & fid & Hfid & Hr).
    pose proof (proj1 (comparisons_ok t) Hok p e l fid Hfid) as H.
    destruct (comparison_cases t p e l fid)
      as [[Hc _]|[Hc|(rf & rm & _ & _ & Hc)]].
    + rewrite Hc in Hr. by apply elem_of_nil in Hr.
    + rewrite Hc in Hr. by apply elem_of_nil in Hr.
    + destruct Hc as [[_ Hc]|[(_ & _ & Hc)|(? & ? & _ & _ & Hc)]];
        by rewrite Hc in H.
Qed.

Lemma comparisons_not_made (t : NameTable) :
  fst (snd (comparisons t)) = false -> fst (comparisons t) = [].
Proof.
  intros Hmade. apply elem_of_nil_inv. intros r Hr.
  apply comparisons_out in Hr as (p & e & l & fid & Hfid & Hr).
  assert (fst (snd (comparisons t)) = true) as H; [|congruence].
  apply comparisons_made. exists p, e, l, fid. split; [done|].
  destruct (comparison_cases t p e l fid)
    as [[Hc _]|[Hc|(rf & rm & _ & _ & Hc)]].
  - rewrite Hc in Hr. by apply elem_of_nil in Hr.
  - by rewrite Hc.
  - by destruct Hc as [[_ ->]|[(_ & _ & ->)|(? & ? & _ & _ & ->)]].
Qed.

Lemma missing_font_names_not_compared (t : NameTable) :
  missing_font_names ∉ fst (comparisons t).
Proof.
  intros (p & e & l & fid & Hfid & Hr)%comparisons_out.
  destruct (comparison_cases t p e l fid)
    as [[Hc _]|[Hc|(rf & rm & _ & _ & Hc)]].
  - rewrite Hc in Hr. by apply elem_of_nil in Hr.
  - rewrite Hc in Hr. by apply elem_of_nil in Hr.
  - destruct Hc as [[_ Hc]|[(_ & _ & Hc)|(? & ? & _ & _ & Hc)]];
      rewrite Hc in Hr; apply list_elem_of_singleton in Hr;
      unfold missing_font_names, cannot_decode, mismatch_font_names in Hr;
      discriminate Hr.
Qed.

(** X16: on a font with a 'name' table [match_familyname_fullfont] always
    yields something.  It yields FAIL missing-font-names exactly when no
    combination of platform, encoding and language has both a Full Name
    record and a record of one of the family name ids, and then yields
    nothing else; when it yields PASS it yields nothing else; and
    otherwise every result is a FAIL about a pair of records. *)
Theorem match_familyname_fullfont_three_endings (ttFont : TTFont)
    (t : NameTable) :
  name_table ttFont = Some t ->
  let run := com_google_fonts_check_name_match_familyname_fullfont ttFont in
  let pass := (PASS, Plain "Full font name begins with the font family name.") in
  yielded run <> []
  /\ (missing_font_names ∈ yielded run
      <-> ~ exists p e l fid, fid ∈ family_name_ids
            /\ is_Some (getName t NameID.FULL_FONT_NAME p e l)
            /\ is_Some (getName t fid p e l))
  /\ (missing_font_names ∈ yielded run -> yielded run = [missing_font_names])
  /\ (forall m, (PASS, m) ∈ yielded run -> yielded run = [pass])
  /\ (missing_font_names ∉ yielded run -> pass ∉ yielded run ->
      forall r, r ∈ yielded run ->
        exists p e l fid,
          fid ∈ family_name_ids
          /\ is_Some (getName t NameID.FULL_FONT_NAME p e l)
          /\ is_Some (getName t fid p e l)
          /\ (r = cannot_decode p e l fid
              \/ r = cannot_decode p e l NameID.FULL_FONT_NAME
              \/ exists full fam, r = mismatch_font_names full fam p e l fid)).
Proof.
  intros Ht run pass. subst run pass.
  rewrite (match_familyname_fullfont_yielded ttFont t Ht).
  unfold match_familyname_tail.
  destruct (fst (snd (comparisons t))) eqn:Hmade; cbn [negb].
  - (* a comparison was made *)
    assert (exists p e l fid, fid ∈ family_name_ids
              /\ is_Some (getName t NameID.FULL_FONT_NAME p e l)
              /\ is_Some (getName t fid p e l)) as Hpair.
    { apply comparisons_made in Hmade as (p & e & l & fid & Hfid & Hm).
      apply comparison_made_iff in Hm. eauto 10. }
    assert (forall r, r ∈ fst (comparisons t) ->
              exists p e l fid,
                fid ∈ family_name_ids
                /\ is_Some (getName t NameID.FULL_FONT_NAME p e l)
                /\ is_Some (getName t fid p e l)
                /\ (r = cannot_decode p e l fid
                    \/ r = cannot_decode p e l NameID.FULL_FONT_NAME
                    \/ exists full fam,
                         r = mismatch_font_names full fam p e l fid)) as Hres.
    { intros r (p & e & l & fid & Hfid & Hr)%comparisons_out.
      exists p, e, l, fid. split; [done|].
      destruct (comparison_cases t p e l fid)
        as [[Hc _]|[Hc|(rf & rm & Hrf & Hrm & Hc)]].
      - rewrite Hc in Hr. by apply elem_of_nil in Hr.
      - rewrite Hc in Hr. by apply elem_of_nil in Hr.
      - rewrite Hrf, Hrm. split; [by eexists|]. split; [by eexists|].
        destruct Hc as [[_ Hc]|[(_ & _ & Hc)|(full & fam & _ & _ & Hc)]];
          rewrite Hc in Hr; apply list_elem_of_singleton in Hr; subst r;
          eauto. }
    destruct (snd (snd (comparisons t))) eqn:Hok.
    + apply comparisons_silent_ok in Hok. rewrite Hok. simpl.
      split; [done|]. split.
      { split; [|done]. by intros ?%list_elem_of_singleton. }
      split; [by intros ?%list_elem_of_singleton|].
      split; [done|]. intros _ Hno. exfalso. apply Hno. left.
    + rewrite app_nil_r.
      assert (fst (comparisons t) <> []) as Hne.
      { intros Hnil. apply comparisons_silent_ok in Hnil. congruence. }
      split; [done|]. split.
      { split; [|done]. by intros ?%missing_font_names_not_compared. }
      split; [by intros ?%missing_font_names_not_compared|].
      split; [by intros m ?%comparisons_FAIL|].
      intros _ _. exact Hres.
  - (* no comparison was made *)
    rewrite (comparisons_not_made t Hmade). simpl.
    split; [done|]. split.
    { split; [|intros _; left].
      intros _ (p & e & l & fid & Hfid & Hm).
      assert (fst (snd (comparisons t)) = true) as H; [|congruence].
      apply comparisons_made. exists p, e, l, fid. split; [done|].
      by apply comparison_made_iff. }
    split; [done|]. split.
    { by intros m ?%list_elem_of_singleton. }
    intros Hno. exfalso. apply Hno. left.
Qed.

Lemma match_familyname_fullfont_three_endings_witness :
  yielded (com_google_fonts_check_name_match_familyname_fullfont
             (font_with_names [win_english 4 (Some (u "ExampleSans Bold"));
                               win_german 1 (Some (u "ExampleSans"))]))
  = [missing_font_names].
Proof.
  destruct (match_familyname_fullfont_three_endings
              (font_with_names [win_english 4 (Some (u "ExampleSans Bold"));
                                win_german 1 (Some (u "ExampleSans"))])
              _ eq_refl) as (_ & Hiff & Hone & _).
  apply Hone, Hiff.
  intros (p & e & l & fid & Hfid & [rf Hrf] & [rm Hrm]).
  unfold getName in Hrf, Hrm.
  cbn [find names nameID platformID platEncID langID win_english win_german]
    in Hrf, Hrm.
  assert (l = 0x409) as ->.
  { destruct (1033 =? l) eqn:Hl; [by apply Z.eqb_eq in Hl|].
    rewrite andb_false_r in Hrf.
    change (1 =? NameID.FULL_FONT_NAME) with false in Hrf. discriminate Hrf. }
  change (1031 =? 1033) with false in Hrm. rewrite andb_false_r in Hrm.
  destruct (4 =? fid) eqn:Hf; [|by rewrite !andb_false_l in Hrm].
  apply Z.eqb_eq in Hf. subst fid. unfold family_name_ids in Hfid.
  rewrite !elem_of_cons, elem_of_nil in Hfid.
  destruct Hfid as [?|[?|[?|[]]]]; discriminate.
Defined.

(** ** match_familyname_fullfont: the records that cannot be decoded *)

Lemma cannot_decode_inj (p e l n p' e' l' n' : Z) :
  cannot_decode p e l n = cannot_decode p' e' l' n' ->
  p = p' /\ e = e' /\ l = l' /\ n = n'.
Proof.
  unfold cannot_decode, decode_error_msg_prefix. cbn [app].
  intros H. injection H as _ Hp He Hl _ Hn. by subst.
Qed.

Lemma full_name_not_family_name (fid : Z) :
  fid ∈ family_name_ids -> fid <> NameID.FULL_FONT_NAME.
Proof.
  unfold family_name_ids. rewrite !elem_of_cons, elem_of_nil.
  intros [->|[->|[->|[]]]]; discriminate.
Qed.

Lemma cannot_decode_not_tail (sm : summary) (p e l n : Z) :
  cannot_decode p e l n ∉ match_familyname_tail sm.
Proof.
  unfold match_familyname_tail. intros H.
  repeat case_match; try (by apply elem_of_nil in H);
    apply list_elem_of_singleton in H;
    unfold cannot_decode, missing_font_names in H; discriminate H.
Qed.

(** X17: for a Full Name record and a family name record at the same
    platform, encoding and language, [match_familyname_fullfont] yields
    FAIL cannot-decode for the family name id exactly when the family name
    record cannot be decoded.  The family name is decoded first: the FAIL
    cannot-decode for the Full Name id is yielded exactly when the Full
    Name record cannot be decoded and some family name record at that
    combination can, so a Full Name that cannot be decoded goes unreported
    when no family name beside it decodes. *)
Theorem match_familyname_fullfont_cannot_decode (ttFont : TTFont)
    (t : NameTable) (p e l : Z) (rf : NameRecord) :
  name_table ttFont = Some t ->
  getName t NameID.FULL_FONT_NAME p e l = Some rf ->
  let run := com_google_fonts_check_name_match_familyname_fullfont ttFont in
  (forall fid rm,
     fid ∈ family_name_ids -> getName t fid p e l = Some rm ->
     (cannot_decode p e l fid ∈ yielded run <-> decoded rm = None))
  /\ (cannot_decode p e l NameID.FULL_FONT_NAME ∈ yielded run
      <-> decoded rf = None
          /\ exists fid rm, fid ∈ family_name_ids
               /\ getName t fid p e l = Some rm /\ decoded rm <> None).
Proof.
  intros Ht Hrf run. subst run.
  rewrite (match_familyname_fullfont_yielded ttFont t Ht).
  split.
  - intros fid rm Hfid Hrm. rewrite elem_of_app. split.
    + intros [H|H]; [|by apply cannot_decode_not_tail in H].
      apply comparisons_out in H as (p' & e' & l' & fid' & Hfid' & H).
      destruct (comparison_cases t p' e' l' fid')
        as [[Hc _]|[Hc|(rf' & rm' & Hrf' & Hrm' & Hc)]].
      * rewrite Hc in H. by apply elem_of_nil in H.
      * rewrite Hc in H. by apply elem_of_nil in H.
      * destruct Hc as [[Hd Hc]|[(_ & _ & Hc)|(? & ? & _ & _ & Hc)]];
          rewrite Hc in H; apply list_elem_of_singleton in H.
        -- apply cannot_decode_inj in H as (-> & -> & -> & ->). congruence.
        -- apply cannot_decode_inj in H as (_ & _ & _ & ->).
           by apply full_name_not_family_name in Hfid.
        -- unfold cannot_decode, mismatch_font_names in H. discriminate H.
    + intros Hd. left. apply comparisons_out. exists p, e, l, fid.
      split; [done|]. unfold comparison. rewrite Hrf, Hrm, Hd. left.
  - rewrite elem_of_app. split.
    + intros [H|H]; [|by apply cannot_decode_not_tail in H].
      apply comparisons_out in H as (p' & e' & l' & fid' & Hfid' & H).
      destruct (comparison_cases t p' e' l' fid')
        as [[Hc _]|[Hc|(rf' & rm' & Hrf' & Hrm' & Hc)]].
      * rewrite Hc in H. by apply elem_of_nil in H.
      * rewrite Hc in H. by apply elem_of_nil in H.
      * destruct Hc as [[Hd Hc]|[(Hd & Hd' & Hc)|(? & ? & _ & _ & Hc)]];
          rewrite Hc in H; apply list_elem_of_singleton in H.
        -- apply cannot_decode_inj in H as (_ & _ & _ & H).
           symmetry in H. by apply full_name_not_family_name in Hfid'.
        -- apply cannot_decode_inj in H as (-> & -> & -> & _).
           split; [congruence|]. by exists fid', rm'.
        -- unfold cannot_decode, mismatch_font_names in H. discriminate H.
    + intros (Hd & fid & rm & Hfid & Hrm & Hd'). left.
      apply comparisons_out. exists p, e, l, fid. split; [done|].
      unfold comparison. rewrite Hrf, Hrm, Hd.
      destruct (decoded rm); [left|done].
Qed.

Lemma match_familyname_fullfont_cannot_decode_witness :
  cannot_decode 3 1 0x407 1
  ∈ yielded (com_google_fonts_check_name_match_familyname_fullfont
               undecodable_german_family).
Proof.
  apply (proj1 (match_familyname_fullfont_cannot_decode
                  undecodable_german_family _ 3 1 0x407
                  (win_german 4 (Some (u "ExampleSans Bold")))
                  eq_refl eq_refl) 1 (win_german 1 None)).
  - left.
  - reflexivity.
  - reflexivity.
Defined.
